(** * canvas-agent: indexing and hybrid retrieval

    A shallow embedding of [index_txt_records.py] (chunker, content
    deduplication, dual-store indexer) and [rag_utils.py] (hybrid search),
    with the properties of the retrieval core stated over it.

    Conventions.
    - Python [str] is [string]; [len], slicing and [+] are [String.length],
      [substring] and [+:+].
    - Python [int] is [Z] where the source lets it be negative, [nat] for
      lengths and positions.
    - Python [float] scores are exact rationals [Q]; rounding is not
      modelled, comparisons are [Qle_bool].
    - A [dict] used as a map is a [gmap]; the insertion-ordered [fused]
      dictionary, whose order decides ties, is an association list.
    - An exception is the [Raise] branch of [result]. *)

From Stdlib Require Import QArith ZArith String Ascii List Lia Lqa Sorted Permutation.
From stdpp Require Import gmap strings list fin_maps sorting.
From Equations Require Import Equations.

Open Scope string_scope.
Open Scope list_scope.

(* ===================================================================== *)
(** * Part I: definitions                                                 *)
(* ===================================================================== *)

(** ** Exceptions *)

Inductive exn : Type :=
| FileNotFoundError
| AssertionError
| IndexError
| ValueError
| ProviderError.

Inductive result (A : Type) : Type :=
| Ok (a : A)
| Raise (e : exn).
Arguments Ok {A} a.
Arguments Raise {A} e.

(** Sequencing that stops at the first exception, as Python statements do. *)
#[global] Instance result_ret : MRet result := fun _ a => Ok a.
#[global] Instance result_bind : MBind result := fun _ _ k r =>
  match r with
  | Ok a => k a
  | Raise e => Raise e
  end.

(** ** Strings and slices *)

(** [s[i:j]] for non-negative [i] and [j]; [substring] clips at the end of
    [s] exactly as a Python slice does. *)
Definition str_slice (s : string) (i j : nat) : string :=
  substring i (j - i) s.

(** A slice bound as Python resolves it against a sequence of length [n]:
    a negative bound counts from the end, and every bound is clipped to
    [0 .. n]. *)
Definition py_bound (n : nat) (a : Z) : nat :=
  if (a <? 0)%Z then Z.to_nat (Z.max 0 (Z.of_nat n + a))
  else Nat.min (Z.to_nat a) n.

(** [s[a:b]] on strings. *)
Definition py_slice (s : string) (a b : Z) : string :=
  str_slice s (py_bound (String.length s) a) (py_bound (String.length s) b).

(** [l[:k]] on lists. *)
Definition py_take {A : Type} (k : Z) (l : list A) : list A :=
  take (py_bound (length l) k) l.

Definition ascii_between (lo hi c : ascii) : bool :=
  Nat.leb (nat_of_ascii lo) (nat_of_ascii c)
  && Nat.leb (nat_of_ascii c) (nat_of_ascii hi).

Definition is_lower (c : ascii) : bool := ascii_between "a" "z" c.
Definition is_upper (c : ascii) : bool := ascii_between "A" "Z" c.
Definition is_digit (c : ascii) : bool := ascii_between "0" "9" c.

Definition lower_ascii (c : ascii) : ascii :=
  if is_upper c then ascii_of_nat (nat_of_ascii c + 32) else c.

(** [s.lower()] *)
Definition lower (s : string) : string :=
  string_of_list_ascii (map lower_ascii (list_ascii_of_string s)).

(** The class [[a-z0-9]] of [slug]. *)
Definition is_slug_char (c : ascii) : bool := is_lower c || is_digit c.

(** The class [\w] of [TOKEN_PATTERN]. *)
Definition is_word_char (c : ascii) : bool :=
  is_lower c || is_upper c || is_digit c || Ascii.eqb c "_".

(** [re.sub(r"[^a-z0-9]+", "_", ...)]: every maximal run of characters
    outside the class becomes one underscore. [in_run] records that the
    previous character already belonged to the current run. *)
Fixpoint sub_runs (in_run : bool) (l : list ascii) : list ascii :=
  match l with
  | [] => []
  | c :: r =>
      if is_slug_char c then c :: sub_runs false r
      else if in_run then sub_runs true r
      else "_"%char :: sub_runs true r
  end.

Fixpoint lstrip_underscore (l : list ascii) : list ascii :=
  match l with
  | [] => []
  | c :: r => if Ascii.eqb c "_" then lstrip_underscore r else l
  end.

(** [.strip("_")] *)
Definition strip_underscore (l : list ascii) : list ascii :=
  rev (lstrip_underscore (rev (lstrip_underscore l))).

(** [slug(s)] *)
Definition slug (s : string) : string :=
  string_of_list_ascii
    (strip_underscore (sub_runs false (list_ascii_of_string (lower s)))).

(** [TOKEN_PATTERN.findall(s)]: the maximal runs of word characters, left
    to right. [cur] is the run being read, in reverse. *)
Fixpoint findall_words (cur : list ascii) (l : list ascii) : list string :=
  match l with
  | [] =>
      match cur with
      | [] => []
      | _ => [string_of_list_ascii (rev cur)]
      end
  | c :: r =>
      if is_word_char c then findall_words (c :: cur) r
      else
        match cur with
        | [] => findall_words [] r
        | _ => string_of_list_ascii (rev cur) :: findall_words [] r
        end
  end.

(** [TOKEN_PATTERN.findall(s.lower())] *)
Definition tokenize (s : string) : list string :=
  findall_words [] (list_ascii_of_string (lower s)).

(** ** Chunker *)

Definition CHUNK_SIZE : Z := 1000.
Definition CHUNK_OVERLAP : Z := 200.

Section ChunkLoop.
Variable text : string.
Variables size step : nat.
Hypothesis step_pos : 0 < step.

(** The [while i < n] loop of [chunk_text_fixed], started at position
    [i]; the list returned is what the loop appends to [chunks]. *)
Equations? chunk_loop (i : nat) : list string
  by wf (String.length text - i) lt :=
  chunk_loop i with lt_dec i (String.length text) => {
    | right _ := [];
    | left _ with Nat.eq_dec (Nat.min (i + size) (String.length text))
                             (String.length text) => {
        | left _ :=
            [str_slice text i (Nat.min (i + size) (String.length text))];
        | right _ :=
            str_slice text i (Nat.min (i + size) (String.length text))
              :: chunk_loop (i + step) } }.
Proof. lia. Qed.
End ChunkLoop.

(** The stride [size - overlap] is positive once the [assert] has passed. *)
Lemma stride_positive (size overlap : Z) :
  (overlap < size)%Z -> 0 < Z.to_nat (size - overlap).
Proof. lia. Qed.

(** [chunk_text_fixed(text, size, overlap)]; the failed [assert] is
    [Raise AssertionError]. *)
Definition chunk_text_fixed (text : string) (size overlap : Z)
  : result (list string) :=
  match Z_le_dec 0 overlap, Z_lt_dec overlap size with
  | left _, left Hlt =>
      Ok (chunk_loop text (Z.to_nat size) (Z.to_nat (size - overlap))
            (stride_positive size overlap Hlt) 0)
  | _, _ => Raise AssertionError
  end.

(** Window [i] of the specification: from [i * step] to
    [min (i * step + size) L]. *)
Definition window (text : string) (size step i : nat) : string :=
  str_slice text (i * step) (Nat.min (i * step + size) (String.length text)).

(** ** Data model of the indexer *)

Record TxtRecord : Type := {
  file_name : string;
  date : string;
  course : string;
  module : string;
  file_path : string }.

(** The values a chunk's metadata dictionary holds. *)
Inductive meta_val : Type :=
| MStr (s : string)
| MInt (z : Z).

#[global] Instance meta_val_eq_dec : EqDecision meta_val.
Proof. solve_decision. Defined.

#[global] Instance meta_val_countable : Countable meta_val.
Proof.
  refine (inj_countable'
            (fun v => match v with MStr s => inl s | MInt z => inr z end)
            (fun x => match x with inl s => MStr s | inr z => MInt z end) _).
  intros [s|z]; reflexivity.
Defined.

(** [langchain.schema.Document] *)
Record Document : Type := {
  page_content : string;
  metadata : gmap string meta_val }.

(** The per-course BM25 pickle [{"bm25", "tokens", "chunks", "metas"}];
    the [bm25] object is [BM25Okapi(tokens)], a function of [pkg_tokens]. *)
Record Bm25Pkg : Type := {
  pkg_tokens : list (list string);
  pkg_chunks : list string;
  pkg_metas : list (gmap string meta_val) }.

(** The persisted state: one Chroma collection and one BM25 pickle per
    course slug. A slug is in [chroma_db] when its collection directory
    exists and is not empty, and in [bm25_db] when its pickle exists. *)
Record Store : Type := {
  chroma_db : gmap string (list Document);
  bm25_db : gmap string Bm25Pkg }.

Definition empty_store : Store := {| chroma_db := ∅; bm25_db := ∅ |}.

Definition nl : string := String "010"%char "".

(** [build_header(r)] *)
Definition build_header (r : TxtRecord) : string :=
  "# " +:+ file_name r +:+ nl
  +:+ "Date: " +:+ date r +:+ nl
  +:+ "Course: " +:+ course r +:+ nl
  +:+ "Module: " +:+ module r +:+ nl
  +:+ "Path: " +:+ file_path r +:+ nl +:+ nl.

(** [{m.get("source_key", "") for m in existing_meta}] *)
Definition meta_source_key (m : gmap string meta_val) : meta_val :=
  default (MStr "") (m !! "source_key").

Definition existing_keys_of (docs : list Document) : gset meta_val :=
  list_to_set (map (fun d => meta_source_key (metadata d)) docs).

(** [enumerate(new_chunks, start=start_id)] writing [chunk_id]. *)
Definition assign_chunk_ids (start_id : nat) (new_chunks : list Document)
  : list Document :=
  imap (fun i c =>
          {| page_content := page_content c;
             metadata := <["chunk_id" := MInt (Z.of_nat (start_id + i))]>
                           (metadata c) |})
       new_chunks.

Section Indexer.
(** The file system seen by [read_text]: [None] when the file is missing
    or cannot be read. *)
Variable fs : string -> option string.
(** [hashlib.sha256(...).hexdigest()] *)
Variable sha256 : string -> string.

(** [read_text(path)] *)
Definition read_text (path : string) : result string :=
  match fs path with
  | Some text => Ok text
  | None => Raise FileNotFoundError
  end.

(** [content_hash(text)] *)
Definition content_hash (text : string) : string := sha256 text.

Definition source_key_of (r : TxtRecord) (raw_text : string) : string :=
  file_path r +:+ "|" +:+ date r +:+ "|" +:+ content_hash raw_text.

Definition base_meta (r : TxtRecord) (source_key : string)
  : gmap string meta_val :=
  <["source_key" := MStr source_key]>
    (<["file_path" := MStr (file_path r)]>
       (<["date" := MStr (date r)]>
          (<["file_name" := MStr (file_name r)]>
             (<["module" := MStr (module r)]>
                (<["course" := MStr (course r)]> ∅))))).

(** The chunks of one record that passed the dedupe test: header plus
    body window, with the header length recorded. *)
Definition record_chunks (r : TxtRecord) (source_key : string)
    (body_chunks : list string) : list Document :=
  let header := build_header r in
  let hdr_len := String.length header in
  map (fun body_part =>
         {| page_content := header +:+ body_part;
            metadata := <["__header_len" := MInt (Z.of_nat hdr_len)]>
                          (base_meta r source_key) |})
      body_chunks.

(** The [for r in records] loop of [index_course]: the documents it
    appends to [new_chunks], or the exception that leaves the loop. *)
Fixpoint collect_new_chunks (existing_keys : gset meta_val)
    (records : list TxtRecord) : result (list Document) :=
  match records with
  | [] => Ok []
  | r :: rest =>
      raw_text ← read_text (file_path r);
      let source_key := source_key_of r raw_text in
      if bool_decide (MStr source_key ∈ existing_keys)
      then collect_new_chunks existing_keys rest
      else
        body_chunks ← chunk_text_fixed raw_text CHUNK_SIZE CHUNK_OVERLAP;
        more ← collect_new_chunks existing_keys rest;
        Ok (record_chunks r source_key body_chunks ++ more)
  end.

(** [index_course(records)] on the persisted state [st]. [Ok st'] is a
    normal return with [st'] persisted; [Raise e] leaves [st] as it was,
    every exception of this function being raised before its first
    write. *)
Definition index_course (st : Store) (records : list TxtRecord)
  : result Store :=
  match records with
  | [] => Ok st
  | r0 :: _ =>
      let course_slug := slug (course r0) in
      let vector_store := chroma_db st !! course_slug in
      let existing_keys :=
        match vector_store with
        | Some docs => existing_keys_of docs
        | None => ∅
        end in
      new_chunks ← collect_new_chunks existing_keys records;
      match new_chunks with
      | [] => Ok st
      | _ =>
          let start_id :=
            match vector_store with
            | Some docs => length docs
            | None => 0
            end in
          let new_chunks := assign_chunk_ids start_id new_chunks in
          let vector_store' := default [] vector_store ++ new_chunks in
          let toks_new := map (fun c => tokenize (page_content c)) new_chunks in
          let '(old_tokens, old_chunks, old_metas) :=
            match bm25_db st !! course_slug with
            | Some payload =>
                (pkg_tokens payload, pkg_chunks payload, pkg_metas payload)
            | None => ([], [], [])
            end in
          Ok {| chroma_db := <[course_slug := vector_store']> (chroma_db st);
                bm25_db :=
                  <[course_slug :=
                      {| pkg_tokens := old_tokens ++ toks_new;
                         pkg_chunks := old_chunks ++ map page_content new_chunks;
                         pkg_metas := old_metas ++ map metadata new_chunks |}]>
                    (bm25_db st) |}
      end
  end.

(** [by_course[course].append(...)] on the insertion-ordered
    [defaultdict(list)]. *)
Fixpoint group_add (by_course : list (string * list TxtRecord))
    (r : TxtRecord) : list (string * list TxtRecord) :=
  match by_course with
  | [] => [(course r, [r])]
  | (c, rs) :: rest =>
      if String.eqb c (course r) then (c, rs ++ [r]) :: rest
      else (c, rs) :: group_add rest r
  end.

(** The [for course, recs in by_course.items()] loop: the state that is
    persisted when it ends, and the exception that ended it if any. *)
Fixpoint index_groups (st : Store)
    (groups : list (string * list TxtRecord)) : Store * option exn :=
  match groups with
  | [] => (st, None)
  | (_, recs) :: rest =>
      match index_course st recs with
      | Ok st' => index_groups st' rest
      | Raise e => (st, Some e)
      end
  end.

(** [index_all_txt_records(records)] *)
Definition index_all_txt_records (st : Store) (records : list TxtRecord)
  : Store * option exn :=
  index_groups st (fold_left group_add records []).
End Indexer.

(** ** Views of a namespace's stores *)

(** The SourceKey set [index_course] loads for a namespace. *)
Definition stored_keys (st : Store) (ns : string) : gset meta_val :=
  match chroma_db st !! ns with
  | Some docs => existing_keys_of docs
  | None => ∅
  end.

(** The documents of a namespace's vector store, none when it is absent. *)
Definition ns_docs (st : Store) (ns : string) : list Document :=
  default [] (chroma_db st !! ns).

Definition ns_chunks (st : Store) (ns : string) : list string :=
  match bm25_db st !! ns with Some p => pkg_chunks p | None => [] end.

Definition ns_metas (st : Store) (ns : string) : list (gmap string meta_val) :=
  match bm25_db st !! ns with Some p => pkg_metas p | None => [] end.

Definition ns_tokens (st : Store) (ns : string) : list (list string) :=
  match bm25_db st !! ns with Some p => pkg_tokens p | None => [] end.

Definition mk_doc (text : string) (m : gmap string meta_val) : Document :=
  {| page_content := text; metadata := m |}.

(** The two stores of a namespace hold the same chunks in the same order,
    and position [i] carries [chunk_id] [i]. *)
Definition aligned (st : Store) (ns : string) : Prop :=
  ns_docs st ns = zip_with mk_doc (ns_chunks st ns) (ns_metas st ns)
  /\ length (ns_chunks st ns) = length (ns_metas st ns)
  /\ length (ns_tokens st ns) = length (ns_chunks st ns)
  /\ forall i m, ns_metas st ns !! i = Some m ->
                 m !! "chunk_id" = Some (MInt (Z.of_nat i)).

(** The states the stores can be in: nothing indexed yet; after a run of
    [index_course] that returned, whatever the files held at that time;
    after a search attached a namespace that had no collection, which
    [Chroma(persist_directory=...)] creates empty. A run that raised has
    written nothing and adds no state. *)
Inductive reachable : Store -> Prop :=
| reach_empty : reachable empty_store
| reach_index fs sha256 st recs st' :
    reachable st ->
    index_course fs sha256 st recs = Ok st' ->
    reachable st'
| reach_attach st ns :
    reachable st ->
    chroma_db st !! ns = None ->
    reachable {| chroma_db := <[ns := []]> (chroma_db st);
                 bm25_db := bm25_db st |}.

(** Modelled on the specification's wording, for comparison with
    [stored_keys]: the SourceKey set read from the Lexical Index Store's
    stored metadata, empty when the namespace has no such store. *)
Definition lexical_source_keys (st : Store) (ns : string) : gset meta_val :=
  match bm25_db st !! ns with
  | Some p => list_to_set (map meta_source_key (pkg_metas p))
  | None => ∅
  end.

(** ** Hybrid search *)

(** An element of the [courses] argument: a course name, or a list of
    course names as the web front end stores it. *)
Inductive course_arg : Type :=
| CStr (s : string)
| CList (l : list string).

(** [course[0]] *)
Definition first_item (c : course_arg) : result string :=
  match c with
  | CStr EmptyString => Raise IndexError
  | CStr (String ch _) => Ok (String ch "")
  | CList [] => Raise IndexError
  | CList (x :: _) => Ok x
  end.

(** [int(v)] on a metadata value. [index_course] only writes integers
    under ["chunk_id"] and ["__header_len"]; a string there is taken not
    to be a numeral. *)
Definition py_int (v : meta_val) : result Z :=
  match v with
  | MInt z => Ok z
  | MStr _ => Raise ValueError
  end.

(** [l[i]] *)
Definition py_nth {A : Type} (l : list A) (i : Z) : result A :=
  let j := if (i <? 0)%Z then (Z.of_nat (length l) + i)%Z else i in
  if (j <? 0)%Z then Raise IndexError
  else match l !! Z.to_nat j with
       | Some x => Ok x
       | None => Raise IndexError
       end.

(** The constant [1e-9]. *)
Definition EPS : Q := 1 # 1000000000.

(** [xs.min()] and [xs.max()] of a non-empty array. *)
Definition q_min (xs : list Q) : Q :=
  match xs with
  | [] => 0%Q
  | x :: r => fold_left (fun a b => if Qle_bool b a then b else a) r x
  end.

Definition q_max (xs : list Q) : Q :=
  match xs with
  | [] => 0%Q
  | x :: r => fold_left (fun a b => if Qle_bool a b then b else a) r x
  end.

(** [np.ptp(xs)] *)
Definition ptp (xs : list Q) : Q := (q_max xs - q_min xs)%Q.

(** [(xs - xs.min()) / (np.ptp(xs) + 1e-9)] *)
Definition minmax_norm (xs : list Q) : list Q :=
  map (fun s => ((s - q_min xs) / (ptp xs + EPS))%Q) xs.

(** A stable insertion sort, the common shape of the two sorts of the
    search: [x] is placed after every element [y] with [le y x]. *)
Fixpoint insert_by {A : Type} (le : A -> A -> bool) (x : A) (l : list A)
  : list A :=
  match l with
  | [] => [x]
  | y :: r => if le y x then y :: insert_by le x r else x :: l
  end.

Definition sort_by {A : Type} (le : A -> A -> bool) (l : list A) : list A :=
  fold_left (fun acc x => insert_by le x acc) l [].

(** [np.argsort(xs)]: the indices in ascending order of value. numpy
    leaves the order of equal values open; here equal values keep their
    index order. *)
Definition argsort (xs : list Q) : list nat :=
  sort_by (fun j i => Qle_bool (nth j xs 0%Q) (nth i xs 0%Q))
          (seq 0 (length xs)).

(** The key of the [fused] dictionary: [(course_slug, chunk_id)]. *)
Definition fused_key : Type := (string * Z)%type.

(** [fused[key] = fused.get(key, 0.0) + x] on the insertion-ordered
    dictionary. *)
Fixpoint fused_add (fused : list (fused_key * Q)) (key : fused_key) (x : Q)
  : list (fused_key * Q) :=
  match fused with
  | [] => [(key, (0 + x)%Q)]
  | (k, v) :: r =>
      if decide (k = key) then (k, (v + x)%Q) :: r
      else (k, v) :: fused_add r key x
  end.

Definition fused_add_all (fused : list (fused_key * Q))
    (contribs : list (fused_key * Q)) : list (fused_key * Q) :=
  fold_left (fun f kx => fused_add f (fst kx) (snd kx)) contribs fused.

(** [fused.get(key)] *)
Fixpoint fused_get (fused : list (fused_key * Q)) (key : fused_key)
  : option Q :=
  match fused with
  | [] => None
  | (k, v) :: r => if decide (k = key) then Some v else fused_get r key
  end.

(** [sorted(items, key=lambda kv: kv[1], reverse=True)]: descending by
    score, equal scores in their original order. *)
Definition sorted_desc (items : list (fused_key * Q)) : list (fused_key * Q) :=
  sort_by (fun y x => Qle_bool (snd x) (snd y)) items.

(** One element of the list [hybrid_search] returns. *)
Record SearchResult : Type := {
  res_text : string;
  res_meta : gmap string meta_val;
  res_score : Q;
  res_preview : string }.

(** What the loop over [courses] carries from one course to the next. *)
Record SearchState : Type := {
  fused : list (fused_key * Q);
  bm25_pkgs : gmap string Bm25Pkg;
  vector_stores : gmap string (list Document) }.

Definition search_init : SearchState :=
  {| fused := []; bm25_pkgs := ∅; vector_stores := ∅ |}.

(** [meta.setdefault(key, v)] *)
Definition setdefault (key : string) (v : meta_val) (m : gmap string meta_val)
  : gmap string meta_val :=
  match m !! key with
  | Some _ => m
  | None => <[key := v]> m
  end.

(** The preview of a chunk: the body after the header, cut at 400
    characters. *)
Definition preview_of (text : string) (hdr_len : Z) : string :=
  if (hdr_len <? Z.of_nat (String.length text))%Z
  then py_slice text hdr_len (hdr_len + 400) +:+ "..."
  else py_slice text 0 400 +:+ "...".

Section Search.
(** [BM25Okapi(corpus).get_scores(tokens)] of [rank_bm25]. *)
Variable bm25_get_scores : list (list string) -> list string -> list Q.
(** [similarity_search_with_relevance_scores(query, k)] on a collection
    with the given documents; [Raise] when the embedding provider or the
    collection fails. *)
Variable similarity_search :
  list Document -> string -> Z -> result (list (Document * Q)).
(** Whether [Chroma(persist_directory=...)] raises for a slug. *)
Variable chroma_unavailable : string -> bool.

Variable st : Store.
Variable query : string.
Variables k_final k_bm25 k_embed : Z.
Variables w_bm25 w_emb : Q.

(** The "BM25 per course" block: the entries it adds to [fused], in
    the order of [top_idx]. *)
Definition lexical_hits (cslug : string) (pkg : Bm25Pkg)
  : list (fused_key * Q) :=
  let tokens := tokenize query in
  let bm_scores := bm25_get_scores (pkg_tokens pkg) tokens in
  match bm_scores with
  | [] => []
  | _ =>
      let bm_norm := minmax_norm bm_scores in
      let top_idx := py_take k_bm25 (rev (argsort bm_norm)) in
      map (fun i => ((cslug, Z.of_nat i), (w_bm25 * nth i bm_norm 0)%Q)) top_idx
  end.

(** The [for (doc, _), sc in zip(hits, emb_norm)] loop: the entries it
    adds to [fused]. *)
Fixpoint vector_entries (cslug : string)
    (pairs : list ((Document * Q) * Q)) : result (list (fused_key * Q)) :=
  match pairs with
  | [] => Ok []
  | ((doc, _), sc) :: rest =>
      chunk_id ← py_int (default (MInt (-1)) (metadata doc !! "chunk_id"));
      more ← vector_entries cslug rest;
      Ok (if (0 <=? chunk_id)%Z
          then ((cslug, chunk_id), (w_emb * sc)%Q) :: more
          else more)
  end.

(** The "Vector per course" block after the query returned [hits]. *)
Definition vector_hits (cslug : string) (hits : list (Document * Q))
  : result (list (fused_key * Q)) :=
  match hits with
  | [] => Ok []
  | _ =>
      let emb_scores := map snd hits in
      let emb_norm := minmax_norm emb_scores in
      vector_entries cslug (zip hits emb_norm)
  end.

(** The body of [for course in courses] once [course = course[0]] has
    given the course name. *)
Definition search_namespace (acc : SearchState) (course : string)
  : result SearchState :=
  let cslug := slug course in
  let vs :=
    if chroma_unavailable cslug then None else Some (ns_docs st cslug) in
  let pkg := bm25_db st !! cslug in
  let fused1 :=
    match pkg with
    | Some p => fused_add_all (fused acc) (lexical_hits cslug p)
    | None => fused acc
    end in
  fused2 ←
    match vs with
    | Some docs =>
        hits ← similarity_search docs query k_embed;
        entries ← vector_hits cslug hits;
        Ok (fused_add_all fused1 entries)
    | None => Ok fused1
    end;
  Ok {| fused := fused2;
        bm25_pkgs :=
          match pkg with
          | Some p => <[cslug := p]> (bm25_pkgs acc)
          | None => bm25_pkgs acc
          end;
        vector_stores :=
          match vs with
          | Some docs => <[cslug := docs]> (vector_stores acc)
          | None => vector_stores acc
          end |}.

Definition search_course (acc : SearchState) (course : course_arg)
  : result SearchState :=
  name ← first_item course;
  search_namespace acc name.

(** The loop over [courses]. *)
Fixpoint search_loop (acc : SearchState) (courses : list course_arg)
  : result SearchState :=
  match courses with
  | [] => Ok acc
  | c :: rest =>
      acc' ← search_course acc c;
      search_loop acc' rest
  end.

(** The text and metadata of one ranked entry; [None] when the entry
    cannot be assembled and is skipped. *)
Definition resolve (acc : SearchState) (cslug : string) (idx : Z)
  : result (option (string * gmap string meta_val)) :=
  match bm25_pkgs acc !! cslug with
  | None =>
      match vector_stores acc !! cslug with
      | Some docs =>
          hits ← similarity_search docs query 1;
          match hits with
          | (doc, _) :: _ => Ok (Some (page_content doc, metadata doc))
          | [] => Raise IndexError
          end
      | None => Ok None
      end
  | Some pkg =>
      text ← py_nth (pkg_chunks pkg) idx;
      meta ← py_nth (pkg_metas pkg) idx;
      Ok (Some (text, meta))
  end.

(** The "Assemble results" loop. *)
Fixpoint assemble (acc : SearchState) (best : list (fused_key * Q))
  : result (list SearchResult) :=
  match best with
  | [] => Ok []
  | ((cslug, idx), score) :: rest =>
      item ← resolve acc cslug idx;
      match item with
      | None => assemble acc rest
      | Some (text, meta) =>
          let meta := setdefault "course" (MStr cslug) meta in
          hdr_len ← py_int (default (MInt 0) (meta !! "__header_len"));
          more ← assemble acc rest;
          Ok ({| res_text := text; res_meta := meta; res_score := score;
                 res_preview := preview_of text hdr_len |} :: more)
      end
  end.

(** [hybrid_search(query, courses, k_final, k_bm25, k_embed, w_bm25,
    w_emb)] *)
Definition hybrid_search (courses : list course_arg)
  : result (list SearchResult) :=
  acc ← search_loop search_init courses;
  match fused acc with
  | [] => Ok []
  | _ => assemble acc (py_take k_final (sorted_desc (fused acc)))
  end.
End Search.

(** What one record adds to [new_chunks] when its file is read, as a
    function of the key set: nothing for a stored key, otherwise its
    header-prefixed windows in order. *)
Definition doc_chunks (fs : string -> option string) (sha256 : string -> string)
    (keys : gset meta_val) (r : TxtRecord) : list Document :=
  match fs (file_path r) with
  | Some raw_text =>
      let source_key := source_key_of sha256 r raw_text in
      if bool_decide (MStr source_key ∈ keys) then []
      else
        match chunk_text_fixed raw_text CHUNK_SIZE CHUNK_OVERLAP with
        | Ok body_chunks => record_chunks r source_key body_chunks
        | Raise _ => []
        end
  | None => []
  end.

(** ** Sample inputs *)

(** Two readable files; every other path is missing. *)
Definition demo_fs (path : string) : option string :=
  if String.eqb path "notes/a.txt" then Some "hello world"
  else if String.eqb path "notes/b.txt" then Some "second file"
  else None.

(** A stand-in digest for the samples; no property below depends on the
    digest function. *)
Definition demo_sha256 (text : string) : string := "sha256:" +:+ text.

Definition rec_a : TxtRecord :=
  {| file_name := "a.txt"; date := "2025-01-01"; course := "Math 101";
     module := "Week 1"; file_path := "notes/a.txt" |}.

Definition rec_b : TxtRecord :=
  {| file_name := "b.txt"; date := "2025-01-02"; course := "Math 101";
     module := "Week 1"; file_path := "notes/b.txt" |}.

Definition rec_missing : TxtRecord :=
  {| file_name := "c.txt"; date := "2025-01-03"; course := "Math 101";
     module := "Week 2"; file_path := "notes/missing.txt" |}.

(** The stores after [rec_a] was indexed into a fresh namespace. *)
Definition store_after_a : Store :=
  match index_course demo_fs demo_sha256 empty_store [rec_a] with
  | Ok st => st
  | Raise _ => empty_store
  end.

(** The vector store is ahead of the lexical store: the collection of
    [store_after_a] was written, the pickle was not. *)
Definition store_vector_only : Store :=
  {| chroma_db := chroma_db store_after_a; bm25_db := ∅ |}.

(** The lexical store is there and the collection directory is not. *)
Definition store_lexical_only : Store :=
  {| chroma_db := ∅;
     bm25_db :=
       {[ "math_101" :=
            {| pkg_tokens := [["old"; "one"]; ["old"; "two"]];
               pkg_chunks := ["old one"; "old two"];
               pkg_metas := [ {[ "chunk_id" := MInt 0 ]};
                              {[ "chunk_id" := MInt 1 ]} ] |} ]} |}.

(** The score of [key] in [fused], 0 when it has no entry. *)
Definition score_of (fused : list (fused_key * Q)) (key : fused_key) : Q :=
  default 0%Q (fused_get fused key).

(** The sum, starting from [s], of the values [val a] of the elements of
    [l] that satisfy [P], added in list order. *)
Definition sum_where {A : Type} (P : A -> bool) (val : A -> Q) (l : list A)
    (s : Q) : Q :=
  fold_left (fun s a => if P a then (s + val a)%Q else s) l s.

(** What [contribs] adds up to for [key]. *)
Definition contrib_total (key : fused_key) (contribs : list (fused_key * Q))
    (s : Q) : Q :=
  sum_where (fun kx => bool_decide (fst kx = key)) snd contribs s.

(** Modelled on the specification's wording, for comparison with
    [lexical_hits]: take the top [k_bm25] chunks by raw score first, then
    min-max normalize within that set only. *)
Definition spec_lexical_hits
    (bm25_get_scores : list (list string) -> list string -> list Q)
    (query : string) (k_bm25 : Z) (w_bm25 : Q) (cslug : string) (pkg : Bm25Pkg)
  : list (fused_key * Q) :=
  let bm_scores := bm25_get_scores (pkg_tokens pkg) (tokenize query) in
  let top_idx := py_take k_bm25 (rev (argsort bm_scores)) in
  let top_norm := minmax_norm (map (fun i => nth i bm_scores 0%Q) top_idx) in
  zip_with (fun i n => ((cslug, Z.of_nat i), (w_bm25 * n)%Q)) top_idx top_norm.

(** *** Sample stores and providers for the search *)

(** A term-count score standing in for BM25: how many tokens of the chunk
    are query tokens. *)
Definition demo_bm25 (corpus : list (list string)) (tokens : list string)
  : list Q :=
  map (fun doc =>
         inject_Z (Z.of_nat (length (filter (fun t => bool_decide (t ∈ tokens)) doc))))
      corpus.

(** A vector store that answers with its first [k] documents and scores
    them by position. *)
Definition demo_similarity (docs : list Document) (query : string) (k : Z)
  : result (list (Document * Q)) :=
  Ok (py_take k (imap (fun i d => (d, inject_Z (Z.of_nat i))) docs)).

(** A vector store whose query fails, as when the embedding provider
    cannot be reached. *)
Definition failing_similarity (docs : list Document) (query : string) (k : Z)
  : result (list (Document * Q)) :=
  Raise ProviderError.

Definition chroma_ok (cslug : string) : bool := false.
Definition chroma_down (cslug : string) : bool := true.

(** The stores after [rec_a] and [rec_b] were indexed in one batch. *)
Definition store_after_ab : Store :=
  match index_course demo_fs demo_sha256 empty_store [rec_a; rec_b] with
  | Ok st => st
  | Raise _ => empty_store
  end.

(** A namespace with three chunks whose term counts for the query ["q"]
    are 0, 1 and 3. *)
Definition pkg_three : Bm25Pkg :=
  {| pkg_tokens := [["x"]; ["q"; "x"]; ["q"; "q"; "q"]];
     pkg_chunks := ["x"; "q x"; "q q q"];
     pkg_metas := [ {[ "chunk_id" := MInt 0 ]};
                    {[ "chunk_id" := MInt 1 ]};
                    {[ "chunk_id" := MInt 2 ]} ] |}.

Definition store_three : Store :=
  {| chroma_db := ∅; bm25_db := {[ "physics" := pkg_three ]} |}.

(** ** Notions used by the further properties *)

(** The shape [re.sub] leaves behind: slug characters and single
    underscores; after an underscore ([prev] is [true]) no second one. *)
Fixpoint separated (prev : bool) (l : list ascii) : bool :=
  match l with
  | [] => true
  | c :: r =>
      if is_slug_char c then separated false r
      else Ascii.eqb c "_" && negb prev && separated true r
  end.

(** The characters of [slug s] before packing into a string. *)
Definition slug_chars (s : string) : list ascii :=
  strip_underscore (sub_runs false (list_ascii_of_string (lower s))).

(** Putting the text back together from its chunks: the first [step]
    characters of every chunk but the last, then the last chunk whole. *)
Fixpoint unchunk (step : nat) (chunks : list string) : string :=
  match chunks with
  | [] => ""
  | [c] => c
  | c :: rest => substring 0 step c +:+ unchunk step rest
  end.

(** The groups [index_all_txt_records] builds from a batch. *)
Definition by_course (records : list TxtRecord)
  : list (string * list TxtRecord) :=
  fold_left group_add records [].

(** The records of a batch that name the course [c], in batch order. *)
Definition records_of (c : string) (records : list TxtRecord)
  : list TxtRecord :=
  filter (fun r => course r = c) records.

(** The distinct values of a list in the order of their first
    occurrence. *)
Fixpoint first_seen (seen l : list string) : list string :=
  match l with
  | [] => []
  | c :: rest =>
      if bool_decide (c ∈ seen) then first_seen seen rest
      else c :: first_seen (c :: seen) rest
  end.

(** The shape of chunk number [i] of a namespace as [index_course] writes
    it: a record's header before a non-empty body window, and that
    record's metadata with the header length and the chunk id [i]. *)
Definition indexed_doc (i : nat) (d : Document) : Prop :=
  exists r key body,
    body <> ""
    /\ d = {| page_content := build_header r +:+ body;
              metadata :=
                <["chunk_id" := MInt (Z.of_nat i)]>
                  (<["__header_len" :=
                       MInt (Z.of_nat (String.length (build_header r)))]>
                     (base_meta r key)) |}.
(** The keys of the search's pool all name a chunk of a lexical store the
    search has loaded. *)
Definition pool_ok (st : Store) (acc : SearchState) : Prop :=
  forall key, key ∈ (fused acc).*1 ->
    exists p (i : nat),
      bm25_db st !! key.1 = Some p
      /\ bm25_pkgs acc !! key.1 = Some p
      /\ key.2 = Z.of_nat i
      /\ (i < length (pkg_chunks p))%nat.

(** The search result [res] is what the pool entry [kv] names: chunk
    [i] of the entry's namespace in both stores of [st], a record's
    header before a non-empty body window, with the entry's score and
    the preview of the body window. *)
Definition result_of_entry (st : Store) (kv : fused_key * Q)
    (res : SearchResult) : Prop :=
  res_score res = kv.2
  /\ exists (i : nat) r key body,
       kv.1.2 = Z.of_nat i
       /\ ns_chunks st kv.1.1 !! i = Some (res_text res)
       /\ ns_metas st kv.1.1 !! i = Some (res_meta res)
       /\ ns_docs st kv.1.1 !! i = Some (mk_doc (res_text res) (res_meta res))
       /\ res_meta res !! "chunk_id" = Some (MInt (Z.of_nat i))
       /\ res_meta res !! "source_key" = Some (MStr key)
       /\ res_meta res !! "course" = Some (MStr (course r))
       /\ res_text res = build_header r +:+ body
       /\ body <> ""
       /\ res_preview res = substring 0 400 body +:+ "...".

(* ===================================================================== *)
(** * Part II: properties                                                 *)
(* ===================================================================== *)

(** ** Strings *)

Lemma length_substring (s : string) (n m : nat) :
  String.length (substring n m s) = Nat.min m (String.length s - n).
Proof.
  revert n m; induction s as [|c s IH]; intros [|n] [|m];
    cbn [substring String.length]; rewrite ?IH; lia.
Qed.

Lemma length_str_slice (s : string) (i j : nat) :
  i <= j -> j <= String.length s -> String.length (str_slice s i j) = j - i.
Proof. intros Hij Hj. unfold str_slice. rewrite length_substring. lia. Qed.

Lemma get_str_slice (s : string) (i j p : nat) :
  i <= p -> p < j -> String.get (p - i) (str_slice s i j) = String.get p s.
Proof.
  intros Hip Hpj. unfold str_slice.
  rewrite substring_correct1 by lia. f_equal. lia.
Qed.

(** ** Chunker *)

Section ChunkLoopFacts.
Variable text : string.
Variables size step : nat.
Hypothesis step_pos : 0 < step.
Hypothesis step_le_size : step <= size.

Let L := String.length text.

Lemma chunk_loop_step (i : nat) :
  chunk_loop text size step step_pos i =
    if lt_dec i L then
      if Nat.eq_dec (Nat.min (i + size) L) L
      then [str_slice text i (Nat.min (i + size) L)]
      else str_slice text i (Nat.min (i + size) L)
             :: chunk_loop text size step step_pos (i + step)
    else [].
Proof.
  subst L. rewrite chunk_loop_unfold_eq at 1. unfold chunk_loop_unfold.
  destruct (lt_dec i (String.length text)); simpl; [|reflexivity].
  destruct (Nat.eq_dec _ _); reflexivity.
Qed.

(** The loop started at [i] emits [k] windows at stride [step]; all but
    the last stop short of the end, the last one reaches it. *)
Lemma chunk_loop_windows (m : nat) :
  forall i, L - i <= m ->
  exists k,
    chunk_loop text size step step_pos i =
      map (fun t => str_slice text (i + t * step)
                      (Nat.min (i + t * step + size) L)) (seq 0 k)
    /\ (L <= i -> k = 0)
    /\ (i < L -> 0 < k /\ L <= i + (k - 1) * step + size)
    /\ (forall t, t < k - 1 -> i + t * step + size < L).
Proof.
  induction m as [|m IH]; intros i Hm; rewrite chunk_loop_step.
  - destruct (lt_dec i L) as [Hlt|Hge]; [lia|].
    exists 0. repeat split; intros; lia.
  - destruct (lt_dec i L) as [Hlt|Hge].
    + destruct (Nat.eq_dec (Nat.min (i + size) L) L) as [Hend|Hmore].
      * exists 1. simpl. rewrite Nat.add_0_r.
        repeat split; intros; lia.
      * destruct (IH (i + step)) as (k & Hk & Hnone & Hsome & Hfull); [lia|].
        exists (S k). rewrite Hk. cbn [seq map].
        rewrite Nat.mul_0_l, Nat.add_0_r, <- seq_shift, map_map.
        split.
        { f_equal. apply map_ext. intros t.
          replace (i + S t * step) with (i + step + t * step) by lia.
          reflexivity. }
        split; [lia|]. split.
        { intros _. split; [lia|].
          destruct (le_lt_dec L (i + step)) as [Hpast|Hin].
          - (* a stride longer than the window would leave a gap here *)
            pose proof step_le_size. rewrite (Hnone Hpast). simpl. lia.
          - destruct (Hsome Hin) as [Hkpos Hreach].
            replace (S k - 1) with (S (k - 1)) by lia. lia. }
        { intros [|t] Ht; [lia|].
          specialize (Hfull t). 
          replace (i + S t * step) with (i + step + t * step) by lia.
          apply Hfull. lia. }
    + exists 0. repeat split; intros; lia.
Qed.
End ChunkLoopFacts.

(** C3. For [0 <= overlap < size], [chunk_text_fixed] returns the windows
    [i * (size - overlap) .. min (i * (size - overlap) + size) L] for
    [i = 0 .. k-1]: none for the empty text; otherwise the last window ends
    exactly at [L] and the earlier ones stop before it; every window is the
    non-empty slice of the text between its bounds (so at most [size] long
    and never padded), and every position of the text lies in a window that
    holds its character. *)
Theorem chunk_text_fixed_windows (text : string) (size overlap : Z) :
  (0 <= overlap < size)%Z ->
  let L := String.length text in
  let sz := Z.to_nat size in
  let step := Z.to_nat (size - overlap) in
  exists k,
    chunk_text_fixed text size overlap = Ok (map (window text sz step) (seq 0 k))
    /\ (L = 0 -> k = 0)
    /\ (0 < L -> 0 < k /\ Nat.min ((k - 1) * step + sz) L = L)
    /\ (forall i, i < k - 1 -> i * step + sz < L)
    /\ (forall i, i < k ->
          i * step < L
          /\ String.length (window text sz step i)
             = Nat.min (i * step + sz) L - i * step
          /\ 0 < String.length (window text sz step i) <= sz)
    /\ (forall p, p < L ->
          exists i, i < k
            /\ i * step <= p < Nat.min (i * step + sz) L
            /\ String.get (p - i * step) (window text sz step i)
               = String.get p text).
Proof.
  intros [Hlo Hhi] L sz step.
  assert (Hstep : 0 < step) by (subst step; lia).
  assert (Hle : step <= sz) by (subst step sz; lia).
  unfold chunk_text_fixed.
  destruct (Z_le_dec 0 overlap) as [_|?]; [|lia].
  destruct (Z_lt_dec overlap size) as [Hlt|?]; [|lia].
  destruct (chunk_loop_windows text sz step (stride_positive size overlap Hlt)
              Hle (String.length text) 0 ltac:(lia))
    as (k & Hk & Hnone & Hsome & Hfull).
  fold L in Hnone, Hsome, Hfull, Hk.
  simpl in Hsome, Hfull.
  exists k. split; [fold sz step; rewrite Hk; reflexivity|].
  assert (Hstart : forall i, i < k -> i * step < L).
  { intros i Hi. destruct (Nat.eq_dec i 0) as [->|Hnz].
    - destruct (le_lt_dec L 0) as [H0|H0]; [specialize (Hnone H0); lia|lia].
    - specialize (Hfull (i - 1) ltac:(lia)).
      replace (i * step) with ((i - 1) * step + step) by nia. lia. }
  split; [intros H0; apply Hnone; lia|].
  split; [intros Hpos; destruct (Hsome Hpos); split; [assumption|lia]|].
  split; [exact Hfull|].
  split.
  - intros i Hi. specialize (Hstart i Hi).
    assert (Hlen : String.length (window text sz step i)
                   = Nat.min (i * step + sz) L - i * step).
    { unfold window. apply length_str_slice; fold L; lia. }
    rewrite Hlen. repeat split; lia.
  - intros p Hp.
    destruct (Hsome ltac:(lia)) as [Hkpos Hreach].
    (* the window holding [p] is number [min (p / step) (k - 1)] *)
    set (i := Nat.min (p / step) (k - 1)).
    assert (Hdiv : (p / step) * step <= p < (p / step) * step + step).
    { pose proof (Nat.div_mod_eq p step) as Hdm.
      pose proof (Nat.mod_upper_bound p step ltac:(lia)). nia. }
    assert (Hi : i < k) by (subst i; lia).
    assert (Hlow : i * step <= p).
    { subst i. destruct (Nat.min_spec (p / step) (k - 1)) as [[_ ->]|[Hq ->]];
        [lia|nia]. }
    assert (Hhigh : p < Nat.min (i * step + sz) L).
    { subst i. destruct (Nat.min_spec (p / step) (k - 1)) as [[Hq ->]|[Hq ->]].
      - specialize (Hfull (p / step) Hq). lia.
      - lia. }
    exists i. repeat split; try assumption.
    unfold window. apply get_str_slice; assumption.
Qed.

(** The window formula at an eleven-character text, size 4, overlap 1. *)
Lemma chunk_text_fixed_windows_witness :
  exists k,
    chunk_text_fixed "abcdefghijk" 4 1
      = Ok (map (window "abcdefghijk" 4 3) (seq 0 k)).
Proof.
  destruct (chunk_text_fixed_windows "abcdefghijk" 4 1 ltac:(lia))
    as (k & Hk & _).
  exists k. exact Hk.
Defined.

(** ** Sequencing *)

Lemma bind_Ok {A B : Type} (a : A) (k : A -> result B) : Ok a ≫= k = k a.
Proof. reflexivity. Qed.

Lemma bind_Raise {A B : Type} (e : exn) (k : A -> result B) :
  Raise e ≫= k = Raise e.
Proof. reflexivity. Qed.

Ltac step_bind := rewrite ?bind_Ok, ?bind_Raise.
Ltac step_bind_in H := rewrite ?bind_Ok, ?bind_Raise in H.

(** ** Indexer *)

(** The value [chunk_text_fixed] returns once its [assert] holds: the
    windows numbered [0 .. k-1], where [k] is the first count whose last
    window reaches the end of the text. *)
Lemma chunk_text_fixed_count (text : string) (size overlap : Z) :
  (0 <= overlap < size)%Z ->
  exists k,
    chunk_text_fixed text size overlap
    = Ok (map (window text (Z.to_nat size) (Z.to_nat (size - overlap))) (seq 0 k))
    /\ (String.length text = 0 -> k = 0)
    /\ (0 < String.length text ->
        0 < k
        /\ String.length text
           <= (k - 1) * Z.to_nat (size - overlap) + Z.to_nat size)
    /\ (forall t, t < k - 1 ->
          t * Z.to_nat (size - overlap) + Z.to_nat size < String.length text).
Proof.
  intros [Hlo Hhi]. unfold chunk_text_fixed.
  destruct (Z_le_dec 0 overlap) as [_|?]; [|lia].
  destruct (Z_lt_dec overlap size) as [Hlt|?]; [|lia].
  destruct (chunk_loop_windows text (Z.to_nat size) (Z.to_nat (size - overlap))
              (stride_positive size overlap Hlt) ltac:(lia)
              (String.length text) 0 ltac:(lia))
    as (k & Hk & Hnone & Hsome & Hfull).
  exists k. split; [rewrite Hk; reflexivity|].
  split; [intros H0; apply Hnone; lia|]. split; [exact Hsome|exact Hfull].
Qed.

Lemma chunk_text_fixed_default (text : string) :
  exists body, chunk_text_fixed text CHUNK_SIZE CHUNK_OVERLAP = Ok body
               /\ (body = [] <-> text = "").
Proof.
  destruct (chunk_text_fixed_count text CHUNK_SIZE CHUNK_OVERLAP)
    as (k & Hk & Hzero & Hpos & _); [unfold CHUNK_SIZE, CHUNK_OVERLAP; lia|].
  eexists; split; [exact Hk|]. split.
  - intros Hnil. destruct text as [|c text]; [reflexivity|].
    destruct Hpos as [Hkpos _]; [simpl; lia|].
    destruct k; [lia|discriminate].
  - intros ->. rewrite Hzero by reflexivity. reflexivity.
Qed.

Lemma assign_chunk_ids_length start new :
  length (assign_chunk_ids start new) = length new.
Proof. unfold assign_chunk_ids. apply length_imap. Qed.

Lemma assign_chunk_ids_lookup start new i d :
  new !! i = Some d ->
  assign_chunk_ids start new !! i
  = Some {| page_content := page_content d;
            metadata := <["chunk_id" := MInt (Z.of_nat (start + i))]> (metadata d) |}.
Proof. intros H. unfold assign_chunk_ids. rewrite list_lookup_imap, H. reflexivity. Qed.

Lemma assign_chunk_ids_nil_iff start new :
  assign_chunk_ids start new = [] <-> new = [].
Proof.
  split; [|intros ->; reflexivity].
  intros H. apply (f_equal length) in H. rewrite assign_chunk_ids_length in H.
  destruct new; [reflexivity|discriminate].
Qed.

Lemma assign_chunk_ids_keys start new :
  existing_keys_of (assign_chunk_ids start new) = existing_keys_of new.
Proof.
  unfold existing_keys_of, assign_chunk_ids. f_equal.
  revert start. induction new as [|d new IH]; intros start; [reflexivity|].
  cbn [imap map]. f_equal.
  - unfold meta_source_key. cbn [metadata].
    rewrite lookup_insert_ne by discriminate. reflexivity.
  - rewrite <- (IH (S start)). unfold compose. f_equal.
    apply imap_ext. intros i x _. cbn. do 3 f_equal. lia.
Qed.

Lemma existing_keys_of_app l1 l2 :
  existing_keys_of (l1 ++ l2) = existing_keys_of l1 ∪ existing_keys_of l2.
Proof. unfold existing_keys_of. rewrite map_app. apply list_to_set_app_L. Qed.

Section IndexerFacts.
Variable fs : string -> option string.
Variable sha256 : string -> string.

Abbreviation collect := (collect_new_chunks fs sha256).
Abbreviation index := (index_course fs sha256).

Lemma record_chunks_keys r key body :
  body <> [] -> existing_keys_of (record_chunks r key body) = {[ MStr key ]}.
Proof.
  intros Hne. unfold existing_keys_of, record_chunks. rewrite map_map.
  rewrite (map_ext _ (fun _ => MStr key)).
  - induction body as [|b [|b' body] IH]; [congruence|set_solver|].
    cbn [map] in IH |- *. rewrite list_to_set_cons, IH by discriminate.
    set_solver.
  - intros b. unfold meta_source_key, base_meta. cbn [metadata].
    rewrite lookup_insert_ne by discriminate.
    rewrite lookup_insert_eq. reflexivity.
Qed.

(** The only exception [index_course] can leave with is the one
    [read_text] raises. *)
Lemma collect_raise keys recs e :
  collect keys recs = Raise e -> e = FileNotFoundError.
Proof.
  induction recs as [|r recs IH]; cbn [collect_new_chunks]; [discriminate|].
  unfold read_text. destruct (fs (file_path r)) as [raw|]; step_bind.
  - case_bool_decide; [exact IH|].
    destruct (chunk_text_fixed_default raw) as (body & -> & _). step_bind.
    destruct (collect keys recs) as [more|e'] eqn:Hrest; step_bind;
      [discriminate|]. intros [= <-]. apply IH. reflexivity.
  - intros [= <-]. reflexivity.
Qed.

Lemma collect_unreadable keys recs :
  (exists r, r ∈ recs /\ fs (file_path r) = None) ->
  collect keys recs = Raise FileNotFoundError.
Proof.
  intros (r & Hin & Hnone).
  destruct (collect keys recs) as [new|e] eqn:Hc;
    [|f_equal; eapply collect_raise; eassumption].
  exfalso. revert new Hc.
  induction recs as [|r' recs IH]; intros new; [inversion Hin|].
  cbn [collect_new_chunks]. unfold read_text.
  apply elem_of_cons in Hin as [<-|Hin].
  - rewrite Hnone. discriminate.
  - destruct (fs (file_path r')) as [raw|]; step_bind; [|discriminate].
    case_bool_decide; [apply IH; assumption|].
    destruct (chunk_text_fixed _ _ _); step_bind; [|discriminate].
    destruct (collect keys recs) as [more|]; step_bind; [|discriminate].
    intros _. eapply IH; [assumption|reflexivity].
Qed.

(** A document whose key is stored can be taken out of the batch without
    changing what the loop collects. *)
Lemma collect_skip keys pre r post raw :
  fs (file_path r) = Some raw ->
  MStr (source_key_of sha256 r raw) ∈ keys ->
  collect keys (pre ++ r :: post) = collect keys (pre ++ post).
Proof.
  intros Hraw Hin. induction pre as [|p pre IH]; cbn [app collect_new_chunks].
  - unfold read_text. rewrite Hraw. step_bind.
    rewrite bool_decide_eq_true_2 by assumption. reflexivity.
  - rewrite IH. reflexivity.
Qed.

(** Once the keys of everything a first pass collected are stored, a
    second pass over the same files collects nothing. *)
Lemma collect_again keys keys' recs new :
  collect keys recs = Ok new ->
  keys ⊆ keys' ->
  existing_keys_of new ⊆ keys' ->
  collect keys' recs = Ok [].
Proof.
  intros Hc Hsub. revert new Hc.
  induction recs as [|r recs IH]; intros new; cbn [collect_new_chunks];
    [reflexivity|].
  unfold read_text. destruct (fs (file_path r)) as [raw|]; step_bind;
    [|discriminate].
  case_bool_decide as Hold.
  - intros Hc Hnew. rewrite bool_decide_eq_true_2 by set_solver. eauto.
  - destruct (chunk_text_fixed raw CHUNK_SIZE CHUNK_OVERLAP) as [body|] eqn:Hb;
      step_bind; [|discriminate].
    destruct (collect keys recs) as [more|] eqn:Hmore; step_bind;
      [|discriminate].
    intros [= <-] Hnew. rewrite existing_keys_of_app in Hnew.
    case_bool_decide as Hnow; [apply (IH more); [reflexivity|set_solver]|].
    step_bind.
    destruct body as [|b body].
    + rewrite (IH more) by (reflexivity || set_solver). reflexivity.
    + exfalso. apply Hnow.
      rewrite record_chunks_keys in Hnew by discriminate. set_solver.
Qed.

(** What a returning run does to the stores. *)
Lemma index_course_inv st r0 rest st' :
  index st (r0 :: rest) = Ok st' ->
  exists new,
    collect (stored_keys st (slug (course r0))) (r0 :: rest) = Ok new
    /\ ((new = [] /\ st' = st)
        \/ (new <> []
            /\ chroma_db st'
               = <[slug (course r0) :=
                     ns_docs st (slug (course r0))
                     ++ assign_chunk_ids
                          (length (ns_docs st (slug (course r0)))) new]>
                   (chroma_db st)
            /\ bm25_db st'
               = <[slug (course r0) :=
                     {| pkg_tokens :=
                          ns_tokens st (slug (course r0))
                          ++ map (fun c => tokenize (page_content c))
                               (assign_chunk_ids
                                  (length (ns_docs st (slug (course r0)))) new);
                        pkg_chunks :=
                          ns_chunks st (slug (course r0))
                          ++ map page_content
                               (assign_chunk_ids
                                  (length (ns_docs st (slug (course r0)))) new);
                        pkg_metas :=
                          ns_metas st (slug (course r0))
                          ++ map metadata
                               (assign_chunk_ids
                                  (length (ns_docs st (slug (course r0)))) new) |}]>
                   (bm25_db st))).
Proof.
  unfold index_course, stored_keys, ns_docs, ns_tokens, ns_chunks, ns_metas.
  set (ns := slug (course r0)).
  destruct (collect _ (r0 :: rest)) as [new|e] eqn:Hc; step_bind;
    [|discriminate].
  intros H. exists new. split; [reflexivity|].
  destruct new as [|d new]; [left; split; congruence|].
  right. split; [discriminate|].
  destruct (chroma_db st !! ns) as [docs|], (bm25_db st !! ns) as [p|];
    cbn in H |- *; injection H as <-; split; reflexivity.
Qed.

Lemma stored_keys_docs st ns :
  stored_keys st ns = existing_keys_of (ns_docs st ns).
Proof.
  unfold stored_keys, ns_docs. destruct (chroma_db st !! ns); reflexivity.
Qed.

(** A run that collects nothing returns without writing. *)
Lemma index_course_noop st r0 rest :
  collect (stored_keys st (slug (course r0))) (r0 :: rest) = Ok [] ->
  index st (r0 :: rest) = Ok st.
Proof.
  intros Hc. unfold index_course. fold (stored_keys st (slug (course r0))).
  rewrite Hc. reflexivity.
Qed.

Lemma index_course_raise st recs e :
  index st recs = Raise e -> e = FileNotFoundError.
Proof.
  destruct recs as [|r0 rest]; [discriminate|].
  unfold index_course. fold (stored_keys st (slug (course r0))).
  destruct (collect _ (r0 :: rest)) as [new|e'] eqn:Hc; step_bind.
  - destruct new; [discriminate|].
    destruct (bm25_db st !! slug (course r0)); discriminate.
  - intros [= <-]. eapply collect_raise; eassumption.
Qed.

Lemma collect_unreadable_index st recs :
  (exists r, r ∈ recs /\ fs (file_path r) = None) ->
  index st recs = Raise FileNotFoundError.
Proof.
  intros Hbad. destruct recs as [|r0 rest].
  - destruct Hbad as (r & Hin & _). inversion Hin.
  - unfold index_course. fold (stored_keys st (slug (course r0))).
    rewrite (collect_unreadable _ _ Hbad). reflexivity.
Qed.

(** The loop collects the records' contributions in batch order. *)
Lemma collect_doc_chunks keys recs new :
  collect keys recs = Ok new ->
  new = mjoin (doc_chunks fs sha256 keys <$> recs).
Proof.
  revert new. induction recs as [|r recs IH]; intros new;
    cbn [collect_new_chunks fmap list_fmap mjoin list_join].
  - intros [= <-]. reflexivity.
  - unfold read_text, doc_chunks.
    destruct (fs (file_path r)) as [raw|]; step_bind; [|discriminate].
    case_bool_decide; [intros Hc; rewrite (IH new Hc); reflexivity|].
    destruct (chunk_text_fixed raw CHUNK_SIZE CHUNK_OVERLAP) as [body|];
      step_bind; [|discriminate].
    destruct (collect keys recs) as [more|]; step_bind; [|discriminate].
    intros [= <-]. rewrite (IH more eq_refl). reflexivity.
Qed.

(** After a run that wrote, the namespace's stores are the old ones with
    the numbered new chunks appended; the other namespaces are as they
    were. *)
Lemma index_course_views st r0 rest st' :
  index st (r0 :: rest) = Ok st' ->
  exists new,
    collect (stored_keys st (slug (course r0))) (r0 :: rest) = Ok new
    /\ (new = [] -> st' = st)
    /\ (forall ns, ns <> slug (course r0) ->
          ns_docs st' ns = ns_docs st ns
          /\ ns_chunks st' ns = ns_chunks st ns
          /\ ns_metas st' ns = ns_metas st ns
          /\ ns_tokens st' ns = ns_tokens st ns)
    /\ (let ns := slug (course r0) in
        let added := assign_chunk_ids (length (ns_docs st ns)) new in
        ns_docs st' ns = ns_docs st ns ++ added
        /\ ns_chunks st' ns = ns_chunks st ns ++ (page_content <$> added)
        /\ ns_metas st' ns = ns_metas st ns ++ (metadata <$> added)
        /\ ns_tokens st' ns
           = ns_tokens st ns ++ ((fun c => tokenize (page_content c)) <$> added)).
Proof.
  intros H. destruct (index_course_inv _ _ _ _ H) as (new & Hc & Hcase).
  exists new. split; [exact Hc|].
  destruct Hcase as [[-> ->]|(Hne & Hchroma & Hbm)].
  - split; [reflexivity|]. split; [tauto|]. cbn.
    rewrite !app_nil_r. tauto.
  - split; [tauto|].
    unfold ns_docs, ns_chunks, ns_metas, ns_tokens in *.
    rewrite Hchroma, Hbm. split.
    + intros ns Hns. rewrite !lookup_insert_ne by congruence. tauto.
    + cbn zeta. rewrite !lookup_insert_eq. cbn. tauto.
Qed.
End IndexerFacts.

(** *** Alignment is kept by every step *)

Lemma zip_with_mk_doc (docs : list Document) :
  zip_with mk_doc (page_content <$> docs) (metadata <$> docs) = docs.
Proof.
  induction docs as [|[text m] docs IH]; [reflexivity|].
  cbn. f_equal. exact IH.
Qed.

Lemma aligned_length st ns :
  aligned st ns -> length (ns_docs st ns) = length (ns_metas st ns).
Proof.
  intros (Hdocs & Hlen & _). rewrite Hdocs, length_zip_with. lia.
Qed.

Lemma aligned_index fs sha256 st recs st' ns :
  aligned st ns -> index_course fs sha256 st recs = Ok st' -> aligned st' ns.
Proof.
  intros Hal H. destruct recs as [|r0 rest]; [injection H as <-; exact Hal|].
  destruct (index_course_views _ _ _ _ _ _ H) as (new & _ & _ & Hother & Hns).
  destruct (decide (ns = slug (course r0))) as [->|Hne].
  - cbn zeta in Hns. destruct Hns as (Hd & Hc & Hm & Ht).
    pose proof (aligned_length _ _ Hal) as Hlen.
    destruct Hal as (Hdocs & Hcm & Htc & Hid).
    set (added := assign_chunk_ids _ new) in *.
    unfold aligned. rewrite Hd, Hc, Hm, Ht. repeat split.
    + rewrite zip_with_app by exact Hcm. rewrite zip_with_mk_doc. congruence.
    + rewrite !length_app, !length_fmap. lia.
    + rewrite !length_app, !length_fmap. lia.
    + intros i m Hi. apply lookup_app_Some in Hi as [Hi|[Hge Hi]];
        [eauto|].
      rewrite list_lookup_fmap in Hi.
      destruct (added !! (i - length (ns_metas st (slug (course r0)))))
        as [d|] eqn:Hadd; [|discriminate].
      injection Hi as <-. unfold added, assign_chunk_ids in Hadd.
      rewrite list_lookup_imap in Hadd.
      destruct (new !! _) as [d0|]; [|discriminate].
      injection Hadd as <-. cbn [metadata].
      rewrite lookup_insert_eq. do 3 f_equal. lia.
  - destruct (Hother ns Hne) as (Hd & Hc & Hm & Ht).
    unfold aligned. rewrite Hd, Hc, Hm, Ht. exact Hal.
Qed.

Lemma reachable_aligned st : reachable st -> forall ns, aligned st ns.
Proof.
  induction 1 as [|fs sha256 st recs st' _ IH Hrun|st ns0 _ IH Hnone]; intros ns.
  - unfold aligned, ns_docs, ns_chunks, ns_metas, ns_tokens. cbn.
    rewrite !lookup_empty. cbn. repeat split. intros i m Hi. inversion Hi.
  - eapply aligned_index; eauto.
  - specialize (IH ns).
    assert (Hd : ns_docs {| chroma_db := <[ns0:=[]]> (chroma_db st);
                            bm25_db := bm25_db st |} ns = ns_docs st ns).
    { unfold ns_docs. cbn. destruct (decide (ns = ns0)) as [->|Hne].
      - rewrite lookup_insert_eq, Hnone. reflexivity.
      - rewrite lookup_insert_ne by congruence. reflexivity. }
    unfold aligned in *. rewrite Hd. exact IH.
Qed.

Lemma zip_with_mk_doc_keys (cs : list string) (ms : list (gmap string meta_val)) :
  length cs = length ms ->
  map (fun d => meta_source_key (metadata d)) (zip_with mk_doc cs ms)
  = map meta_source_key ms.
Proof.
  revert cs. induction ms as [|m ms IH]; intros [|c cs] Hlen;
    try discriminate; [reflexivity|].
  cbn. f_equal. apply IH. cbn in Hlen. lia.
Qed.

Lemma aligned_keys st ns :
  aligned st ns -> lexical_source_keys st ns = stored_keys st ns.
Proof.
  intros (Hdocs & Hlen & _). rewrite stored_keys_docs, Hdocs.
  unfold existing_keys_of. rewrite zip_with_mk_doc_keys by exact Hlen.
  unfold lexical_source_keys, ns_metas.
  destruct (bm25_db st !! ns) as [p|]; reflexivity.
Qed.

(** *** Properties of the indexer *)

(** C1. A run of [index_course] that returns is idempotent: run again on
    the same batch with the same files, it returns the same stores and its
    loop collects no chunk. The reason is the whole-document skip: a
    document of the batch whose SourceKey is in the namespace's stored key
    set can be taken out of the batch without changing what the loop
    collects. *)
Theorem index_course_idempotent fs sha256 (st : Store) (recs : list TxtRecord)
    (st' : Store) :
  index_course fs sha256 st recs = Ok st' ->
  index_course fs sha256 st' recs = Ok st'
  /\ forall r0, head recs = Some r0 ->
       collect_new_chunks fs sha256 (stored_keys st' (slug (course r0))) recs
         = Ok []
       /\ forall pre r post raw,
            recs = pre ++ r :: post ->
            fs (file_path r) = Some raw ->
            MStr (source_key_of sha256 r raw) ∈ stored_keys st (slug (course r0)) ->
            collect_new_chunks fs sha256 (stored_keys st (slug (course r0))) recs
            = collect_new_chunks fs sha256 (stored_keys st (slug (course r0)))
                (pre ++ post).
Proof.
  intros H. destruct recs as [|r0 rest]; [split; [reflexivity|discriminate]|].
  destruct (index_course_views _ _ _ _ _ _ H) as (new & Hc & Hnil & _ & Hns).
  cbn zeta in Hns. destruct Hns as (Hd & _).
  assert (Hagain : collect_new_chunks fs sha256
                     (stored_keys st' (slug (course r0))) (r0 :: rest) = Ok []).
  { eapply collect_again; [exact Hc| |];
      rewrite (stored_keys_docs st'), Hd, existing_keys_of_app,
        assign_chunk_ids_keys, <- stored_keys_docs; set_solver. }
  split; [apply index_course_noop; exact Hagain|].
  intros r [= <-]. split; [exact Hagain|].
  intros pre r post raw -> Hraw Hin. eapply collect_skip; eassumption.
Qed.

Lemma index_course_idempotent_witness :
  index_course demo_fs demo_sha256 store_after_a [rec_a] = Ok store_after_a.
Proof.
  apply (index_course_idempotent demo_fs demo_sha256 empty_store [rec_a]).
  vm_compute. reflexivity.
Defined.

(** C2. In every state the stores can reach, and for every namespace: the
    lexical arrays and the vector store have the same length; position [i]
    of the lexical arrays carries [chunk_id] [i] and the vector store holds
    the same text and metadata there; a [chunk_id] found in the vector
    store resolves to that document's text and metadata in the lexical
    arrays; the ids read in order are [0, 1, 2, ...]; and a further run
    only appends, so the ids already given are never reused or changed. *)
Theorem chunk_id_alignment (st : Store) :
  reachable st ->
  forall ns,
    length (ns_chunks st ns) = length (ns_metas st ns)
    /\ length (ns_docs st ns) = length (ns_chunks st ns)
    /\ (forall i, i < length (ns_chunks st ns) ->
          exists text m,
            ns_chunks st ns !! i = Some text
            /\ ns_metas st ns !! i = Some m
            /\ m !! "chunk_id" = Some (MInt (Z.of_nat i))
            /\ ns_docs st ns !! i = Some (mk_doc text m))
    /\ (forall d i, d ∈ ns_docs st ns ->
          metadata d !! "chunk_id" = Some (MInt (Z.of_nat i)) ->
          ns_chunks st ns !! i = Some (page_content d)
          /\ ns_metas st ns !! i = Some (metadata d))
    /\ (fun m : gmap string meta_val => m !! "chunk_id") <$> ns_metas st ns
       = (fun i => Some (MInt (Z.of_nat i))) <$> seq 0 (length (ns_metas st ns))
    /\ (forall fs sha256 recs st',
          index_course fs sha256 st recs = Ok st' ->
          ns_docs st ns `prefix_of` ns_docs st' ns
          /\ ns_chunks st ns `prefix_of` ns_chunks st' ns
          /\ ns_metas st ns `prefix_of` ns_metas st' ns).
Proof.
  intros Hreach ns.
  pose proof (reachable_aligned st Hreach ns) as Hal.
  pose proof (aligned_length _ _ Hal) as Hdl.
  destruct Hal as (Hdocs & Hcm & Htc & Hid).
  assert (Hpos : forall i, i < length (ns_chunks st ns) ->
            exists text m,
              ns_chunks st ns !! i = Some text
              /\ ns_metas st ns !! i = Some m
              /\ m !! "chunk_id" = Some (MInt (Z.of_nat i))
              /\ ns_docs st ns !! i = Some (mk_doc text m)).
  { intros i Hi.
    destruct (lookup_lt_is_Some_2 (ns_chunks st ns) i Hi) as [text Ht].
    destruct (lookup_lt_is_Some_2 (ns_metas st ns) i ltac:(lia)) as [m Hm].
    exists text, m. repeat split; try assumption; [eauto|].
    rewrite Hdocs, lookup_zip_with, Ht, Hm. reflexivity. }
  split; [exact Hcm|]. split; [lia|]. split; [exact Hpos|]. split.
  - intros d i Hd Hidd.
    apply list_elem_of_lookup in Hd as [j Hj].
    destruct (Hpos j) as (text & m & Ht & Hm & Hmid & Hdj).
    { apply lookup_lt_Some in Hj. lia. }
    rewrite Hj in Hdj. injection Hdj as ->. cbn in Hidd.
    rewrite Hmid in Hidd. injection Hidd as Hji.
    apply Nat2Z.inj in Hji. subst j. cbn. split; assumption.
  - split.
    + apply list_eq. intros i. rewrite !list_lookup_fmap.
      destruct (ns_metas st ns !! i) as [m|] eqn:Hm; cbn.
      * rewrite (Hid i m Hm).
        rewrite lookup_seq_lt by (apply lookup_lt_Some in Hm; exact Hm).
        reflexivity.
      * rewrite lookup_seq_ge by (apply lookup_ge_None in Hm; exact Hm).
        reflexivity.
    + intros fs sha256 recs st' Hrun.
      destruct recs as [|r0 rest]; [injection Hrun as <-; done|].
      destruct (index_course_views _ _ _ _ _ _ Hrun)
        as (new & _ & _ & Hother & Hns).
      destruct (decide (ns = slug (course r0))) as [->|Hne].
      * cbn zeta in Hns. destruct Hns as (-> & -> & -> & _).
        repeat split; apply prefix_app_r; done.
      * destruct (Hother ns Hne) as (-> & -> & -> & _). done.
Qed.

Lemma chunk_id_alignment_witness :
  length (ns_chunks store_after_a "math_101")
  = length (ns_metas store_after_a "math_101").
Proof.
  apply (chunk_id_alignment store_after_a).
  apply (reach_index demo_fs demo_sha256 empty_store [rec_a]);
    [exact reach_empty|vm_compute; reflexivity].
Defined.

(** C6, as stated, fails when the two stores differ. With the vector store
    holding the chunks of [rec_a] and no lexical store, the key set read
    from the lexical metadata is empty, so the membership test on it says
    "index"; [index_course] skips the document. *)
Lemma lexical_keys_not_used :
  (MStr (source_key_of demo_sha256 rec_a "hello world")
     ∉ lexical_source_keys store_vector_only (slug (course rec_a)))
  /\ (exists d,
        collect_new_chunks demo_fs demo_sha256
          (lexical_source_keys store_vector_only (slug (course rec_a))) [rec_a]
        = Ok [d])
  /\ index_course demo_fs demo_sha256 store_vector_only [rec_a]
     = Ok store_vector_only.
Proof.
  split; [|split].
  - unfold lexical_source_keys, store_vector_only. cbn [bm25_db].
    rewrite lookup_empty. apply not_elem_of_empty.
  - eexists. vm_compute. reflexivity.
  - vm_compute. reflexivity.
Qed.

(** C6, amended. The key set of the skip-or-index test is read from the
    vector store's metadata: a key is in it exactly when a document of the
    namespace's collection carries it (none when there is no collection).
    A readable, non-empty document indexed alone is skipped exactly when
    its SourceKey is in that set. On the states the stores can reach, the
    lexical store's metadata holds the same keys. *)
Theorem dedup_keys_from_vector_store fs sha256 (st : Store) (r : TxtRecord)
    (raw : string) :
  fs (file_path r) = Some raw ->
  raw <> "" ->
  (forall k, k ∈ stored_keys st (slug (course r)) <->
             exists d, d ∈ ns_docs st (slug (course r))
                       /\ meta_source_key (metadata d) = k)
  /\ (chroma_db st !! slug (course r) = None ->
      stored_keys st (slug (course r)) = ∅)
  /\ (index_course fs sha256 st [r] = Ok st <->
      MStr (source_key_of sha256 r raw) ∈ stored_keys st (slug (course r)))
  /\ (reachable st ->
      lexical_source_keys st (slug (course r)) = stored_keys st (slug (course r))).
Proof.
  intros Hraw Hne. set (ns := slug (course r)).
  split; [|split; [|split]].
  - intros k. rewrite stored_keys_docs. unfold existing_keys_of.
    rewrite elem_of_list_to_set, list_elem_of_fmap. naive_solver.
  - intros Hnone. unfold stored_keys. rewrite Hnone. reflexivity.
  - split.
    + intros Hrun.
      destruct (index_course_views _ _ _ _ _ _ Hrun) as (new & Hc & _ & _ & Hns).
      cbn zeta in Hns. destruct Hns as (Hd & _). fold ns in Hc, Hd.
      destruct (decide (MStr (source_key_of sha256 r raw) ∈ stored_keys st ns))
        as [Hin|Hout]; [exact Hin|exfalso].
      cbn [collect_new_chunks] in Hc. unfold read_text in Hc.
      rewrite Hraw in Hc. step_bind_in Hc.
      rewrite bool_decide_eq_false_2 in Hc by exact Hout.
      destruct (chunk_text_fixed_default raw) as (body & Hbody & Hnil).
      rewrite Hbody in Hc. step_bind_in Hc. injection Hc as <-.
      apply (f_equal length) in Hd.
      rewrite length_app, assign_chunk_ids_length, app_nil_r in Hd.
      unfold record_chunks in Hd. rewrite length_map in Hd.
      destruct body; [tauto|cbn in Hd; lia].
    + intros Hin. apply index_course_noop. fold ns.
      cbn [collect_new_chunks]. unfold read_text. rewrite Hraw. step_bind.
      rewrite bool_decide_eq_true_2 by exact Hin. reflexivity.
  - intros Hreach. apply aligned_keys, reachable_aligned, Hreach.
Qed.

Lemma dedup_keys_from_vector_store_witness :
  index_course demo_fs demo_sha256 store_vector_only [rec_a] = Ok store_vector_only
  <-> MStr (source_key_of demo_sha256 rec_a "hello world")
        ∈ stored_keys store_vector_only (slug (course rec_a)).
Proof.
  apply (dedup_keys_from_vector_store demo_fs demo_sha256 store_vector_only
           rec_a "hello world");
    [reflexivity|discriminate].
Defined.

(** C7, as stated, fails when there is no collection but a lexical store:
    the first new [chunk_id] is 0, not the lexical store's chunk count 2. *)
Lemma no_lexical_fallback_for_start_id :
  exists st' d,
    chroma_db store_lexical_only !! slug (course rec_a) = None
    /\ length (ns_chunks store_lexical_only (slug (course rec_a))) = 2
    /\ index_course demo_fs demo_sha256 store_lexical_only [rec_a] = Ok st'
    /\ ns_docs st' (slug (course rec_a)) = [d]
    /\ metadata d !! "chunk_id" = Some (MInt 0).
Proof.
  eexists _, _. repeat split; vm_compute; reflexivity.
Qed.

(** C7, amended. A run that writes appends its new chunks to the
    namespace's vector store; the chunks are the records' contributions in
    batch order, each record's windows in order; the chunk at position [i]
    of them gets [chunk_id] [n + i], where [n] is the number of documents
    the vector store held before the run, 0 when there was none. *)
Theorem chunk_id_start fs sha256 (st : Store) (r0 : TxtRecord)
    (rest : list TxtRecord) (st' : Store) :
  index_course fs sha256 st (r0 :: rest) = Ok st' ->
  st' <> st ->
  exists new,
    new = mjoin (doc_chunks fs sha256 (stored_keys st (slug (course r0)))
                   <$> (r0 :: rest))
    /\ new <> []
    /\ ns_docs st' (slug (course r0))
       = ns_docs st (slug (course r0))
         ++ assign_chunk_ids (length (ns_docs st (slug (course r0)))) new
    /\ (forall i d, new !! i = Some d ->
          ns_docs st' (slug (course r0)) !! (length (ns_docs st (slug (course r0))) + i)
          = Some {| page_content := page_content d;
                    metadata :=
                      <["chunk_id" :=
                          MInt (Z.of_nat (length (ns_docs st (slug (course r0))) + i))]>
                        (metadata d) |})
    /\ (chroma_db st !! slug (course r0) = None ->
        length (ns_docs st (slug (course r0))) = 0).
Proof.
  intros Hrun Hchanged.
  destruct (index_course_views _ _ _ _ _ _ Hrun) as (new & Hc & Hnil & _ & Hns).
  cbn zeta in Hns. destruct Hns as (Hd & _).
  exists new. split; [apply collect_doc_chunks; exact Hc|].
  split; [intros Hnew; apply Hchanged, Hnil, Hnew|].
  split; [exact Hd|]. split.
  - intros i d Hi. rewrite Hd, lookup_app_r by lia.
    replace (length _ + i - length _) with i by lia.
    apply assign_chunk_ids_lookup. exact Hi.
  - intros Hnone. unfold ns_docs. rewrite Hnone. reflexivity.
Qed.

Lemma chunk_id_start_witness :
  exists new,
    ns_docs store_after_a (slug (course rec_a))
    = ns_docs empty_store (slug (course rec_a))
      ++ assign_chunk_ids (length (ns_docs empty_store (slug (course rec_a)))) new.
Proof.
  destruct (chunk_id_start demo_fs demo_sha256 empty_store rec_a [] store_after_a)
    as (new & _ & _ & Hd & _).
  - vm_compute. reflexivity.
  - vm_compute. intros H. discriminate H.
  - exists new. exact Hd.
Defined.

(** C8, as stated, fails: one unreadable file ends the run with the
    exception, and the readable sibling [rec_a] is not indexed; the batch
    entry point leaves the stores empty. *)
Lemma unreadable_file_aborts_siblings :
  index_course demo_fs demo_sha256 empty_store [rec_a; rec_missing]
    = Raise FileNotFoundError
  /\ index_all_txt_records demo_fs demo_sha256 empty_store [rec_a; rec_missing]
     = (empty_store, Some FileNotFoundError)
  /\ index_course demo_fs demo_sha256 empty_store [rec_a] = Ok store_after_a
  /\ ns_docs store_after_a (slug (course rec_a)) <> [].
Proof.
  repeat split; try (vm_compute; reflexivity).
  vm_compute. discriminate.
Qed.

(** Every record of the batch lands in one of the per-course groups. *)
Definition in_groups (groups : list (string * list TxtRecord)) (r : TxtRecord)
  : Prop :=
  exists c rs, (c, rs) ∈ groups /\ r ∈ rs.

Lemma group_add_new groups r : in_groups (group_add groups r) r.
Proof.
  induction groups as [|[c rs] groups IH]; cbn [group_add].
  - exists (course r), [r]. split; apply list_elem_of_singleton; reflexivity.
  - destruct (String.eqb c (course r)).
    + exists c, (rs ++ [r]). split; [left|]. apply elem_of_app. right. left.
    + destruct IH as (c' & rs' & Hin & Hr). exists c', rs'.
      split; [right; exact Hin|exact Hr].
Qed.

Lemma group_add_old groups r x : in_groups groups x -> in_groups (group_add groups r) x.
Proof.
  intros (c' & rs' & Hin & Hx).
  induction groups as [|[c rs] groups IH]; [inversion Hin|].
  cbn [group_add]. apply elem_of_cons in Hin as [[= <- <-]|Hin].
  - destruct (String.eqb c' (course r)).
    + exists c', (rs' ++ [r]). split; [left|]. apply elem_of_app. left. exact Hx.
    + exists c', rs'. split; [left|exact Hx].
  - destruct (IH Hin) as (c2 & rs2 & Hin2 & Hx2).
    destruct (String.eqb c (course r)).
    + exists c', rs'. split; [right; exact Hin|exact Hx].
    + exists c2, rs2. split; [right; exact Hin2|exact Hx2].
Qed.

Lemma fold_group_add_in records : forall groups x,
  x ∈ records \/ in_groups groups x ->
  in_groups (fold_left group_add records groups) x.
Proof.
  induction records as [|r records IH]; intros groups x Hx; cbn [fold_left].
  - destruct Hx as [Hx|Hx]; [inversion Hx|exact Hx].
  - apply IH. destruct Hx as [Hx|Hx].
    + apply elem_of_cons in Hx as [->|Hx]; [right; apply group_add_new|left; exact Hx].
    + right. apply group_add_old. exact Hx.
Qed.

Lemma index_groups_unreadable fs sha256 groups : forall st,
  (exists r, in_groups groups r /\ fs (file_path r) = None) ->
  exists st', index_groups fs sha256 st groups = (st', Some FileNotFoundError).
Proof.
  induction groups as [|[c rs] groups IH]; intros st (r & (c' & rs' & Hin & Hr) & Hnone).
  - inversion Hin.
  - cbn [index_groups].
    destruct (index_course fs sha256 st rs) as [st1|e] eqn:Hrun.
    + apply IH. exists r. split; [|exact Hnone].
      apply elem_of_cons in Hin as [[= <- <-]|Hin]; [|exists c', rs'; tauto].
      rewrite collect_unreadable_index in Hrun; [discriminate|].
      exists r. tauto.
    + exists st. rewrite (index_course_raise _ _ _ _ _ Hrun). reflexivity.
Qed.

(** C8, amended. A file that cannot be read is a hard error for the whole
    run: [index_course] leaves with [FileNotFoundError] before anything is
    written, so no document of that batch is indexed by the run, and the
    batch entry point ends with the same exception. *)
Theorem unreadable_file_raises fs sha256 (st : Store) (recs : list TxtRecord) :
  (exists r, r ∈ recs /\ fs (file_path r) = None) ->
  index_course fs sha256 st recs = Raise FileNotFoundError
  /\ exists st',
       index_all_txt_records fs sha256 st recs = (st', Some FileNotFoundError).
Proof.
  intros (r & Hin & Hnone). split.
  - apply collect_unreadable_index. exists r. tauto.
  - apply index_groups_unreadable. exists r. split; [|exact Hnone].
    apply fold_group_add_in. left. exact Hin.
Qed.

Lemma unreadable_file_raises_witness :
  index_course demo_fs demo_sha256 store_after_a [rec_b; rec_missing]
  = Raise FileNotFoundError.
Proof.
  apply (unreadable_file_raises demo_fs demo_sha256 store_after_a
           [rec_b; rec_missing]).
  exists rec_missing. split; [right; left|reflexivity].
Defined.

(** ** Hybrid search *)

(** *** The [fused] dictionary *)

Lemma fused_get_add_eq fused key x :
  fused_get (fused_add fused key x) key = Some (score_of fused key + x)%Q.
Proof.
  unfold score_of. induction fused as [|[k v] fused IH]; cbn [fused_add fused_get].
  - rewrite decide_True by reflexivity. reflexivity.
  - destruct (decide (k = key)) as [->|Hne]; cbn [fused_get].
    + rewrite decide_True by reflexivity. reflexivity.
    + rewrite decide_False by exact Hne. exact IH.
Qed.

Lemma fused_get_add_ne fused k key x :
  k <> key -> fused_get (fused_add fused k x) key = fused_get fused key.
Proof.
  intros Hne. induction fused as [|[k' v] fused IH]; cbn [fused_add fused_get].
  - rewrite decide_False by exact Hne. reflexivity.
  - destruct (decide (k' = k)) as [->|Hne']; cbn [fused_get].
    + rewrite !decide_False by exact Hne. reflexivity.
    + destruct (decide (k' = key)); [reflexivity|exact IH].
Qed.

(** After a batch of updates, the score of a key is its old score plus the
    batch's contributions to it, added in order. *)
Lemma score_of_add_all contribs : forall fused key,
  score_of (fused_add_all fused contribs) key
  = contrib_total key contribs (score_of fused key).
Proof.
  induction contribs as [|[k x] contribs IH]; intros fused key; [reflexivity|].
  unfold fused_add_all, contrib_total, sum_where in *. cbn [fold_left fst snd].
  rewrite IH. f_equal. case_bool_decide as Hk.
  - subst k. unfold score_of at 1. rewrite fused_get_add_eq. reflexivity.
  - unfold score_of. rewrite fused_get_add_ne by exact Hk. reflexivity.
Qed.

Lemma sum_where_none {A : Type} (P : A -> bool) (val : A -> Q) (l : list A) s :
  (forall a, a ∈ l -> P a = false) -> sum_where P val l s = s.
Proof.
  revert s. induction l as [|a l IH]; intros s Hall; [reflexivity|].
  unfold sum_where in *. cbn [fold_left].
  rewrite (Hall a) by left. apply IH. intros b Hb. apply Hall. right. exact Hb.
Qed.

(** When exactly one element satisfies [P], the sum is that element's
    value. *)
Lemma sum_where_unique {A : Type} (P : A -> bool) (val : A -> Q) (l : list A)
    (j : nat) (a : A) s :
  l !! j = Some a ->
  P a = true ->
  (forall j' a', l !! j' = Some a' -> P a' = true -> j' = j) ->
  sum_where P val l s = (s + val a)%Q.
Proof.
  revert j s. induction l as [|b l IH]; intros j s Hj Pa Huniq; [inversion Hj|].
  unfold sum_where in *. cbn [fold_left]. destruct j as [|j].
  - injection Hj as ->. rewrite Pa.
    apply (sum_where_none P val l). intros c Hc.
    apply list_elem_of_lookup in Hc as [i Hi].
    destruct (P c) eqn:Pc; [|reflexivity].
    specialize (Huniq (S i) c Hi Pc). discriminate.
  - destruct (P b) eqn:Pb; [specialize (Huniq 0 b eq_refl Pb); discriminate|].
    apply (IH j); [exact Hj|exact Pa|].
    intros j' a' Hj' Pa'. specialize (Huniq (S j') a' Hj' Pa'). lia.
Qed.

(** *** The first element of each course *)

Section SearchFacts.
Variable bm25_get_scores : list (list string) -> list string -> list Q.
Variable similarity_search :
  list Document -> string -> Z -> result (list (Document * Q)).
Variable chroma_unavailable : string -> bool.
Variable st : Store.
Variable query : string.
Variables k_final k_bm25 k_embed : Z.
Variables w_bm25 w_emb : Q.

Abbreviation namespace_step :=
  (search_namespace bm25_get_scores similarity_search chroma_unavailable
     st query k_bm25 k_embed w_bm25 w_emb).
Abbreviation course_step :=
  (search_course bm25_get_scores similarity_search chroma_unavailable
     st query k_bm25 k_embed w_bm25 w_emb).
Abbreviation loop :=
  (search_loop bm25_get_scores similarity_search chroma_unavailable
     st query k_bm25 k_embed w_bm25 w_emb).
Abbreviation search :=
  (hybrid_search bm25_get_scores similarity_search chroma_unavailable
     st query k_final k_bm25 k_embed w_bm25 w_emb).

Lemma search_loop_raises_at acc courses c :
  c ∈ courses -> first_item c = Raise IndexError ->
  exists e, loop acc courses = Raise e.
Proof.
  intros Hin Hc. revert acc.
  induction courses as [|c' courses IH]; intros acc; [inversion Hin|].
  cbn [search_loop].
  destruct (course_step acc c') as [acc'|e] eqn:Hstep; step_bind; [|eauto].
  apply elem_of_cons in Hin as [<-|Hin]; [|apply IH; exact Hin].
  unfold search_course in Hstep. rewrite Hc in Hstep. discriminate.
Qed.

(** *** What the search does provide when a store is missing *)

(** No lexical pickle: the namespace adds its vector entries only. *)
Lemma search_without_lexical_store acc name hits entries :
  bm25_db st !! slug name = None ->
  chroma_unavailable (slug name) = false ->
  similarity_search (ns_docs st (slug name)) query k_embed = Ok hits ->
  vector_hits w_emb (slug name) hits = Ok entries ->
  exists acc',
    namespace_step acc name = Ok acc'
    /\ fused acc' = fused_add_all (fused acc) entries
    /\ bm25_pkgs acc' = bm25_pkgs acc.
Proof.
  intros Hpkg Hvs Hhits Hentries. unfold search_namespace.
  rewrite Hpkg, Hvs, Hhits. step_bind. rewrite Hentries. step_bind.
  eexists. split; [reflexivity|]. split; reflexivity.
Qed.

(** The collection cannot be opened: the namespace adds its lexical
    entries only. *)
Lemma search_without_vector_store acc name pkg :
  bm25_db st !! slug name = Some pkg ->
  chroma_unavailable (slug name) = true ->
  exists acc',
    namespace_step acc name = Ok acc'
    /\ fused acc'
       = fused_add_all (fused acc)
           (lexical_hits bm25_get_scores query k_bm25 w_bm25 (slug name) pkg)
    /\ vector_stores acc' = vector_stores acc.
Proof.
  intros Hpkg Hvs. unfold search_namespace. rewrite Hpkg, Hvs. step_bind.
  eexists. split; [reflexivity|]. split; reflexivity.
Qed.

(** A namespace that was never indexed, named by a course element that
    has a first element, gives the empty list once the empty collection
    answers the query with no hit. *)
Lemma search_unindexed_namespace c name :
  first_item c = Ok name ->
  bm25_db st !! slug name = None ->
  chroma_db st !! slug name = None ->
  similarity_search [] query k_embed = Ok [] ->
  search [c] = Ok [].
Proof.
  intros Hc Hpkg Hvs Hhits.
  unfold hybrid_search, search_loop, search_course. rewrite Hc. step_bind.
  unfold search_namespace, ns_docs. rewrite Hpkg, Hvs.
  destruct (chroma_unavailable (slug name)); cbn [default];
    rewrite ?Hhits; reflexivity.
Qed.

(** C10. Each element of [courses] is replaced by its own first element
    before any store is looked up: for a course-name string the loop
    body runs on the one-character string of its first character, so the
    rest of the name has no effect on the result; an empty string as
    first element raises [IndexError] whatever the stores hold, and an
    empty string anywhere in [courses] makes the call raise instead of
    returning results. *)
Theorem courses_first_element :
  (forall acc ch rest,
     search_course bm25_get_scores similarity_search chroma_unavailable
       st query k_bm25 k_embed w_bm25 w_emb acc (CStr (String ch rest))
     = search_namespace bm25_get_scores similarity_search chroma_unavailable
         st query k_bm25 k_embed w_bm25 w_emb acc (String ch ""))
  /\ (forall ch rest courses,
        hybrid_search bm25_get_scores similarity_search chroma_unavailable
          st query k_final k_bm25 k_embed w_bm25 w_emb
          (CStr (String ch rest) :: courses)
        = hybrid_search bm25_get_scores similarity_search chroma_unavailable
            st query k_final k_bm25 k_embed w_bm25 w_emb
            (CStr (String ch "") :: courses))
  /\ (forall courses,
        hybrid_search bm25_get_scores similarity_search chroma_unavailable
          st query k_final k_bm25 k_embed w_bm25 w_emb (CStr "" :: courses)
        = Raise IndexError)
  /\ (forall courses,
        CStr "" ∈ courses ->
        exists e,
          hybrid_search bm25_get_scores similarity_search chroma_unavailable
            st query k_final k_bm25 k_embed w_bm25 w_emb courses
          = Raise e).
Proof.
  split; [reflexivity|]. split; [reflexivity|]. split; [reflexivity|].
  intros courses Hin. unfold hybrid_search.
  destruct (search_loop_raises_at search_init courses (CStr "") Hin eq_refl)
    as [e He].
  exists e. rewrite He. reflexivity.
Qed.
End SearchFacts.

Lemma courses_first_element_witness :
  exists e,
    hybrid_search demo_bm25 demo_similarity chroma_ok store_three "q" 5 20 12
      (1 # 4) (3 # 4) [CList ["physics"]; CStr ""] = Raise e.
Proof.
  apply (courses_first_element demo_bm25 demo_similarity chroma_ok store_three
           "q" 5 20 12 (1 # 4) (3 # 4)).
  right. left.
Defined.

(** A list of course names reaches the namespace of each name's first
    character: ["physics"] queries the namespace ["p"], which holds
    nothing, while the one-element list [["physics"]] reaches the chunks. *)
Example first_character_namespace :
  hybrid_search demo_bm25 demo_similarity chroma_ok store_three "q" 5 20 12
    (1 # 4) (3 # 4) [CStr "physics"] = Ok []
  /\ res_text <$> default []
       (match hybrid_search demo_bm25 demo_similarity chroma_ok store_three "q"
                5 20 12 (1 # 4) (3 # 4) [CList ["physics"]] with
        | Ok out => Some out
        | Raise _ => None
        end) = ["q q q"; "q x"; "x"].
Proof. split; vm_compute; reflexivity. Qed.

(** C9 at its failing inputs. The collection of ["Math 101"] opens but its
    query raises: [hybrid_search] raises too, although the lexical signal
    alone has results (second part, same stores with the collection
    unavailable at load time). And the initial [class_selected = [""]] of
    the tool raises [IndexError] on stores that were never indexed. *)
Lemma vector_query_failure_aborts_search :
  hybrid_search demo_bm25 failing_similarity chroma_ok store_after_ab "hello"
    5 20 12 (3 # 10) (7 # 10) [CList ["Math 101"]] = Raise ProviderError
  /\ (exists r rest,
        hybrid_search demo_bm25 failing_similarity chroma_down store_after_ab
          "hello" 5 20 12 (3 # 10) (7 # 10) [CList ["Math 101"]]
        = Ok (r :: rest))
  /\ hybrid_search demo_bm25 demo_similarity chroma_ok empty_store "hello"
       5 20 12 (3 # 10) (7 # 10) [CStr ""] = Raise IndexError.
Proof.
  split; [vm_compute; reflexivity|]. split; [|reflexivity].
  eexists _, _. vm_compute. reflexivity.
Qed.

(** *** Sorting *)

Section SortBy.
Context {A : Type} (le : A -> A -> bool).

Lemma insert_by_perm x l : Permutation (insert_by le x l) (x :: l).
Proof.
  induction l as [|y l IH]; cbn [insert_by]; [reflexivity|].
  destruct (le y x); [|reflexivity].
  rewrite IH. apply perm_swap.
Qed.

Lemma sort_by_perm_acc l : forall acc,
  Permutation (fold_left (fun acc x => insert_by le x acc) l acc) (acc ++ l).
Proof.
  induction l as [|x l IH]; intros acc; cbn [fold_left].
  - rewrite app_nil_r. reflexivity.
  - rewrite IH, insert_by_perm. cbn [app]. apply Permutation_middle.
Qed.

Lemma sort_by_perm l : Permutation (sort_by le l) l.
Proof. unfold sort_by. rewrite sort_by_perm_acc. reflexivity. Qed.

Hypothesis le_total : forall a b, le a b = true \/ le b a = true.
Hypothesis le_trans : forall a b c, le a b = true -> le b c = true -> le a c = true.

Lemma insert_by_sorted x l :
  StronglySorted (fun a b => le a b = true) l ->
  StronglySorted (fun a b => le a b = true) (insert_by le x l).
Proof.
  induction 1 as [|y l Hs IH Hall]; cbn [insert_by].
  - constructor; constructor.
  - destruct (le y x) eqn:Hyx.
    + constructor; [exact IH|].
      apply Forall_forall. intros z Hz.
      rewrite (insert_by_perm x l) in Hz.
      apply elem_of_cons in Hz as [->|Hz]; [exact Hyx|].
      rewrite Forall_forall in Hall. apply Hall, Hz.
    + assert (Hxy : le x y = true)
        by (destruct (le_total x y) as [H|H]; [exact H|congruence]).
      constructor; [constructor; assumption|].
      constructor; [exact Hxy|].
      eapply Forall_impl; [exact Hall|]. intros z Hz. cbn in Hz.
      eapply le_trans; eassumption.
Qed.

Lemma sort_by_sorted l : StronglySorted (fun a b => le a b = true) (sort_by le l).
Proof.
  unfold sort_by.
  assert (Hacc : forall acc, StronglySorted (fun a b => le a b = true) acc ->
            StronglySorted (fun a b => le a b = true)
              (fold_left (fun acc x => insert_by le x acc) l acc)).
  { induction l as [|x l IH]; intros acc Hs; cbn [fold_left]; [exact Hs|].
    apply IH, insert_by_sorted, Hs. }
  apply Hacc. constructor.
Qed.
End SortBy.

(** In a sorted list, whatever is past position [n] is above whatever is
    before it. *)
Lemma sorted_take_drop {A : Type} (R : A -> A -> Prop) (l : list A) (n : nat) a b :
  StronglySorted R l -> a ∈ take n l -> b ∈ drop n l -> R a b.
Proof.
  intros Hs. revert n. induction Hs as [|x l Hs IH Hall]; intros n Ha Hb.
  - rewrite take_nil in Ha. inversion Ha.
  - destruct n as [|n]; [inversion Ha|]. cbn in Ha, Hb.
    apply elem_of_cons in Ha as [->|Ha]; [|eapply IH; eassumption].
    rewrite Forall_forall in Hall. apply Hall.
    apply (subseteq_drop n l). exact Hb.
Qed.

Local Open Scope Q_scope.

(** *** Minimum, maximum and normalization *)

Lemma fold_min_spec (r : list Q) : forall x,
  let m := fold_left (fun a b => if Qle_bool b a then b else a) r x in
  (m = x \/ m ∈ r) /\ m <= x /\ forall y, y ∈ r -> m <= y.
Proof.
  induction r as [|b r IH]; intros x; cbn [fold_left].
  - cbn. split; [left; reflexivity|]. split; [lra|]. intros y Hy. inversion Hy.
  - destruct (IH (if Qle_bool b x then b else x)) as (Hin & Hle & Hall).
    cbn zeta. set (m := fold_left _ r _) in *.
    destruct (Qle_bool b x) eqn:Hbx.
    + apply Qle_bool_iff in Hbx. split; [|split].
      * right. destruct Hin as [->|Hin]; [left|right; exact Hin].
      * lra.
      * intros y Hy. apply elem_of_cons in Hy as [->|Hy]; [exact Hle|auto].
    + assert (x < b).
      { apply Qnot_le_lt. intros H. apply Qle_bool_iff in H. congruence. }
      split; [|split].
      * destruct Hin as [->|Hin]; [left; reflexivity|right; right; exact Hin].
      * exact Hle.
      * intros y Hy. apply elem_of_cons in Hy as [->|Hy]; [lra|auto].
Qed.

Lemma fold_max_spec (r : list Q) : forall x,
  let m := fold_left (fun a b => if Qle_bool a b then b else a) r x in
  (m = x \/ m ∈ r) /\ x <= m /\ forall y, y ∈ r -> y <= m.
Proof.
  induction r as [|b r IH]; intros x; cbn [fold_left].
  - cbn. split; [left; reflexivity|]. split; [lra|]. intros y Hy. inversion Hy.
  - destruct (IH (if Qle_bool x b then b else x)) as (Hin & Hle & Hall).
    cbn zeta. set (m := fold_left _ r _) in *.
    destruct (Qle_bool x b) eqn:Hbx.
    + apply Qle_bool_iff in Hbx. split; [|split].
      * right. destruct Hin as [->|Hin]; [left|right; exact Hin].
      * lra.
      * intros y Hy. apply elem_of_cons in Hy as [->|Hy]; [exact Hle|auto].
    + assert (b < x).
      { apply Qnot_le_lt. intros H. apply Qle_bool_iff in H. congruence. }
      split; [|split].
      * destruct Hin as [->|Hin]; [left; reflexivity|right; right; exact Hin].
      * exact Hle.
      * intros y Hy. apply elem_of_cons in Hy as [->|Hy]; [lra|auto].
Qed.

(** [q_min] and [q_max] are the least and the greatest element of a
    non-empty list. *)
Lemma q_min_spec (xs : list Q) :
  xs <> [] -> q_min xs ∈ xs /\ forall y, y ∈ xs -> q_min xs <= y.
Proof.
  destruct xs as [|x r]; [congruence|]. intros _. cbn [q_min].
  destruct (fold_min_spec r x) as (Hin & Hle & Hall). split.
  - destruct Hin as [->|Hin]; [left|right; exact Hin].
  - intros y Hy. apply elem_of_cons in Hy as [->|Hy]; [exact Hle|auto].
Qed.

Lemma q_max_spec (xs : list Q) :
  xs <> [] -> q_max xs ∈ xs /\ forall y, y ∈ xs -> y <= q_max xs.
Proof.
  destruct xs as [|x r]; [congruence|]. intros _. cbn [q_max].
  destruct (fold_max_spec r x) as (Hin & Hle & Hall). split.
  - destruct Hin as [->|Hin]; [left|right; exact Hin].
  - intros y Hy. apply elem_of_cons in Hy as [->|Hy]; [exact Hle|auto].
Qed.

Lemma EPS_pos : 0 < EPS.
Proof. reflexivity. Qed.

Lemma norm_denominator_pos (xs : list Q) : 0 < ptp xs + EPS.
Proof.
  pose proof EPS_pos. unfold ptp. destruct xs as [|x r] eqn:E.
  - cbn. lra.
  - rewrite <- E. assert (Hne : xs <> []) by (rewrite E; discriminate).
    destruct (q_min_spec xs Hne) as [_ Hmin], (q_max_spec xs Hne) as [Hmax _].
    specialize (Hmin _ Hmax). lra.
Qed.

Lemma minmax_norm_length xs : length (minmax_norm xs) = length xs.
Proof. unfold minmax_norm. apply length_map. Qed.

Lemma minmax_norm_nth (xs : list Q) (i : nat) :
  (i < length xs)%nat ->
  nth i (minmax_norm xs) 0 = (nth i xs 0 - q_min xs) / (q_max xs - q_min xs + EPS).
Proof.
  intros Hi. unfold minmax_norm, ptp.
  rewrite (nth_indep _ 0 ((fun s => (s - q_min xs) / (q_max xs - q_min xs + EPS)) 0))
    by (rewrite length_map; exact Hi).
  apply (map_nth (fun s => (s - q_min xs) / (q_max xs - q_min xs + EPS))).
Qed.

(** A normalized score lies in [0, 1). *)
Lemma minmax_norm_bounds (xs : list Q) (x : Q) :
  x ∈ xs -> 0 <= (x - q_min xs) / (q_max xs - q_min xs + EPS) < 1.
Proof.
  intros Hx. assert (Hne : xs <> []) by (intros ->; inversion Hx).
  pose proof (norm_denominator_pos xs) as Hd. unfold ptp in Hd.
  destruct (q_min_spec xs Hne) as [_ Hmin], (q_max_spec xs Hne) as [_ Hmax].
  specialize (Hmin x Hx). specialize (Hmax x Hx). pose proof EPS_pos. split.
  - apply Qle_shift_div_l; [exact Hd|]. lra.
  - apply Qlt_shift_div_r; [exact Hd|]. lra.
Qed.

(** Normalization keeps the order of the scores. *)
Lemma minmax_norm_order (xs : list Q) (a b : Q) :
  (a - q_min xs) / (q_max xs - q_min xs + EPS)
    <= (b - q_min xs) / (q_max xs - q_min xs + EPS) ->
  a <= b.
Proof.
  pose proof (norm_denominator_pos xs) as Hd. unfold ptp in Hd.
  set (d := q_max xs - q_min xs + EPS) in *. intros H.
  apply (Qmult_le_compat_r _ _ d) in H; [|lra].
  unfold Qdiv in H. rewrite <- !Qmult_assoc in H.
  rewrite (Qmult_comm (/ d)), Qmult_inv_r, !Qmult_1_r in H by lra. lra.
Qed.

(** *** [argsort] and the top of a ranking *)

Lemma score_le_total (xs : list Q) (a b : nat) :
  Qle_bool (nth a xs 0) (nth b xs 0) = true
  \/ Qle_bool (nth b xs 0) (nth a xs 0) = true.
Proof.
  rewrite !Qle_bool_iff.
  destruct (Qlt_le_dec (nth b xs 0) (nth a xs 0)); [right; lra|left; lra].
Qed.

Lemma score_le_trans (xs : list Q) (a b c : nat) :
  Qle_bool (nth a xs 0) (nth b xs 0) = true ->
  Qle_bool (nth b xs 0) (nth c xs 0) = true ->
  Qle_bool (nth a xs 0) (nth c xs 0) = true.
Proof. rewrite !Qle_bool_iff. lra. Qed.

Lemma argsort_perm (xs : list Q) : Permutation (argsort xs) (seq 0 (length xs)).
Proof. apply sort_by_perm. Qed.

Lemma StronglySorted_rev {A : Type} (R : A -> A -> Prop) (l : list A) :
  StronglySorted R l -> StronglySorted (fun a b => R b a) (rev l).
Proof.
  induction 1 as [|x l Hs IH Hall]; cbn [rev]; [constructor|].
  apply StronglySorted_app_2; [|exact IH|repeat constructor].
  intros a b Ha Hb. apply list_elem_of_singleton in Hb as ->.
  rewrite Forall_forall in Hall. apply Hall.
  apply list_elem_of_In, in_rev, list_elem_of_In. exact Ha.
Qed.

(** The indices [l[:k]] of the descending ranking: distinct, in range,
    [min k n] of them for [k >= 0], and no index left out has a higher
    value than an index taken. *)
Lemma top_of_ranking (xs : list Q) (k : Z) :
  let top_idx := py_take k (rev (argsort xs)) in
  NoDup top_idx
  /\ (forall i, i ∈ top_idx -> (i < length xs)%nat)
  /\ ((0 <= k)%Z -> length top_idx = Nat.min (Z.to_nat k) (length xs))
  /\ (forall i j, i ∈ top_idx -> (j < length xs)%nat -> j ∉ top_idx ->
        nth j xs 0 <= nth i xs 0).
Proof.
  intros top_idx.
  assert (Hperm : Permutation (rev (argsort xs)) (seq 0 (length xs))).
  { rewrite <- Permutation_rev. apply argsort_perm. }
  assert (Hnd : NoDup (rev (argsort xs))).
  { rewrite Hperm. apply NoDup_seq. }
  assert (Hlen : length (rev (argsort xs)) = length xs).
  { rewrite Hperm. apply length_seq. }
  assert (Hsub : forall i, i ∈ top_idx -> i ∈ rev (argsort xs)).
  { intros i Hi. apply (subseteq_take (py_bound (length (rev (argsort xs))) k)).
    exact Hi. }
  split; [|split; [|split]].
  - apply (sublist_NoDup top_idx (rev (argsort xs))); [exact Hnd|apply sublist_take].
  - intros i Hi. apply Hsub in Hi. rewrite Hperm in Hi.
    apply elem_of_seq in Hi. lia.
  - intros Hk. unfold top_idx, py_take, py_bound.
    destruct (Z.ltb_spec k 0); [lia|].
    rewrite length_take, Hlen. lia.
  - intros i j Hi Hj Hout.
    assert (Hjin : j ∈ rev (argsort xs)).
    { rewrite Hperm. apply elem_of_seq. lia. }
    unfold top_idx, py_take in Hi, Hout.
    set (n := py_bound _ k) in *.
    rewrite <- (take_drop n (rev (argsort xs))) in Hjin.
    apply elem_of_app in Hjin as [Hjin|Hjin]; [contradiction|].
    apply Qle_bool_iff.
    apply (sorted_take_drop
             (fun a b => Qle_bool (nth b xs 0) (nth a xs 0) = true)
             (rev (argsort xs)) n i j); [|exact Hi|exact Hjin].
    apply (StronglySorted_rev
             (fun a b => Qle_bool (nth a xs 0) (nth b xs 0) = true)).
    apply sort_by_sorted;
      [intros a b; apply score_le_total|intros a b c; apply score_le_trans].
Qed.

(** *** Lexical normalization *)

Lemma match_nonempty {A B : Type} (l : list A) (d x : B) :
  l <> [] -> match l with [] => d | _ :: _ => x end = x.
Proof. destruct l; [congruence|reflexivity]. Qed.

(** C5, as stated, fails: with scores 0, 1 and 3 and [k_bm25 = 2], the
    chunk with score 1 is the lowest of the top two, so normalizing within
    the top two would give it 0; the code normalizes over all three scores
    and gives it [1 / (3 + EPS)]. *)
Lemma normalization_not_within_top_k :
  demo_bm25 (pkg_tokens pkg_three) (tokenize "q") = [0; 1; 3]
  /\ exists v v',
       (("physics", 1%Z), v) ∈ lexical_hits demo_bm25 "q" 2 (1 # 4) "physics" pkg_three
       /\ (("physics", 1%Z), v')
            ∈ spec_lexical_hits demo_bm25 "q" 2 (1 # 4) "physics" pkg_three
       /\ v == (1 # 4) * ((1 - 0) / (3 - 0 + EPS))
       /\ v' == 0
       /\ ~ v == v'.
Proof.
  split; [vm_compute; reflexivity|].
  exists ((1 # 4) * ((1 - 0) / (3 - 0 + EPS))), ((1 # 4) * ((1 - 1) / (3 - 1 + EPS))).
  split; [|split; [|split; [|split]]].
  - right. left.
  - right. left.
  - reflexivity.
  - reflexivity.
  - intros H. vm_compute in H. discriminate H.
Qed.

(** C5, amended. The raw lexical scores are min-max normalized over all
    the chunks of the namespace: the minimum and the maximum are the least
    and the greatest score of the whole array, each normalized score lies
    in [0, 1), and the entries added to [fused] are those of the [k_bm25]
    best-scored chunks, each worth [w_bm25] times its normalized score. *)
Theorem lexical_normalization_scope
    (bm25_get_scores : list (list string) -> list string -> list Q)
    (query : string) (k_bm25 : Z) (w_bm25 : Q) (cslug : string) (pkg : Bm25Pkg) :
  bm25_get_scores (pkg_tokens pkg) (tokenize query) <> [] ->
  exists mn mx top_idx,
    let scores := bm25_get_scores (pkg_tokens pkg) (tokenize query) in
    (mn ∈ scores /\ mx ∈ scores /\ forall s, s ∈ scores -> mn <= s <= mx)
    /\ NoDup top_idx
    /\ (forall i, i ∈ top_idx -> (i < length scores)%nat)
    /\ ((0 <= k_bm25)%Z ->
        length top_idx = Nat.min (Z.to_nat k_bm25) (length scores))
    /\ (forall i j, i ∈ top_idx -> (j < length scores)%nat -> j ∉ top_idx ->
          nth j scores 0 <= nth i scores 0)
    /\ lexical_hits bm25_get_scores query k_bm25 w_bm25 cslug pkg
       = map (fun i => ((cslug, Z.of_nat i),
                        w_bm25 * ((nth i scores 0 - mn) / (mx - mn + EPS))))
             top_idx
    /\ (forall i, i ∈ top_idx ->
          0 <= (nth i scores 0 - mn) / (mx - mn + EPS) < 1).
Proof.
  set (scores := bm25_get_scores (pkg_tokens pkg) (tokenize query)).
  intros Hne.
  destruct (q_min_spec scores Hne) as [Hmin_in Hmin].
  destruct (q_max_spec scores Hne) as [Hmax_in Hmax].
  destruct (top_of_ranking (minmax_norm scores) k_bm25)
    as (Hnd & Hrange & Hlen & Htop).
  rewrite minmax_norm_length in Hrange, Hlen, Htop.
  exists (q_min scores), (q_max scores),
         (py_take k_bm25 (rev (argsort (minmax_norm scores)))).
  cbn zeta. fold scores.
  split; [split; [exact Hmin_in|split; [exact Hmax_in|]]|].
  { intros s Hs. split; [apply Hmin|apply Hmax]; exact Hs. }
  split; [exact Hnd|]. split; [exact Hrange|]. split; [exact Hlen|].
  split; [|split].
  - intros i j Hi Hj Hout. specialize (Htop i j Hi Hj Hout).
    rewrite (minmax_norm_nth scores j Hj) in Htop.
    rewrite (minmax_norm_nth scores i (Hrange i Hi)) in Htop.
    eapply minmax_norm_order. exact Htop.
  - unfold lexical_hits. fold scores. rewrite (match_nonempty scores) by exact Hne.
    apply map_ext_in. intros i Hi. apply list_elem_of_In in Hi.
    rewrite (minmax_norm_nth scores i (Hrange i Hi)). reflexivity.
  - intros i Hi. apply minmax_norm_bounds.
    apply list_elem_of_In, nth_In, Hrange, Hi.
Qed.

Lemma lexical_normalization_scope_witness :
  exists mn mx top_idx,
    lexical_hits demo_bm25 "q" 2 (1 # 4) "physics" pkg_three
    = map (fun i => (("physics", Z.of_nat i),
                     (1 # 4) * ((nth i (demo_bm25 (pkg_tokens pkg_three) (tokenize "q")) 0
                                 - mn) / (mx - mn + EPS))))
          top_idx.
Proof.
  destruct (lexical_normalization_scope demo_bm25 "q" 2 (1 # 4) "physics" pkg_three)
    as (mn & mx & top_idx & _ & _ & _ & _ & _ & Hhits & _).
  - vm_compute. discriminate.
  - exists mn, mx, top_idx. exact Hhits.
Defined.

(** *** Fusion *)

Lemma StronglySorted_weaken {A : Type} (R R' : A -> A -> Prop) (l : list A) :
  (forall a b, R a b -> R' a b) -> StronglySorted R l -> StronglySorted R' l.
Proof.
  intros Himp. induction 1 as [|x l Hs IH Hall]; constructor; [exact IH|].
  eapply Forall_impl; [exact Hall|]. intros b. apply Himp.
Qed.

Lemma StronglySorted_sublist {A : Type} (R : A -> A -> Prop) (l1 l2 : list A) :
  l1 `sublist_of` l2 -> StronglySorted R l2 -> StronglySorted R l1.
Proof.
  intros Hsub Hs. revert l1 Hsub.
  induction Hs as [|x l2 Hs IH Hall]; intros l1 Hsub.
  - apply sublist_nil_r in Hsub as ->. constructor.
  - inversion Hsub as [|y k1 k2 Hk|y k1 k2 Hk]; subst.
    + constructor; [apply IH; exact Hk|].
      rewrite Forall_forall in Hall |- *. intros z Hz.
      apply Hall. eapply elem_of_sublist; eassumption.
    + apply IH. exact Hk.
Qed.

Section FusionFacts.
Variable bm25_get_scores : list (list string) -> list string -> list Q.
Variable similarity_search :
  list Document -> string -> Z -> result (list (Document * Q)).
Variable chroma_unavailable : string -> bool.
Variable st : Store.
Variable query : string.
Variables k_final k_bm25 k_embed : Z.
Variables w_bm25 w_emb : Q.

(** What the vector loop adds for a chunk id is what the hits carrying
    that id are worth. *)
Lemma vector_entries_total cslug (cid : Z) pairs : forall entries s,
  (0 <= cid)%Z ->
  vector_entries w_emb cslug pairs = Ok entries ->
  contrib_total (cslug, cid) entries s
  = sum_where
      (fun p : Document * Q * Q =>
         bool_decide (metadata (fst (fst p)) !! "chunk_id" = Some (MInt cid)))
      (fun p => w_emb * snd p) pairs s.
Proof.
  unfold contrib_total, sum_where.
  induction pairs as [|[[doc s0] sc] pairs IH]; intros entries s Hcid;
    cbn [vector_entries].
  - intros [= <-]. reflexivity.
  - destruct (py_int (default (MInt (-1)) (metadata doc !! "chunk_id")))
      as [c|] eqn:Hint; step_bind; [|discriminate].
    destruct (vector_entries w_emb cslug pairs) as [more|] eqn:Hmore;
      step_bind; [|discriminate].
    intros [= <-]. cbn [fold_left fst snd].
    assert (Hc : default (MInt (-1)) (metadata doc !! "chunk_id") = MInt c).
    { destruct (default _ _); cbn in Hint; congruence. }
    destruct (Z.leb_spec 0 c) as [Hpos|Hneg]; cbn [fold_left fst snd].
    + rewrite (IH more) by (assumption || reflexivity). f_equal.
      destruct (decide (c = cid)) as [->|Hne].
      * rewrite bool_decide_eq_true_2 by reflexivity.
        rewrite bool_decide_eq_true_2; [reflexivity|].
        destruct (metadata doc !! "chunk_id"); cbn in Hc; [congruence|].
        injection Hc as Hc. lia.
      * rewrite bool_decide_eq_false_2 by congruence.
        rewrite bool_decide_eq_false_2; [reflexivity|].
        intros Hid. rewrite Hid in Hc. cbn in Hc. congruence.
    + rewrite (IH more) by (assumption || reflexivity). f_equal.
      rewrite bool_decide_eq_false_2; [reflexivity|].
      intros Hid. rewrite Hid in Hc. cbn in Hc. injection Hc as Hc. lia.
Qed.

(** The assembly keeps the ranked order and may only leave entries out. *)
Lemma assemble_scores acc best : forall out,
  assemble similarity_search query acc best = Ok out ->
  res_score <$> out `sublist_of` (snd <$> best).
Proof.
  induction best as [|[[cslug idx] score] best IH]; intros out;
    cbn [assemble].
  - intros [= <-]. constructor.
  - destruct (resolve similarity_search query acc cslug idx) as [[[text meta]|]|];
      step_bind; [| |discriminate].
    + destruct (py_int _) as [hdr_len|]; step_bind; [|discriminate].
      destruct (assemble similarity_search query acc best) as [more|];
        step_bind; [|discriminate].
      intros [= <-]. cbn. apply sublist_skip, IH. reflexivity.
    + intros Hrest. cbn. apply sublist_cons, IH. exact Hrest.
Qed.

(** C4, amended. Additivity: when a namespace is visited for the first
    time, a chunk that is in its lexical top-k and is the chunk of
    exactly one vector hit gets the fused score
    [w_bm25 * lexical_norm + w_emb * vector_norm]. That sum is strictly
    greater than the one-signal score exactly when the other signal's
    weighted normalized score is positive (the lowest hit of a list
    normalizes to 0), and not smaller for non-negative weights.
    Global merge: the result is assembled from the first [k_final]
    entries of the pool of all [(namespace, chunk_id)] entries sorted
    descending by fused score, so its scores are descending and, for
    [k_final >= 0], there are at most [k_final] results. *)
Theorem fusion_additive_and_merge :
  (forall acc name pkg hits acc' i j doc s,
     bm25_db st !! slug name = Some pkg ->
     chroma_unavailable (slug name) = false ->
     similarity_search (ns_docs st (slug name)) query k_embed = Ok hits ->
     search_namespace bm25_get_scores similarity_search chroma_unavailable
       st query k_bm25 k_embed w_bm25 w_emb acc name = Ok acc' ->
     fused_get (fused acc) (slug name, Z.of_nat i) = None ->
     let bm_norm := minmax_norm (bm25_get_scores (pkg_tokens pkg) (tokenize query)) in
     let emb_norm := minmax_norm (map snd hits) in
     i ∈ py_take k_bm25 (rev (argsort bm_norm)) ->
     hits !! j = Some (doc, s) ->
     metadata doc !! "chunk_id" = Some (MInt (Z.of_nat i)) ->
     (forall j' doc' s', hits !! j' = Some (doc', s') ->
        metadata doc' !! "chunk_id" = Some (MInt (Z.of_nat i)) -> j' = j) ->
     let a := w_bm25 * nth i bm_norm 0 in
     let b := w_emb * nth j emb_norm 0 in
     score_of (fused acc') (slug name, Z.of_nat i) == a + b
     /\ (a < a + b <-> 0 < b)
     /\ (b < a + b <-> 0 < a)
     /\ (0 <= w_bm25 -> 0 <= w_emb -> a <= a + b /\ b <= a + b))
  /\ (forall courses out,
        hybrid_search bm25_get_scores similarity_search chroma_unavailable
          st query k_final k_bm25 k_embed w_bm25 w_emb courses = Ok out ->
        exists acc,
          search_loop bm25_get_scores similarity_search chroma_unavailable
            st query k_bm25 k_embed w_bm25 w_emb search_init courses = Ok acc
          /\ Permutation (sorted_desc (fused acc)) (fused acc)
          /\ StronglySorted (fun x y => snd y <= snd x) (sorted_desc (fused acc))
          /\ res_score <$> out
               `sublist_of` (snd <$> py_take k_final (sorted_desc (fused acc)))
          /\ StronglySorted (fun x y => y <= x) (res_score <$> out)
          /\ ((0 <= k_final)%Z -> (length out <= Z.to_nat k_final)%nat)).
Proof.
  split.
  - intros acc name pkg hits acc' i j doc s Hpkg Hvs Hhits Hstep Hfresh
      bm_norm emb_norm Hi Hj Hid Huniq a b.
    set (cslug := slug name) in *.
    unfold search_namespace in Hstep. fold cslug in Hstep.
    rewrite Hpkg, Hvs, Hhits in Hstep. step_bind_in Hstep.
    destruct (vector_hits w_emb cslug hits) as [entries|] eqn:Hv;
      step_bind_in Hstep; [|discriminate].
    injection Hstep as <-. cbn [fused].
    rewrite !score_of_add_all.
    assert (H0 : score_of (fused acc) (cslug, Z.of_nat i) = 0)
      by (unfold score_of; rewrite Hfresh; reflexivity).
    rewrite H0.
    destruct (top_of_ranking bm_norm k_bm25) as (Hnd & Hrange & _ & _).
    pose proof (Hrange i Hi) as Hilt.
    unfold bm_norm in Hilt. rewrite minmax_norm_length in Hilt.
    assert (Hjlt : (j < length (map snd hits))%nat).
    { rewrite length_map. eapply lookup_lt_Some. exact Hj. }
    assert (Hlex : contrib_total (cslug, Z.of_nat i)
                     (lexical_hits bm25_get_scores query k_bm25 w_bm25 cslug pkg) 0
                   = 0 + a).
    { unfold lexical_hits.
      rewrite match_nonempty
        by (intros E; rewrite E in Hilt; cbn in Hilt; lia).
      fold bm_norm.
      pose proof Hi as Hi'. apply list_elem_of_lookup in Hi' as [p Hp].
      unfold contrib_total.
      apply (sum_where_unique
               (fun kx : fused_key * Q => bool_decide (fst kx = (cslug, Z.of_nat i)))
               snd _ p ((cslug, Z.of_nat i), a)).
      - rewrite list_lookup_fmap, Hp. reflexivity.
      - apply bool_decide_eq_true_2. reflexivity.
      - intros p' [k' x'] Hp' Hk'. rewrite list_lookup_fmap in Hp'.
        destruct (py_take k_bm25 (rev (argsort bm_norm)) !! p')
          as [i'|] eqn:E; [|discriminate].
        injection Hp' as <- <-. apply bool_decide_eq_true_1 in Hk'.
        cbn in Hk'. injection Hk' as Hk'. apply Nat2Z.inj in Hk'. subst i'.
        eapply NoDup_lookup; eassumption. }
    assert (Hvec : forall s0,
              contrib_total (cslug, Z.of_nat i) entries s0 = s0 + b).
    { intros s0. unfold vector_hits in Hv.
      rewrite match_nonempty in Hv by (intros E; rewrite E in Hj; discriminate).
      fold emb_norm in Hv.
      rewrite (vector_entries_total cslug (Z.of_nat i) _ entries s0
                 ltac:(lia) Hv).
      destruct (lookup_lt_is_Some_2 emb_norm j) as [e He].
      { unfold emb_norm. rewrite minmax_norm_length. exact Hjlt. }
      unfold b. rewrite (nth_lookup_Some _ _ 0 _ He).
      apply (sum_where_unique
               (fun p : Document * Q * Q =>
                  bool_decide (metadata (fst (fst p)) !! "chunk_id"
                               = Some (MInt (Z.of_nat i))))
               (fun p => w_emb * snd p) _ j ((doc, s), e)).
      - rewrite (lookup_zip_with pair hits emb_norm j), Hj, He. reflexivity.
      - apply bool_decide_eq_true_2. exact Hid.
      - intros j' [[doc' s'] sc'] Hj' Hk'.
        apply lookup_zip_with_Some in Hj' as (x & y & Hxy & Hx & _).
        injection Hxy as <- <-. apply bool_decide_eq_true_1 in Hk'.
        cbn in Hk'. eapply Huniq; eassumption. }
    rewrite Hlex, Hvec.
    split; [ring|]. split; [split; intros; lra|]. split; [split; intros; lra|].
    intros Hwb Hwe.
    assert (Ha : 0 <= a).
    { unfold a. apply Qmult_le_0_compat; [exact Hwb|].
      unfold bm_norm. rewrite minmax_norm_nth by exact Hilt.
      apply minmax_norm_bounds, list_elem_of_In, nth_In, Hilt. }
    assert (Hb : 0 <= b).
    { unfold b. apply Qmult_le_0_compat; [exact Hwe|].
      unfold emb_norm. rewrite minmax_norm_nth by exact Hjlt.
      apply minmax_norm_bounds, list_elem_of_In, nth_In, Hjlt. }
    split; lra.
  - intros courses out Hs. unfold hybrid_search in Hs.
    destruct (search_loop _ _ _ _ _ _ _ _ _ _ courses) as [acc|] eqn:Hloop;
      step_bind_in Hs; [|discriminate].
    exists acc. split; [reflexivity|].
    assert (Hsorted : StronglySorted (fun x y : fused_key * Q => snd y <= snd x)
                        (sorted_desc (fused acc))).
    { eapply StronglySorted_weaken;
        [|apply sort_by_sorted; cbn beta].
      - intros x y Hxy. apply Qle_bool_iff. exact Hxy.
      - intros x y. rewrite !Qle_bool_iff.
        destruct (Qlt_le_dec (snd x) (snd y)); [right; lra|left; lra].
      - intros x y z. rewrite !Qle_bool_iff. lra. }
    assert (Hsub : res_score <$> out
                     `sublist_of` (snd <$> py_take k_final (sorted_desc (fused acc)))).
    { destruct (fused acc) as [|e0 f0] eqn:Hf.
      - injection Hs as <-. apply sublist_nil_l.
      - rewrite <- Hf in *. eapply assemble_scores. exact Hs. }
    split; [apply sort_by_perm|]. split; [exact Hsorted|].
    split; [exact Hsub|]. split.
    + eapply StronglySorted_sublist; [exact Hsub|].
      apply (StronglySorted_fmap snd (fun x y : fused_key * Q => snd y <= snd x));
        [tauto|].
      unfold py_take.
      eapply StronglySorted_app_1_l. rewrite take_drop. exact Hsorted.
    + intros Hk. apply sublist_length in Hsub.
      rewrite !length_fmap in Hsub. unfold py_take, py_bound in Hsub.
      destruct (Z.ltb_spec k_final 0); [lia|].
      rewrite length_take in Hsub. lia.
Qed.
End FusionFacts.

(** C4, as stated, fails on "strictly greater": chunk 0 of ["Math 101"] is
    in the lexical top-k and is a vector hit, but it is the lowest-scored
    hit, its normalized vector score is 0, and its fused score equals its
    lexical-only score. The two side conditions of the amended statement
    are needed as well: a namespace listed twice in [courses] adds its
    entries twice, and a negative [k_final] is a slice from the end, which
    returns more than [k_final] results. *)
Lemma fusion_not_strictly_greater :
  let ns := slug "Math 101" in
  let a := (1 # 4) * ((1 - 0) / (1 - 0 + EPS)) in
  let b := (3 # 4) * ((0 - 0) / (1 - 0 + EPS)) in
  (exists pkg,
     bm25_db store_after_ab !! ns = Some pkg
     /\ lexical_hits demo_bm25 "hello" 20 (1 # 4) ns pkg !! 0%nat
        = Some ((ns, 0%Z), a))
  /\ (exists hits entries,
        demo_similarity (ns_docs store_after_ab ns) "hello" 12 = Ok hits
        /\ vector_hits (3 # 4) ns hits = Ok entries
        /\ entries !! 0%nat = Some ((ns, 0%Z), b))
  /\ (exists acc,
        search_loop demo_bm25 demo_similarity chroma_ok store_after_ab "hello"
          20 12 (1 # 4) (3 # 4) search_init [CList ["Math 101"]] = Ok acc
        /\ score_of (fused acc) (ns, 0%Z) == a + b
        /\ ~ a < score_of (fused acc) (ns, 0%Z))
  /\ (exists acc1 acc2,
        search_loop demo_bm25 demo_similarity chroma_ok store_after_ab "hello"
          20 12 (1 # 4) (3 # 4) search_init [CList ["Math 101"]] = Ok acc1
        /\ search_loop demo_bm25 demo_similarity chroma_ok store_after_ab "hello"
             20 12 (1 # 4) (3 # 4) search_init
             [CList ["Math 101"]; CList ["Math 101"]] = Ok acc2
        /\ ~ score_of (fused acc2) (ns, 1%Z) == score_of (fused acc1) (ns, 1%Z))
  /\ (exists out,
        hybrid_search demo_bm25 demo_similarity chroma_ok store_three "q"
          (-1) 20 12 (1 # 4) (3 # 4) [CList ["physics"]] = Ok out
        /\ (-1 < Z.of_nat (length out))%Z).
Proof.
  cbv zeta. split; [|split; [|split; [|split]]].
  - eexists. split; [vm_compute; reflexivity|]. vm_compute. reflexivity.
  - eexists _, _. split; [vm_compute; reflexivity|].
    split; [vm_compute; reflexivity|]. vm_compute. reflexivity.
  - eexists. split; [vm_compute; reflexivity|].
    split; [vm_compute; reflexivity|]. vm_compute. discriminate.
  - eexists _, _. split; [vm_compute; reflexivity|].
    split; [vm_compute; reflexivity|]. vm_compute. discriminate.
  - eexists. split; [vm_compute; reflexivity|]. vm_compute. reflexivity.
Qed.

Lemma fusion_additive_and_merge_witness :
  exists pkg (hits : list (Document * Q)) acc',
    score_of (fused acc') (slug "Math 101", Z.of_nat 1)
    == (1 # 4) * nth 1 (minmax_norm (demo_bm25 (pkg_tokens pkg) (tokenize "hello"))) 0
       + (3 # 4) * nth 1 (minmax_norm (map snd hits)) 0.
Proof.
  do 3 eexists.
  eapply (proj1 (fusion_additive_and_merge demo_bm25 demo_similarity chroma_ok
                   store_after_ab "hello" 5 20 12 (1 # 4) (3 # 4))
            search_init "Math 101").
  - vm_compute. reflexivity.
  - reflexivity.
  - vm_compute. reflexivity.
  - vm_compute. reflexivity.
  - reflexivity.
  - vm_compute. right. left.
  - vm_compute. reflexivity.
  - vm_compute. reflexivity.
  - intros [|[|j']] doc' s' Hj' Hid'.
    + vm_compute in Hj'. injection Hj' as <- _. vm_compute in Hid'. discriminate Hid'.
    + reflexivity.
    + vm_compute in Hj'. discriminate Hj'.
Defined.

(** ** Worked examples *)

Example chunk_text_fixed_overlap :
  chunk_text_fixed "abcdefghijk" 4 1 = Ok ["abcd"; "defg"; "ghij"; "jk"].
Proof. vm_compute. reflexivity. Qed.

Example chunk_text_fixed_rejects_overlap :
  chunk_text_fixed "abcdefghijk" 4 4 = Raise AssertionError.
Proof. reflexivity. Qed.

(** A 2500-character body under the default parameters: three windows,
    of 1000, 1000 and 900 characters. *)
Example chunk_text_fixed_2500 :
  match chunk_text_fixed (string_of_list_ascii (repeat "a"%char 2500))
          CHUNK_SIZE CHUNK_OVERLAP with
  | Ok chunks => map String.length chunks
  | Raise _ => []
  end = [1000; 1000; 900]%nat.
Proof. vm_compute. reflexivity. Qed.

Example slug_course_name : slug "  CENG 351: Intro__x " = "ceng_351_intro_x".
Proof. vm_compute. reflexivity. Qed.

Example tokenize_query : tokenize "Hello, wor_ld! 42" = ["hello"; "wor_ld"; "42"].
Proof. vm_compute. reflexivity. Qed.

Example preview_skips_header :
  preview_of (build_header rec_a +:+ "hello world")
    (Z.of_nat (String.length (build_header rec_a)))
  = "hello world...".
Proof. vm_compute. reflexivity. Qed.

(* ===================================================================== *)
(** * Part III: further properties of the code                            *)
(* ===================================================================== *)

Local Close Scope Q_scope.

(** ** Namespace slugs *)

Lemma underscore_not_slug_char : is_slug_char "_" = false.
Proof. reflexivity. Qed.

Lemma sub_runs_separated b l : separated b (sub_runs b l) = true.
Proof.
  revert b. induction l as [|c l IH]; intros b; cbn [sub_runs]; [reflexivity|].
  destruct (is_slug_char c) eqn:Hc.
  - cbn [separated]. rewrite Hc. apply IH.
  - destruct b; [apply IH|].
    cbn [separated]. rewrite underscore_not_slug_char, IH. reflexivity.
Qed.

Lemma sub_runs_fixed b l : separated b l = true -> sub_runs b l = l.
Proof.
  revert b. induction l as [|c l IH]; intros b; cbn [sub_runs separated];
    [reflexivity|].
  destruct (is_slug_char c).
  - intros H. rewrite (IH false H). reflexivity.
  - intros H. apply andb_prop in H as [H Hrest]. apply andb_prop in H as [Hc Hb].
    apply Ascii.eqb_eq in Hc as ->. destruct b; [discriminate|].
    rewrite (IH true Hrest). reflexivity.
Qed.

Lemma separated_weaken b l : separated b l = true -> separated false l = true.
Proof.
  destruct l as [|c l]; [reflexivity|]. cbn [separated].
  destruct (is_slug_char c); [tauto|].
  intros H. apply andb_prop in H as [H Hrest]. apply andb_prop in H as [Hc _].
  rewrite Hc, Hrest. reflexivity.
Qed.

Lemma separated_suffix b l1 l2 :
  separated b (l1 ++ l2) = true -> separated false l2 = true.
Proof.
  revert b. induction l1 as [|c l1 IH]; intros b; cbn [app].
  - apply separated_weaken.
  - cbn [separated]. destruct (is_slug_char c); [apply IH|].
    intros H. apply andb_prop in H as [_ Hrest]. eapply IH. exact Hrest.
Qed.

Lemma separated_prefix b l1 l2 :
  separated b (l1 ++ l2) = true -> separated b l1 = true.
Proof.
  revert b. induction l1 as [|c l1 IH]; intros b; cbn [app separated];
    [reflexivity|].
  destruct (is_slug_char c); [apply IH|].
  intros H. apply andb_prop in H as [H Hrest]. rewrite H. cbn. eapply IH, Hrest.
Qed.

Lemma separated_chars b l c :
  separated b l = true -> c ∈ l -> is_slug_char c = true \/ c = "_"%char.
Proof.
  revert b. induction l as [|d l IH]; intros b Hs Hc; [inversion Hc|].
  cbn [separated] in Hs. apply elem_of_cons in Hc as [->|Hc].
  - destruct (is_slug_char d); [left; reflexivity|right].
    apply andb_prop in Hs as [H _]. apply andb_prop in H as [H _].
    apply Ascii.eqb_eq, H.
  - destruct (is_slug_char d); [eapply IH; eassumption|].
    apply andb_prop in Hs as [_ Hrest]. eapply IH; eassumption.
Qed.

(** [lstrip] drops a prefix and leaves no underscore in front. *)
Lemma lstrip_underscore_suffix l : exists pre, l = pre ++ lstrip_underscore l.
Proof.
  induction l as [|c l [pre IH]]; cbn [lstrip_underscore]; [exists []; reflexivity|].
  destruct (Ascii.eqb c "_"); [|exists []; reflexivity].
  exists (c :: pre). cbn. f_equal. exact IH.
Qed.

Lemma lstrip_underscore_head l : head (lstrip_underscore l) <> Some "_"%char.
Proof.
  induction l as [|c l IH]; cbn [lstrip_underscore]; [discriminate|].
  destruct (Ascii.eqb c "_") eqn:Hc; [exact IH|].
  cbn. intros [= ->]. discriminate.
Qed.

Lemma lstrip_underscore_fixed l :
  head l <> Some "_"%char -> lstrip_underscore l = l.
Proof.
  destruct l as [|c l]; [reflexivity|]. cbn. intros Hc.
  destruct (Ascii.eqb c "_") eqn:E; [|reflexivity].
  apply Ascii.eqb_eq in E as ->. congruence.
Qed.

Lemma head_rev {A : Type} (l : list A) : head (rev l) = last l.
Proof.
  induction l as [|x l IH] using rev_ind; [reflexivity|].
  rewrite rev_app_distr, last_snoc. reflexivity.
Qed.

Lemma last_rev {A : Type} (l : list A) : last (rev l) = head l.
Proof. rewrite <- head_rev, rev_involutive. reflexivity. Qed.

Lemma strip_underscore_fixed l :
  head l <> Some "_"%char -> last l <> Some "_"%char -> strip_underscore l = l.
Proof.
  intros Hh Hl. unfold strip_underscore.
  rewrite (lstrip_underscore_fixed l Hh).
  rewrite lstrip_underscore_fixed by (rewrite head_rev; exact Hl).
  apply rev_involutive.
Qed.

(** [strip] returns a middle part of its argument with no underscore at
    either end. *)
Lemma strip_underscore_shape l :
  (exists pre post, l = pre ++ strip_underscore l ++ post)
  /\ head (strip_underscore l) <> Some "_"%char
  /\ last (strip_underscore l) <> Some "_"%char.
Proof.
  unfold strip_underscore.
  destruct (lstrip_underscore_suffix l) as [pre Hpre].
  set (m := lstrip_underscore l) in *.
  destruct (lstrip_underscore_suffix (rev m)) as [post Hpost].
  set (x := lstrip_underscore (rev m)) in *.
  assert (Hm : m = rev x ++ rev post).
  { rewrite <- rev_app_distr, <- Hpost, rev_involutive. reflexivity. }
  split; [|split].
  - exists pre, (rev post). rewrite <- Hm. exact Hpre.
  - rewrite head_rev. clearbody x.
    destruct x as [|c x0 _] using rev_ind; [discriminate|].
    rewrite last_snoc. intros [= ->].
    assert (Hlast : last (rev m) = Some "_"%char).
    { rewrite Hpost, app_assoc, last_snoc. reflexivity. }
    rewrite last_rev in Hlast.
    apply (lstrip_underscore_head l). exact Hlast.
  - rewrite last_rev. apply lstrip_underscore_head.
Qed.

Lemma slug_char_not_upper c : is_slug_char c = true -> is_upper c = false.
Proof.
  destruct c as [[] [] [] [] [] [] [] []]; intros H;
    first [reflexivity | discriminate H].
Qed.

Lemma lower_ascii_fixed c :
  is_slug_char c = true \/ c = "_"%char -> lower_ascii c = c.
Proof.
  intros [H| ->]; [|reflexivity].
  unfold lower_ascii. rewrite (slug_char_not_upper c H). reflexivity.
Qed.

Lemma slug_chars_shape s :
  separated false (slug_chars s) = true
  /\ head (slug_chars s) <> Some "_"%char
  /\ last (slug_chars s) <> Some "_"%char.
Proof.
  unfold slug_chars.
  set (l := sub_runs false (list_ascii_of_string (lower s))).
  destruct (strip_underscore_shape l) as ((pre & post & Hl) & Hh & Hla).
  split; [|split; assumption].
  pose proof (sub_runs_separated false (list_ascii_of_string (lower s))) as Hs.
  fold l in Hs. rewrite Hl in Hs.
  apply separated_suffix in Hs. eapply separated_prefix. exact Hs.
Qed.

Lemma separated_no_double b l i :
  separated b l = true ->
  l !! i = Some "_"%char -> l !! S i <> Some "_"%char.
Proof.
  revert b i. induction l as [|c l IH]; intros b i Hs Hi; [inversion Hi|].
  cbn [separated] in Hs. destruct i as [|i].
  - injection Hi as ->. rewrite underscore_not_slug_char in Hs.
    apply andb_prop in Hs as [_ Hrest]. cbn.
    destruct l as [|d l]; [discriminate|]. cbn. intros [= ->].
    cbn [separated] in Hrest. rewrite underscore_not_slug_char in Hrest.
    discriminate Hrest.
  - cbn in Hi |- *. destruct (is_slug_char c); [eapply IH; eassumption|].
    apply andb_prop in Hs as [_ Hrest]. eapply IH; eassumption.
Qed.

(** X1. A slug holds only lower-case letters, digits and underscores, never
    two underscores in a row, and no underscore at either end. *)
Theorem slug_shape (s : string) :
  (forall c, c ∈ list_ascii_of_string (slug s) ->
             is_lower c = true \/ is_digit c = true \/ c = "_"%char)
  /\ (forall i, list_ascii_of_string (slug s) !! i = Some "_"%char ->
                list_ascii_of_string (slug s) !! S i <> Some "_"%char)
  /\ head (list_ascii_of_string (slug s)) <> Some "_"%char
  /\ last (list_ascii_of_string (slug s)) <> Some "_"%char.
Proof.
  assert (Hchars : list_ascii_of_string (slug s) = slug_chars s).
  { unfold slug. fold (slug_chars s). apply list_ascii_of_string_of_list_ascii. }
  rewrite Hchars. destruct (slug_chars_shape s) as (Hsep & Hh & Hl).
  split; [|split; [|split; assumption]].
  - intros c Hc. destruct (separated_chars _ _ _ Hsep Hc) as [H|H]; [|tauto].
    unfold is_slug_char in H. apply orb_prop in H. tauto.
  - intros i. apply (separated_no_double false). exact Hsep.
Qed.

(** X2. [slug] is idempotent: a slug is its own slug, so a stored
    namespace name is found again under the same name. *)
Theorem slug_idempotent (s : string) : slug (slug s) = slug s.
Proof.
  destruct (slug_chars_shape s) as (Hsep & Hh & Hl).
  assert (Hchars : list_ascii_of_string (slug s) = slug_chars s).
  { unfold slug. fold (slug_chars s). apply list_ascii_of_string_of_list_ascii. }
  assert (Hmap : map lower_ascii (slug_chars s) = slug_chars s).
  { rewrite <- (map_id (slug_chars s)) at 2. apply map_ext_in.
    intros c Hc. apply lower_ascii_fixed.
    eapply separated_chars; [exact Hsep|]. apply list_elem_of_In. exact Hc. }
  unfold slug at 1. unfold lower.
  rewrite Hchars, Hmap, list_ascii_of_string_of_list_ascii.
  rewrite (sub_runs_fixed false _ Hsep), (strip_underscore_fixed _ Hh Hl).
  reflexivity.
Qed.

(** ** Tokens *)

Lemma lower_ascii_not_upper c : is_upper (lower_ascii c) = false.
Proof. destruct c as [[] [] [] [] [] [] [] []]; reflexivity. Qed.

Lemma findall_words_tokens (P : ascii -> Prop) l : forall cur t,
  Forall P l -> Forall P cur ->
  Forall (fun c => is_word_char c = true) cur ->
  t ∈ findall_words cur l ->
  t <> ""
  /\ Forall (fun c => is_word_char c = true /\ P c) (list_ascii_of_string t).
Proof.
  assert (Hflush : forall cur t,
            Forall P cur -> Forall (fun c => is_word_char c = true) cur ->
            cur <> [] -> t = string_of_list_ascii (rev cur) ->
            t <> "" /\
            Forall (fun c => is_word_char c = true /\ P c) (list_ascii_of_string t)).
  { intros cur t HP HW Hne ->. split.
    - intros H. apply (f_equal list_ascii_of_string) in H.
      rewrite list_ascii_of_string_of_list_ascii in H. cbn in H.
      apply (f_equal (@rev ascii)) in H. rewrite rev_involutive in H. auto.
    - rewrite list_ascii_of_string_of_list_ascii.
      apply Forall_forall. intros c Hc.
      apply list_elem_of_In, in_rev, list_elem_of_In in Hc.
      rewrite Forall_forall in HP, HW. auto. }
  induction l as [|c l IH]; intros cur t HPl HPc HWc Ht; cbn [findall_words] in Ht.
  - destruct cur as [|c0 cur]; [inversion Ht|].
    apply list_elem_of_singleton in Ht. eapply Hflush; eauto; discriminate.
  - apply Forall_cons in HPl as [HPc0 HPl].
    destruct (is_word_char c) eqn:Hc.
    + eapply (IH (c :: cur)); eauto.
    + destruct cur as [|c0 cur]; [eapply (IH []); eauto|].
      apply elem_of_cons in Ht as [Ht|Ht]; [|eapply (IH []); eauto].
      eapply Hflush; eauto; discriminate.
Qed.

(** X3. Every token [tokenize] returns is non-empty and made of word
    characters only, none of them an upper-case letter; a text with no word
    character has no token. *)
Theorem tokenize_tokens (s : string) :
  (forall t, t ∈ tokenize s ->
     t <> ""
     /\ forall c, c ∈ list_ascii_of_string t ->
                  is_word_char c = true /\ is_upper c = false)
  /\ ((forall c, c ∈ list_ascii_of_string s -> is_word_char (lower_ascii c) = false) ->
      tokenize s = []).
Proof.
  split.
  - intros t Ht. unfold tokenize, lower in Ht.
    rewrite list_ascii_of_string_of_list_ascii in Ht.
    destruct (findall_words_tokens (fun c => is_upper c = false)
                (map lower_ascii (list_ascii_of_string s)) [] t) as [Hne Hall];
      [|apply Forall_nil_2|apply Forall_nil_2|exact Ht|].
    + apply Forall_forall. intros c Hc.
      apply list_elem_of_fmap in Hc as (c0 & -> & _). apply lower_ascii_not_upper.
    + split; [exact Hne|]. rewrite Forall_forall in Hall. exact Hall.
  - intros Hnone. unfold tokenize, lower.
    rewrite list_ascii_of_string_of_list_ascii.
    induction (list_ascii_of_string s) as [|c l IH]; [reflexivity|].
    cbn [map findall_words]. rewrite (Hnone c) by left.
    apply IH. intros d Hd. apply Hnone. right. exact Hd.
Qed.

(** ** More on the chunker *)

Lemma substring_zero_length (s : string) (i : nat) : substring i 0 s = "".
Proof.
  revert i. induction s as [|c s IH]; intros [|i]; cbn [substring];
    try reflexivity. apply IH.
Qed.

Lemma substring_full (s : string) : substring 0 (String.length s) s = s.
Proof. induction s as [|c s IH]; cbn; [reflexivity|]. rewrite IH. reflexivity. Qed.

Lemma substring_empty (i m : nat) : substring i m "" = "".
Proof. destruct i, m; reflexivity. Qed.

Lemma substring_split (s : string) (i a b : nat) :
  substring i (a + b) s = substring i a s +:+ substring (i + a) b s.
Proof.
  revert i a. induction s as [|c s IH]; intros i a.
  - rewrite !substring_empty. reflexivity.
  - destruct i as [|i].
    + destruct a as [|a]; [reflexivity|].
      cbn [substring Nat.add String.append]. rewrite (IH 0 a). reflexivity.
    + cbn [substring Nat.add]. apply IH.
Qed.

Lemma substring_of_substring (s : string) (i n m : nat) :
  n <= m -> substring 0 n (substring i m s) = substring i n s.
Proof.
  revert i n m. induction s as [|c s IH]; intros i n m Hnm.
  - rewrite !substring_empty. reflexivity.
  - destruct i as [|i]; [|cbn [substring]; apply IH; exact Hnm].
    destruct n as [|n]; [rewrite !substring_zero_length; reflexivity|].
    destruct m as [|m]; [lia|].
    cbn [substring]. rewrite (IH 0 n m) by lia. reflexivity.
Qed.

Section ChunkLoopMore.
Variable text : string.
Variables size step : nat.
Hypothesis step_pos : 0 < step.
Hypothesis step_le_size : step <= size.

(** From position [i] on, the chunks put together give back the rest of
    the text. *)
Lemma unchunk_chunk_loop (m : nat) : forall i,
  String.length text - i <= m ->
  unchunk step (chunk_loop text size step step_pos i)
  = substring i (String.length text - i) text.
Proof.
  induction m as [|m IH]; intros i Hm; rewrite chunk_loop_step.
  - destruct (lt_dec i (String.length text)); [lia|].
    replace (String.length text - i) with 0 by lia.
    rewrite substring_zero_length. reflexivity.
  - destruct (lt_dec i (String.length text)) as [Hlt|Hge].
    + destruct (Nat.eq_dec (Nat.min (i + size) (String.length text))
                  (String.length text)) as [Hend|Hmore].
      * cbn [unchunk]. rewrite Hend. reflexivity.
      * assert (Hnext : i + step < String.length text) by lia.
        specialize (IH (i + step) ltac:(lia)).
        rewrite chunk_loop_step in IH |- *.
        destruct (lt_dec (i + step) (String.length text)); [|lia].
        destruct (Nat.eq_dec (Nat.min (i + step + size) (String.length text))
                    (String.length text)).
        -- cbn [unchunk] in IH |- *. rewrite IH. unfold str_slice.
           replace (Nat.min (i + size) (String.length text) - i) with size by lia.
           rewrite substring_of_substring by exact step_le_size.
           rewrite <- substring_split. f_equal. lia.
        -- cbn [unchunk] in IH |- *. rewrite IH. unfold str_slice.
           replace (Nat.min (i + size) (String.length text) - i) with size by lia.
           rewrite substring_of_substring by exact step_le_size.
           rewrite <- substring_split. f_equal. lia.
    + replace (String.length text - i) with 0 by lia.
      rewrite substring_zero_length. reflexivity.
Qed.
End ChunkLoopMore.

(** X4. The chunker loses nothing: for [0 <= overlap < size], the first
    [size - overlap] characters of every chunk but the last, followed by
    the last chunk, are the text. *)
Theorem chunk_text_fixed_lossless (text : string) (size overlap : Z) :
  (0 <= overlap < size)%Z ->
  exists chunks,
    chunk_text_fixed text size overlap = Ok chunks
    /\ unchunk (Z.to_nat (size - overlap)) chunks = text.
Proof.
  intros [Hlo Hhi]. unfold chunk_text_fixed.
  destruct (Z_le_dec 0 overlap) as [_|?]; [|lia].
  destruct (Z_lt_dec overlap size) as [Hlt|?]; [|lia].
  eexists. split; [reflexivity|].
  rewrite (unchunk_chunk_loop text (Z.to_nat size) (Z.to_nat (size - overlap))
             (stride_positive size overlap Hlt) ltac:(lia)
             (String.length text) 0) by lia.
  rewrite Nat.sub_0_r. apply substring_full.
Qed.

Lemma chunk_text_fixed_lossless_witness :
  exists chunks,
    chunk_text_fixed "abcdefghijk" 4 1 = Ok chunks
    /\ unchunk (Z.to_nat (4 - 1)) chunks = "abcdefghijk".
Proof. apply chunk_text_fixed_lossless. lia. Defined.

(** X5. How many chunks a text gives, for [0 <= overlap < size]: none for
    the empty text, one while the text fits in a window, and otherwise one
    more than the number of strides needed to cover what is past the first
    window. *)
Theorem chunk_text_fixed_length (text : string) (size overlap : Z) :
  (0 <= overlap < size)%Z ->
  exists chunks,
    chunk_text_fixed text size overlap = Ok chunks
    /\ length chunks
       = if Nat.eqb (String.length text) 0 then 0
         else if Nat.leb (String.length text) (Z.to_nat size) then 1
         else (String.length text - Z.to_nat size
               + Z.to_nat (size - overlap) - 1) / Z.to_nat (size - overlap) + 1.
Proof.
  intros Hso.
  destruct (chunk_text_fixed_count text size overlap Hso)
    as (k & Hk & Hzero & Hpos & Hfull).
  set (L := String.length text) in *. set (sz := Z.to_nat size) in *.
  set (step := Z.to_nat (size - overlap)) in *.
  assert (Hstep : 0 < step) by (subst step; lia).
  eexists. split; [exact Hk|]. rewrite length_map, length_seq.
  destruct (Nat.eqb_spec L 0) as [H0|H0]; [auto|].
  destruct Hpos as [Hkpos Hreach]; [lia|].
  destruct (Nat.leb_spec L sz) as [Hfit|Hbig].
  - destruct (Nat.eq_dec k 1) as [->|Hk1]; [reflexivity|].
    specialize (Hfull 0 ltac:(lia)). lia.
  - assert (Hk2 : 2 <= k) by (destruct (Nat.eq_dec k 1) as [->|]; cbn in Hreach; lia).
    specialize (Hfull (k - 2) ltac:(lia)).
    assert (Hq : (L - sz + step - 1) / step = k - 1).
    { symmetry. apply (Nat.div_unique _ _ _ (L - sz + step - 1 - (k - 1) * step)).
      - nia.
      - nia. }
    rewrite Hq. lia.
Qed.

Lemma chunk_text_fixed_length_witness :
  exists chunks,
    chunk_text_fixed "abcdefghijk" 4 1 = Ok chunks /\ length chunks = 4.
Proof.
  destruct (chunk_text_fixed_length "abcdefghijk" 4 1 ltac:(lia))
    as (chunks & Hc & Hlen).
  exists chunks. split; [exact Hc|exact Hlen].
Defined.

(** ** Headers and previews *)

Lemma length_append (s t : string) :
  String.length (s +:+ t) = String.length s + String.length t.
Proof.
  induction s as [|c s IH]; [reflexivity|].
  change (String c s +:+ t) with (String c (s +:+ t)).
  cbn [String.length]. rewrite IH. reflexivity.
Qed.

Lemma substring_append_skip (s t : string) (m : nat) :
  substring (String.length s) m (s +:+ t) = substring 0 m t.
Proof.
  induction s as [|c s IH]; [reflexivity|].
  change (String c s +:+ t) with (String c (s +:+ t)).
  cbn [String.length substring]. exact IH.
Qed.

Lemma substring_clip (s : string) (i m : nat) :
  substring i (Nat.min m (String.length s - i)) s = substring i m s.
Proof.
  revert i m. induction s as [|c s IH]; intros i m.
  - rewrite !substring_empty. reflexivity.
  - destruct i as [|i].
    + destruct m as [|m]; [reflexivity|]. cbn [String.length].
      replace (Nat.min (S m) (S (String.length s) - 0))
        with (S (Nat.min m (String.length s - 0))) by lia.
      cbn [substring]. f_equal. apply IH.
    + cbn [String.length].
      replace (S (String.length s) - S i) with (String.length s - i) by lia.
      cbn [substring]. apply IH.
Qed.

Lemma append_assoc (s t u : string) : (s +:+ t) +:+ u = s +:+ (t +:+ u).
Proof.
  induction s as [|c s IH]; [reflexivity|].
  change (String c (s +:+ t) +:+ u = String c (s +:+ t +:+ u)).
  change (String c ((s +:+ t) +:+ u) = String c (s +:+ t +:+ u)).
  rewrite IH. reflexivity.
Qed.

Lemma append_nil_r (s : string) : s +:+ "" = s.
Proof.
  induction s as [|c s IH]; [reflexivity|].
  change (String c (s +:+ "") = String c s). rewrite IH. reflexivity.
Qed.

(** X6. A preview is at most 400 characters of the text followed by three
    dots, whatever header length the metadata gives, negative or past the
    end of the text. *)
Theorem preview_of_length (text : string) (hdr_len : Z) :
  exists p,
    preview_of text hdr_len = p +:+ "..."
    /\ String.length p <= 400
    /\ String.length (preview_of text hdr_len) <= 403.
Proof.
  unfold preview_of.
  destruct (hdr_len <? Z.of_nat (String.length text))%Z eqn:Hlt;
    eexists; (split; [reflexivity|]);
    rewrite length_append; cbn [String.length];
    unfold py_slice, str_slice, py_bound; rewrite length_substring;
    repeat match goal with
           | |- context [(?a <? ?b)%Z] => destruct (Z.ltb_spec a b)
           end; lia.
Qed.

(** What [record_chunks] builds for one body window. *)
Lemma record_chunks_elem (r : TxtRecord) (key : string) (bodies : list string)
    (d : Document) :
  d ∈ record_chunks r key bodies ->
  exists body,
    body ∈ bodies
    /\ d = {| page_content := build_header r +:+ body;
              metadata := <["__header_len" :=
                              MInt (Z.of_nat (String.length (build_header r)))]>
                            (base_meta r key) |}.
Proof.
  unfold record_chunks. intros Hd. apply list_elem_of_fmap in Hd as (body & -> & Hb).
  exists body. split; [exact Hb|reflexivity].
Qed.

(** The preview of a header-prefixed chunk at the recorded header length. *)
Lemma preview_of_header (header body : string) :
  body <> "" ->
  preview_of (header +:+ body) (Z.of_nat (String.length header))
  = substring 0 400 body +:+ "...".
Proof.
  intros Hne. unfold preview_of. rewrite length_append.
  assert (0 < String.length body) by (destruct body; [congruence|cbn; lia]).
  destruct (Z.ltb_spec (Z.of_nat (String.length header))
              (Z.of_nat (String.length header + String.length body))); [|lia].
  f_equal. unfold py_slice, str_slice, py_bound. rewrite length_append.
  destruct (Z.ltb_spec (Z.of_nat (String.length header)) 0); [lia|].
  destruct (Z.ltb_spec (Z.of_nat (String.length header) + 400) 0); [lia|].
  rewrite Nat2Z.id.
  replace (Nat.min (String.length header) (String.length header + String.length body))
    with (String.length header) by lia.
  rewrite substring_append_skip, <- substring_clip.
  rewrite <- (substring_clip body 0 400). f_equal. lia.
Qed.

(** X7. The header round trip: every chunk [index_course] builds for a
    record is the record's header followed by a body window, its metadata
    carries the record's fields and the header length, and the preview
    the search computes from that metadata is the first 400 characters
    of the body window, the header skipped. An empty window would show
    the header instead. *)
Theorem record_chunks_preview (r : TxtRecord) (key : string)
    (bodies : list string) (cslug : string) (d : Document) :
  d ∈ record_chunks r key bodies ->
  exists body,
    body ∈ bodies
    /\ page_content d = build_header r +:+ body
    /\ setdefault "course" (MStr cslug) (metadata d) = metadata d
    /\ metadata d !! "course" = Some (MStr (course r))
    /\ metadata d !! "source_key" = Some (MStr key)
    /\ (exists hdr_len,
          py_int (default (MInt 0) (metadata d !! "__header_len")) = Ok hdr_len
          /\ hdr_len = Z.of_nat (String.length (build_header r))
          /\ (body <> "" ->
              preview_of (page_content d) hdr_len = substring 0 400 body +:+ "...")
          /\ (body = "" ->
              preview_of (page_content d) hdr_len
              = substring 0 400 (build_header r) +:+ "...")).
Proof.
  intros Hd. apply record_chunks_elem in Hd as (body & Hb & ->).
  exists body. cbn [page_content metadata].
  assert (Hcourse : (<["__header_len" :=
                         MInt (Z.of_nat (String.length (build_header r)))]>
                       (base_meta r key)) !! "course" = Some (MStr (course r))).
  { unfold base_meta. rewrite !lookup_insert_ne by discriminate.
    apply lookup_insert_eq. }
  split; [exact Hb|]. split; [reflexivity|].
  split; [unfold setdefault; rewrite Hcourse; reflexivity|].
  split; [exact Hcourse|].
  split.
  { unfold base_meta. rewrite lookup_insert_ne by discriminate.
    apply lookup_insert_eq. }
  eexists. rewrite lookup_insert_eq. cbn [default py_int].
  split; [reflexivity|]. split; [reflexivity|]. split.
  - apply preview_of_header.
  - intros ->. unfold preview_of. rewrite length_append. cbn [String.length].
    destruct (Z.ltb_spec (Z.of_nat (String.length (build_header r)))
                (Z.of_nat (String.length (build_header r) + 0))); [lia|].
    f_equal. unfold py_slice, str_slice, py_bound. cbn.
    rewrite length_append. cbn [String.length].
    rewrite <- substring_clip. rewrite <- (substring_clip (build_header r) 0 400).
    rewrite append_nil_r. f_equal. lia.
Qed.

Lemma record_chunks_preview_witness :
  exists body,
    body ∈ ["hello world"]
    /\ preview_of (build_header rec_a +:+ "hello world")
         (Z.of_nat (String.length (build_header rec_a)))
       = substring 0 400 body +:+ "...".
Proof.
  destruct (record_chunks_preview rec_a "k" ["hello world"] "math_101"
              {| page_content := build_header rec_a +:+ "hello world";
                 metadata := <["__header_len" :=
                                 MInt (Z.of_nat (String.length (build_header rec_a)))]>
                               (base_meta rec_a "k") |})
    as (body & Hb & Hpage & _ & _ & _ & hdr & _ & -> & Hprev & _).
  { left. }
  exists body. split; [exact Hb|].
  cbn [page_content] in Hpage, Hprev. apply Hprev.
  apply String.app_inj in Hpage. subst body. discriminate.
Defined.

(** ** More on the indexer *)

(** The loop over a batch in two parts. *)
Lemma collect_app fs sha256 keys l1 l2 :
  collect_new_chunks fs sha256 keys (l1 ++ l2)
  = n1 ← collect_new_chunks fs sha256 keys l1;
    n2 ← collect_new_chunks fs sha256 keys l2;
    Ok (n1 ++ n2).
Proof.
  induction l1 as [|r l1 IH]; cbn [app collect_new_chunks].
  - step_bind. destruct (collect_new_chunks fs sha256 keys l2); reflexivity.
  - destruct (read_text fs (file_path r)) as [raw|]; step_bind; [|reflexivity].
    case_bool_decide; [exact IH|].
    destruct (chunk_text_fixed raw CHUNK_SIZE CHUNK_OVERLAP) as [body|];
      step_bind; [|reflexivity].
    rewrite IH.
    destruct (collect_new_chunks fs sha256 keys l1) as [n1|]; step_bind;
      [|reflexivity].
    destruct (collect_new_chunks fs sha256 keys l2) as [n2|]; step_bind;
      [|reflexivity].
    rewrite app_assoc. reflexivity.
Qed.

(** Every key the loop collects, and every non-empty document it passes,
    ends up among the old keys or the collected ones. *)
Lemma collect_covers fs sha256 keys recs new :
  collect_new_chunks fs sha256 keys recs = Ok new ->
  forall r, r ∈ recs ->
    exists raw,
      fs (file_path r) = Some raw
      /\ (raw <> "" ->
          MStr (source_key_of sha256 r raw) ∈ keys ∪ existing_keys_of new).
Proof.
  revert new. induction recs as [|r0 recs IH]; intros new Hc r Hr;
    [inversion Hr|].
  cbn [collect_new_chunks] in Hc. unfold read_text in Hc.
  destruct (fs (file_path r0)) as [raw0|] eqn:Hraw0; step_bind_in Hc;
    [|discriminate].
  case_bool_decide as Hold.
  - apply elem_of_cons in Hr as [->|Hr]; [|eapply IH; eassumption].
    exists raw0. split; [exact Hraw0|]. intros _. set_solver.
  - destruct (chunk_text_fixed_default raw0) as (body & Hbody & Hnil).
    rewrite Hbody in Hc. step_bind_in Hc.
    destruct (collect_new_chunks fs sha256 keys recs) as [more|] eqn:Hmore;
      step_bind_in Hc; [|discriminate].
    injection Hc as <-. rewrite existing_keys_of_app.
    apply elem_of_cons in Hr as [->|Hr].
    + exists raw0. split; [exact Hraw0|]. intros Hne.
      assert (Hb : body <> []) by (intros Hb; apply Hne, Hnil, Hb).
      rewrite (record_chunks_keys fs sha256 _ _ _ Hb).
      apply elem_of_union. right. apply elem_of_union. left.
      apply elem_of_singleton. reflexivity.
    + destruct (IH more eq_refl r Hr) as (raw & Hraw & Hkey).
      exists raw. split; [exact Hraw|]. intros Hne. specialize (Hkey Hne).
      apply elem_of_union in Hkey as [Hk|Hk]; apply elem_of_union;
        [left; exact Hk|right; apply elem_of_union; right; exact Hk].
Qed.

(** X8. A run of [index_course] that returns only appends: in every
    namespace each of the four stored lists keeps its old contents as a
    prefix and no stored key is lost, and a namespace other than that of
    the first record of the batch is not touched at all. *)
Theorem index_course_append_only fs sha256 (st : Store) (recs : list TxtRecord)
    (st' : Store) :
  index_course fs sha256 st recs = Ok st' ->
  forall ns,
    ns_docs st ns `prefix_of` ns_docs st' ns
    /\ ns_chunks st ns `prefix_of` ns_chunks st' ns
    /\ ns_metas st ns `prefix_of` ns_metas st' ns
    /\ ns_tokens st ns `prefix_of` ns_tokens st' ns
    /\ stored_keys st ns ⊆ stored_keys st' ns
    /\ (forall r0, head recs = Some r0 -> ns <> slug (course r0) ->
          chroma_db st' !! ns = chroma_db st !! ns
          /\ bm25_db st' !! ns = bm25_db st !! ns).
Proof.
  intros Hrun ns. destruct recs as [|r0 rest].
  { injection Hrun as <-. repeat split; reflexivity. }
  destruct (index_course_inv _ _ _ _ _ _ Hrun) as (new & Hc & Hcase).
  destruct (index_course_views _ _ _ _ _ _ Hrun)
    as (new' & Hc' & _ & Hother & Hns).
  rewrite Hc in Hc'. injection Hc' as <-.
  assert (Hlast : forall r1, head (r0 :: rest) = Some r1 ->
            ns <> slug (course r1) ->
            chroma_db st' !! ns = chroma_db st !! ns
            /\ bm25_db st' !! ns = bm25_db st !! ns).
  { intros r1 [= <-] Hne.
    destruct Hcase as [[_ ->]|(_ & -> & ->)]; [tauto|].
    rewrite !lookup_insert_ne by congruence. tauto. }
  destruct (decide (ns = slug (course r0))) as [->|Hne].
  - cbn zeta in Hns. destruct Hns as (Hd & Hch & Hm & Ht).
    rewrite !stored_keys_docs, Hd, Hch, Hm, Ht, existing_keys_of_app.
    split; [apply prefix_app_r; reflexivity|].
    split; [apply prefix_app_r; reflexivity|].
    split; [apply prefix_app_r; reflexivity|].
    split; [apply prefix_app_r; reflexivity|].
    split; [apply union_subseteq_l|exact Hlast].
  - destruct (Hother ns Hne) as (Hd & Hch & Hm & Ht).
    rewrite !stored_keys_docs, Hd, Hch, Hm, Ht.
    repeat (split; [reflexivity|]). exact Hlast.
Qed.

Lemma index_course_append_only_witness :
  ns_docs empty_store "math_101" `prefix_of` ns_docs store_after_a "math_101"
  /\ chroma_db store_after_a !! "physics" = chroma_db empty_store !! "physics".
Proof.
  assert (Hrun : index_course demo_fs demo_sha256 empty_store [rec_a]
                 = Ok store_after_a) by (vm_compute; reflexivity).
  split.
  - apply (index_course_append_only demo_fs demo_sha256 empty_store [rec_a]
             store_after_a Hrun "math_101").
  - apply (index_course_append_only demo_fs demo_sha256 empty_store [rec_a]
             store_after_a Hrun "physics") with rec_a; [reflexivity|].
    vm_compute. discriminate.
Defined.

(** Once the loop returns, so does the run. *)
Lemma index_course_returns fs sha256 st r0 rest new :
  collect_new_chunks fs sha256 (stored_keys st (slug (course r0))) (r0 :: rest)
  = Ok new ->
  exists st', index_course fs sha256 st (r0 :: rest) = Ok st'.
Proof.
  intros Hc. unfold index_course. fold (stored_keys st (slug (course r0))).
  rewrite Hc. step_bind. destruct new as [|d new]; [eexists; reflexivity|].
  destruct (bm25_db st !! slug (course r0)); eexists; reflexivity.
Qed.

(** With every file readable the loop returns. *)
Lemma collect_readable fs sha256 keys recs :
  (forall r, r ∈ recs -> fs (file_path r) <> None) ->
  exists new, collect_new_chunks fs sha256 keys recs = Ok new.
Proof.
  induction recs as [|r recs IH]; intros Hall; cbn [collect_new_chunks];
    [eexists; reflexivity|].
  destruct IH as [more Hmore]; [intros x Hx; apply Hall; right; exact Hx|].
  unfold read_text. destruct (fs (file_path r)) as [raw|] eqn:Hraw;
    [|destruct (Hall r); [left|exact Hraw]].
  step_bind. case_bool_decide; [eauto|].
  destruct (chunk_text_fixed_default raw) as (body & -> & _). step_bind.
  rewrite Hmore. step_bind. eexists; reflexivity.
Qed.

(** What a returning run leaves in the namespace of the batch's first
    record: the old documents, then the collected ones, and the key of
    every non-empty document of the batch. *)
Lemma index_course_covers fs sha256 st r0 rest st' :
  index_course fs sha256 st (r0 :: rest) = Ok st' ->
  forall r, r ∈ r0 :: rest ->
    exists raw,
      fs (file_path r) = Some raw
      /\ (raw <> "" ->
          MStr (source_key_of sha256 r raw) ∈ stored_keys st' (slug (course r0))).
Proof.
  intros Hrun r Hr.
  destruct (index_course_views _ _ _ _ _ _ Hrun) as (new & Hc & _ & _ & Hns).
  cbn zeta in Hns. destruct Hns as (Hd & _).
  destruct (collect_covers _ _ _ _ _ Hc r Hr) as (raw & Hraw & Hkey).
  exists raw. split; [exact Hraw|]. intros Hne.
  rewrite stored_keys_docs, Hd, existing_keys_of_app, assign_chunk_ids_keys.
  rewrite <- stored_keys_docs. exact (Hkey Hne).
Qed.

(** Stored documents and keys only grow. *)
Lemma index_course_grows fs sha256 st recs st' ns :
  index_course fs sha256 st recs = Ok st' ->
  ns_docs st ns `prefix_of` ns_docs st' ns
  /\ stored_keys st ns ⊆ stored_keys st' ns.
Proof.
  intros Hrun. destruct recs as [|r0 rest];
    [injection Hrun as <-; split; reflexivity|].
  destruct (index_course_views _ _ _ _ _ _ Hrun) as (new & _ & _ & Hother & Hns).
  rewrite !stored_keys_docs.
  destruct (decide (ns = slug (course r0))) as [->|Hne].
  - cbn zeta in Hns. destruct Hns as (-> & _). rewrite existing_keys_of_app.
    split; [apply prefix_app_r; reflexivity|apply union_subseteq_l].
  - destruct (Hother ns Hne) as (-> & _). split; reflexivity.
Qed.

(** X9. A returning run files the whole batch under the course of its
    first record: every file of the batch was read, and the SourceKey of
    every non-empty one is among the stored keys of that namespace after
    the run, whatever course the record itself names; the namespace of
    a record that names a course with another slug is left as it was. *)
Theorem index_course_first_record_namespace fs sha256 (st : Store)
    (r0 : TxtRecord) (rest : list TxtRecord) (st' : Store) :
  index_course fs sha256 st (r0 :: rest) = Ok st' ->
  forall r, r ∈ r0 :: rest ->
    (exists raw,
       fs (file_path r) = Some raw
       /\ (raw <> "" ->
           MStr (source_key_of sha256 r raw)
             ∈ stored_keys st' (slug (course r0))))
    /\ (slug (course r) <> slug (course r0) ->
        ns_docs st' (slug (course r)) = ns_docs st (slug (course r))
        /\ ns_chunks st' (slug (course r)) = ns_chunks st (slug (course r))).
Proof.
  intros Hrun r Hr. split; [eapply index_course_covers; eassumption|].
  intros Hne.
  destruct (index_course_views _ _ _ _ _ _ Hrun) as (new & _ & _ & Hother & _).
  destruct (Hother _ Hne) as (Hd & Hc & _). split; assumption.
Qed.

(** [rec_b], second in the batch, is filed under the course of [rec_a]. *)
Lemma index_course_first_record_namespace_witness :
  exists raw,
    demo_fs (file_path rec_b) = Some raw
    /\ (raw <> "" ->
        MStr (source_key_of demo_sha256 rec_b raw)
          ∈ stored_keys store_after_ab (slug (course rec_a))).
Proof.
  apply (index_course_first_record_namespace demo_fs demo_sha256 empty_store
           rec_a [rec_b] store_after_ab).
  - vm_compute. reflexivity.
  - right. left.
Defined.

(** X10. Deduplication looks at the keys stored before the run only: a
    batch that lists its records twice stores every new chunk twice. *)
Theorem index_course_batch_duplicates fs sha256 (st : Store) (r0 : TxtRecord)
    (rest : list TxtRecord) (st1 : Store) :
  index_course fs sha256 st (r0 :: rest) = Ok st1 ->
  exists new st2,
    ns_docs st1 (slug (course r0))
    = ns_docs st (slug (course r0))
      ++ assign_chunk_ids (length (ns_docs st (slug (course r0)))) new
    /\ index_course fs sha256 st ((r0 :: rest) ++ (r0 :: rest)) = Ok st2
    /\ ns_docs st2 (slug (course r0))
       = ns_docs st (slug (course r0))
         ++ assign_chunk_ids (length (ns_docs st (slug (course r0))))
              (new ++ new).
Proof.
  intros Hrun.
  destruct (index_course_views _ _ _ _ _ _ Hrun) as (new & Hc & _ & _ & Hns).
  cbn zeta in Hns. destruct Hns as (Hd & _).
  assert (Hcc : collect_new_chunks fs sha256 (stored_keys st (slug (course r0)))
                  (r0 :: rest ++ r0 :: rest) = Ok (new ++ new)).
  { change (r0 :: rest ++ r0 :: rest) with ((r0 :: rest) ++ (r0 :: rest)).
    rewrite collect_app, Hc. reflexivity. }
  destruct (index_course_returns _ _ _ _ _ _ Hcc) as [st2 Hrun2].
  exists new, st2. split; [exact Hd|]. split; [exact Hrun2|].
  destruct (index_course_views _ _ _ _ _ _ Hrun2) as (new2 & Hc2 & _ & _ & Hns2).
  rewrite Hcc in Hc2. injection Hc2 as <-.
  cbn zeta in Hns2. destruct Hns2 as (Hd2 & _). exact Hd2.
Qed.

Lemma index_course_batch_duplicates_witness :
  exists st2,
    index_course demo_fs demo_sha256 empty_store [rec_a; rec_a] = Ok st2
    /\ length (ns_docs st2 "math_101") = 2.
Proof.
  destruct (index_course_batch_duplicates demo_fs demo_sha256 empty_store rec_a []
              store_after_a) as (new & st2 & Hd & Hrun2 & Hd2).
  { vm_compute. reflexivity. }
  exists st2. split; [exact Hrun2|].
  change (slug (course rec_a)) with "math_101" in Hd, Hd2.
  rewrite Hd2. apply (f_equal length) in Hd.
  rewrite length_app, assign_chunk_ids_length in Hd |- *.
  rewrite length_app. change (ns_docs empty_store "math_101") with (@nil Document) in *.
  change (length (ns_docs store_after_a "math_101")) with 1 in Hd.
  cbn [length] in *. lia.
Defined.




(** X12. What decides a skip is the key alone: a record with the path,
    date and content of a stored document is skipped even when its file
    name or module changed, so the stored metadata is not brought up to
    date. *)
Theorem metadata_change_not_reindexed fs sha256 (st : Store)
    (r1 r2 : TxtRecord) (st1 : Store) :
  file_path r2 = file_path r1 ->
  date r2 = date r1 ->
  slug (course r2) = slug (course r1) ->
  index_course fs sha256 st [r1] = Ok st1 ->
  index_course fs sha256 st1 [r2] = Ok st1.
Proof.
  intros Hpath Hdate Hslug Hrun.
  destruct (index_course_covers _ _ _ _ _ _ Hrun r1) as (raw & Hraw & Hkey);
    [left|].
  apply index_course_noop. rewrite Hslug.
  cbn [collect_new_chunks]. unfold read_text. rewrite Hpath, Hraw. step_bind.
  assert (Hsame : source_key_of sha256 r2 raw = source_key_of sha256 r1 raw)
    by (unfold source_key_of; rewrite Hpath, Hdate; reflexivity).
  rewrite Hsame.
  destruct (decide (raw = "")) as [->|Hne].
  - case_bool_decide; [reflexivity|].
    destruct (chunk_text_fixed_default "") as (body & -> & Hnil). step_bind.
    rewrite (proj2 Hnil eq_refl). reflexivity.
  - rewrite bool_decide_eq_true_2 by exact (Hkey Hne). reflexivity.
Qed.

Lemma metadata_change_not_reindexed_witness :
  index_course demo_fs demo_sha256 store_after_a
    [ {| file_name := "renamed.txt"; date := "2025-01-01"; course := "math 101";
         module := "Week 9"; file_path := "notes/a.txt" |} ]
  = Ok store_after_a.
Proof.
  apply (metadata_change_not_reindexed demo_fs demo_sha256 empty_store rec_a).
  - reflexivity.
  - reflexivity.
  - vm_compute. reflexivity.
  - vm_compute. reflexivity.
Defined.

(** X13. The key joins path, date and digest with ["|"] and nothing
    escapes that character, so a path ending in ["|d1"] with date [d2]
    has the key of the shorter path with date ["d1|d2"]: of two such
    documents with equal content in one namespace, the second is taken
    for indexed. *)
Theorem source_key_collision sha256 (r1 r2 : TxtRecord) (p d1 d2 : string) :
  file_path r1 = p +:+ "|" +:+ d1 ->
  date r1 = d2 ->
  file_path r2 = p ->
  date r2 = d1 +:+ "|" +:+ d2 ->
  (forall raw, source_key_of sha256 r1 raw = source_key_of sha256 r2 raw)
  /\ (forall fs st st1 raw,
        fs (file_path r1) = Some raw ->
        fs (file_path r2) = Some raw ->
        slug (course r2) = slug (course r1) ->
        index_course fs sha256 st [r1] = Ok st1 ->
        index_course fs sha256 st1 [r2] = Ok st1).
Proof.
  intros Hp1 Hd1 Hp2 Hd2.
  assert (Hsame : forall raw,
            source_key_of sha256 r1 raw = source_key_of sha256 r2 raw).
  { intros raw. unfold source_key_of. rewrite Hp1, Hd1, Hp2, Hd2.
    rewrite !append_assoc. reflexivity. }
  split; [exact Hsame|].
  intros fs st st1 raw Hraw1 Hraw2 Hslug Hrun.
  destruct (index_course_covers _ _ _ _ _ _ Hrun r1) as (raw' & Hraw' & Hkey);
    [left|].
  rewrite Hraw1 in Hraw'. injection Hraw' as <-.
  apply index_course_noop. rewrite Hslug.
  cbn [collect_new_chunks]. unfold read_text. rewrite Hraw2. step_bind.
  rewrite <- Hsame.
  destruct (decide (raw = "")) as [->|Hne].
  - case_bool_decide; [reflexivity|].
    destruct (chunk_text_fixed_default "") as (body & -> & Hnil). step_bind.
    rewrite (proj2 Hnil eq_refl). reflexivity.
  - rewrite bool_decide_eq_true_2 by exact (Hkey Hne). reflexivity.
Qed.

Lemma source_key_collision_witness :
  source_key_of demo_sha256
    {| file_name := "n"; date := "2025"; course := "c"; module := "m";
       file_path := "a|b" |} "text"
  = source_key_of demo_sha256
      {| file_name := "n"; date := "b|2025"; course := "c"; module := "m";
         file_path := "a" |} "text".
Proof.
  apply (source_key_collision demo_sha256
           {| file_name := "n"; date := "2025"; course := "c"; module := "m";
              file_path := "a|b" |}
           {| file_name := "n"; date := "b|2025"; course := "c"; module := "m";
              file_path := "a" |} "a" "b" "2025"); reflexivity.
Defined.

(** ** Grouping by course *)

(** [by_course[course].append(r)] extends the group of the course where
    there is one and opens a new last group otherwise. *)
Lemma group_add_spec (g : list (string * list TxtRecord)) (r : TxtRecord) :
  (course r ∈ g.*1 ->
   exists g1 rs g2,
     g = g1 ++ (course r, rs) :: g2
     /\ (course r ∉ g1.*1)
     /\ group_add g r = g1 ++ (course r, rs ++ [r]) :: g2)
  /\ (course r ∉ g.*1 -> group_add g r = g ++ [(course r, [r])]).
Proof.
  induction g as [|[c rs] g [IHin IHout]]; cbn [group_add fmap list_fmap fst].
  - split; [intros Hin; inversion Hin|reflexivity].
  - destruct (String.eqb_spec c (course r)) as [->|Hne].
    + split.
      * intros _. exists [], rs, g. split; [reflexivity|].
        split; [apply not_elem_of_nil|reflexivity].
      * intros Hout. exfalso. apply Hout. left.
    + split.
      * intros Hin. apply elem_of_cons in Hin as [Heq|Hin]; [congruence|].
        destruct (IHin Hin) as (g1 & rs' & g2 & -> & Hg1 & ->).
        exists ((c, rs) :: g1), rs', g2. split; [reflexivity|].
        split; [|reflexivity]. cbn [fmap list_fmap fst].
        intros H. apply elem_of_cons in H as [Heq|H]; [congruence|tauto].
      * intros Hout. rewrite IHout; [reflexivity|].
        intros H. apply Hout. right. exact H.
Qed.

Lemma records_of_snoc c l r :
  records_of c (l ++ [r])
  = records_of c l ++ (if decide (course r = c) then [r] else []).
Proof.
  unfold records_of. rewrite filter_app, filter_cons, filter_nil.
  destruct (decide (course r = c)); reflexivity.
Qed.

Lemma records_of_none c l : c ∉ course <$> l -> records_of c l = [].
Proof.
  unfold records_of. induction l as [|r l IH]; intros Hc; [reflexivity|].
  rewrite filter_cons. destruct (decide (course r = c)) as [<-|Hne].
  - exfalso. apply Hc. left.
  - apply IH. intros H. apply Hc. right. exact H.
Qed.

Lemma first_seen_snoc l : forall seen c,
  first_seen seen (l ++ [c])
  = first_seen seen l
    ++ (if bool_decide (c ∈ seen ++ l) then [] else [c]).
Proof.
  induction l as [|x l IH]; intros seen c; cbn [app first_seen].
  - rewrite app_nil_r. case_bool_decide; reflexivity.
  - case_bool_decide as Hx.
    + rewrite IH. f_equal.
      assert (Hiff : c ∈ seen ++ l <-> c ∈ seen ++ x :: l).
      { rewrite !elem_of_app, elem_of_cons. split; [tauto|].
        intros [H|[->|H]]; tauto. }
      destruct (decide (c ∈ seen ++ l)) as [Hc|Hc].
      * rewrite !bool_decide_eq_true_2 by tauto. reflexivity.
      * rewrite !bool_decide_eq_false_2 by tauto. reflexivity.
    + rewrite IH. cbn [app]. f_equal. f_equal.
      assert (Hiff : c ∈ (x :: seen) ++ l <-> c ∈ seen ++ x :: l).
      { cbn [app]. rewrite !elem_of_app, !elem_of_cons, elem_of_app. tauto. }
      destruct (decide (c ∈ (x :: seen) ++ l)) as [Hc|Hc].
      * rewrite !bool_decide_eq_true_2 by tauto. reflexivity.
      * rewrite !bool_decide_eq_false_2 by tauto. reflexivity.
Qed.

(** The groups of a batch: one per course in the order the courses first
    appear, each holding the records of its course in batch order. *)
Lemma by_course_inv (records : list TxtRecord) :
  (by_course records).*1 = first_seen [] (course <$> records)
  /\ NoDup (by_course records).*1
  /\ (forall c, c ∈ (by_course records).*1 <-> c ∈ course <$> records)
  /\ (forall c rs, (c, rs) ∈ by_course records -> rs = records_of c records).
Proof.
  unfold by_course.
  induction records as [|r l (Hkeys & Hnd & Hdom & Hgrp)] using rev_ind.
  { cbn. split; [reflexivity|]. split; [constructor|].
    split; [tauto|]. intros c rs H. inversion H. }
  rewrite fold_left_app. cbn [fold_left].
  set (g := fold_left group_add l []) in *.
  rewrite fmap_app. cbn [fmap list_fmap]. rewrite first_seen_snoc. cbn [app].
  destruct (group_add_spec g r) as [Hin Hout].
  destruct (decide (course r ∈ g.*1)) as [Hc|Hc].
  - destruct (Hin Hc) as (g1 & rs & g2 & Hg & Hg1 & ->).
    rewrite bool_decide_eq_true_2 by (apply Hdom; exact Hc).
    rewrite app_nil_r.
    assert (Hfst : (g1 ++ (course r, rs ++ [r]) :: g2).*1 = g.*1)
      by (rewrite Hg, !fmap_app; reflexivity).
    rewrite Hfst. split; [exact Hkeys|]. split; [exact Hnd|]. split.
    + intros c. rewrite Hdom, elem_of_app, list_elem_of_singleton.
      split; [tauto|]. intros [H| ->]; [exact H|apply Hdom; exact Hc].
    + intros c rs' Hel. rewrite records_of_snoc.
      rewrite Hg, fmap_app in Hnd. cbn [fmap list_fmap fst] in Hnd.
      apply NoDup_app in Hnd as (_ & Hdisj & Hnd2).
      apply NoDup_cons in Hnd2 as [Hg2 _].
      apply elem_of_app in Hel as [Hel|Hel];
        [|apply elem_of_cons in Hel as [[= -> ->]|Hel]].
      * assert (Hne : course r <> c).
        { intros <-. apply Hg1. apply list_elem_of_fmap.
          exists (course r, rs'). split; [reflexivity|exact Hel]. }
        rewrite decide_False by exact Hne. rewrite app_nil_r.
        apply Hgrp. rewrite Hg. apply elem_of_app. left. exact Hel.
      * rewrite decide_True by reflexivity. f_equal.
        apply Hgrp. rewrite Hg. apply elem_of_app. right. left.
      * assert (Hne : course r <> c).
        { intros <-. apply Hg2. apply list_elem_of_fmap.
          exists (course r, rs'). split; [reflexivity|exact Hel]. }
        rewrite decide_False by exact Hne. rewrite app_nil_r.
        apply Hgrp. rewrite Hg. apply elem_of_app. right. right. exact Hel.
  - rewrite (Hout Hc).
    rewrite bool_decide_eq_false_2 by (intros H; apply Hc, Hdom, H).
    rewrite fmap_app. cbn [fmap list_fmap fst]. split; [rewrite Hkeys; reflexivity|].
    split.
    { apply NoDup_app. split; [exact Hnd|]. split; [|apply NoDup_singleton].
      intros x Hx Hx'. apply list_elem_of_singleton in Hx'. subst x. tauto. }
    split.
    + intros c. rewrite !elem_of_app, !list_elem_of_singleton, Hdom. tauto.
    + intros c rs' Hel. rewrite records_of_snoc.
      apply elem_of_app in Hel as [Hel|Hel].
      * assert (Hne : course r <> c).
        { intros <-. apply Hc. apply list_elem_of_fmap.
          exists (course r, rs'). split; [reflexivity|exact Hel]. }
        rewrite decide_False by exact Hne. rewrite app_nil_r.
        apply Hgrp. exact Hel.
      * apply list_elem_of_singleton in Hel. injection Hel as -> ->.
        rewrite decide_True by reflexivity.
        rewrite records_of_none; [reflexivity|].
        intros H. apply Hc, Hdom, H.
Qed.

(** X14. The groups [index_all_txt_records] hands to [index_course]: one
    group per distinct course string, in the order the courses first
    appear in the batch; each group is the batch's records of that
    course in batch order and is never empty; every record is in the
    group of its course. *)
Theorem by_course_groups (records : list TxtRecord) :
  (fold_left group_add records []).*1 = first_seen [] (course <$> records)
  /\ NoDup (fold_left group_add records []).*1
  /\ (forall c rs,
        (c, rs) ∈ fold_left group_add records [] ->
        rs = filter (fun r => course r = c) records /\ rs <> [])
  /\ (forall r, r ∈ records ->
        (course r, filter (fun x => course x = course r) records)
        ∈ fold_left group_add records []).
Proof.
  destruct (by_course_inv records) as (Hkeys & Hnd & Hdom & Hgrp).
  unfold by_course, records_of in *.
  split; [exact Hkeys|]. split; [exact Hnd|]. split.
  - intros c rs Hel. split; [apply Hgrp; exact Hel|].
    assert (Hc : c ∈ course <$> records).
    { apply Hdom. apply list_elem_of_fmap. exists (c, rs). tauto. }
    apply list_elem_of_fmap in Hc as (r & -> & Hr).
    rewrite (Hgrp _ _ Hel). intros Hnil.
    assert (Hin : r ∈ filter (fun x => course x = course r) records)
      by (apply list_elem_of_filter; tauto).
    rewrite Hnil in Hin. inversion Hin.
  - intros r Hr.
    assert (Hc : course r ∈ (fold_left group_add records []).*1).
    { apply Hdom. apply list_elem_of_fmap. exists r. tauto. }
    apply list_elem_of_fmap in Hc as ([c rs] & Hfst & Hel).
    cbn [fst] in Hfst. subst c. rewrite <- (Hgrp _ _ Hel). exact Hel.
Qed.

(** ** The batch entry point *)

(** The loop over the groups when every file is readable. *)
Lemma index_groups_readable fs sha256 groups : forall st,
  (forall c rs r, (c, rs) ∈ groups -> r ∈ rs -> fs (file_path r) <> None) ->
  exists st',
    index_groups fs sha256 st groups = (st', None)
    /\ (reachable st -> reachable st')
    /\ (forall ns, ns_docs st ns `prefix_of` ns_docs st' ns)
    /\ (forall ns, stored_keys st ns ⊆ stored_keys st' ns)
    /\ (forall c r0 rest r,
          (c, r0 :: rest) ∈ groups -> r ∈ r0 :: rest ->
          exists raw,
            fs (file_path r) = Some raw
            /\ (raw <> "" ->
                MStr (source_key_of sha256 r raw)
                  ∈ stored_keys st' (slug (course r0)))).
Proof.
  induction groups as [|[c rs] groups IH]; intros st Hall; cbn [index_groups].
  - exists st. split; [reflexivity|]. split; [tauto|].
    split; [reflexivity|]. split; [reflexivity|].
    intros c r0 rest r H. inversion H.
  - assert (Hrun : exists st1, index_course fs sha256 st rs = Ok st1).
    { destruct rs as [|r0 rest]; [eexists; reflexivity|].
      destruct (collect_readable fs sha256 (stored_keys st (slug (course r0)))
                  (r0 :: rest)) as [new Hc].
      - intros r Hr. apply (Hall c (r0 :: rest)); [left|exact Hr].
      - eapply index_course_returns. exact Hc. }
    destruct Hrun as [st1 Hrun]. rewrite Hrun.
    destruct (IH st1) as (st' & Hgo & Hreach & Hpre & Hkeys & Hcov).
    { intros c' rs' r Hel. apply (Hall c' rs'). right. exact Hel. }
    exists st'. split; [exact Hgo|].
    split; [intros Hr; apply Hreach; eapply reach_index; eassumption|].
    split.
    { intros ns. etransitivity; [|apply Hpre].
      apply (index_course_grows _ _ _ _ _ ns Hrun). }
    split.
    { intros ns. etransitivity; [|apply Hkeys].
      apply (index_course_grows _ _ _ _ _ ns Hrun). }
    intros c' r0 rest r Hel Hr.
    apply elem_of_cons in Hel as [[= -> <-]|Hel]; [|eapply Hcov; eassumption].
    destruct (index_course_covers _ _ _ _ _ _ Hrun r Hr) as (raw & Hraw & Hkey).
    exists raw. split; [exact Hraw|]. intros Hne. apply Hkeys, Hkey, Hne.
Qed.

(** X15. When every file of the batch can be read,
    [index_all_txt_records] ends without an exception; it only appends
    to the stores, keeps them in a state the indexer can reach, and
    afterwards the SourceKey of every non-empty document of the batch is
    stored in the namespace of the document's own course. *)
Theorem index_all_txt_records_readable fs sha256 (st : Store)
    (records : list TxtRecord) :
  (forall r, r ∈ records -> fs (file_path r) <> None) ->
  exists st',
    index_all_txt_records fs sha256 st records = (st', None)
    /\ (reachable st -> reachable st')
    /\ (forall ns, ns_docs st ns `prefix_of` ns_docs st' ns)
    /\ (forall r, r ∈ records ->
          exists raw,
            fs (file_path r) = Some raw
            /\ (raw <> "" ->
                MStr (source_key_of sha256 r raw)
                  ∈ stored_keys st' (slug (course r)))).
Proof.
  intros Hall. unfold index_all_txt_records.
  destruct (by_course_inv records) as (_ & _ & Hdom & Hgrp).
  unfold by_course in *.
  destruct (index_groups_readable fs sha256 (fold_left group_add records []) st)
    as (st' & Hgo & Hreach & Hpre & _ & Hcov).
  { intros c rs r Hel Hr. apply Hall.
    rewrite (Hgrp _ _ Hel) in Hr. unfold records_of in Hr.
    apply list_elem_of_filter in Hr. tauto. }
  exists st'. split; [exact Hgo|]. split; [exact Hreach|].
  split; [exact Hpre|].
  intros r Hr.
  assert (Hc : course r ∈ (fold_left group_add records []).*1).
  { apply Hdom. apply list_elem_of_fmap. exists r. tauto. }
  apply list_elem_of_fmap in Hc as ([c rs] & Hfst & Hel).
  cbn [fst] in Hfst. subst c.
  assert (Hin : r ∈ rs).
  { rewrite (Hgrp _ _ Hel). unfold records_of.
    apply list_elem_of_filter. tauto. }
  destruct rs as [|r0 rest]; [inversion Hin|].
  assert (Hr0 : course r0 = course r).
  { assert (H0 : r0 ∈ records_of (course r) records)
      by (rewrite <- (Hgrp _ _ Hel); left).
    unfold records_of in H0. apply list_elem_of_filter in H0. tauto. }
  rewrite <- Hr0. eapply Hcov; eassumption.
Qed.

Lemma index_all_txt_records_readable_witness :
  exists st',
    index_all_txt_records demo_fs demo_sha256 empty_store [rec_a; rec_b]
    = (st', None).
Proof.
  destruct (index_all_txt_records_readable demo_fs demo_sha256 empty_store
              [rec_a; rec_b]) as (st' & Hgo & _).
  - intros r Hr.
    apply elem_of_cons in Hr as [->|Hr]; [discriminate|].
    apply elem_of_cons in Hr as [->|Hr]; [discriminate|inversion Hr].
  - exists st'. exact Hgo.
Defined.

(** ** What the stores hold *)

(** The chunker returns no empty chunk. *)
Lemma chunk_text_fixed_nonempty (text : string) (size overlap : Z)
    (chunks : list string) :
  chunk_text_fixed text size overlap = Ok chunks ->
  forall c, c ∈ chunks -> c <> "".
Proof.
  intros Hrun c Hc.
  assert (Hrange : (0 <= overlap < size)%Z).
  { unfold chunk_text_fixed in Hrun.
    destruct (Z_le_dec 0 overlap), (Z_lt_dec overlap size);
      try discriminate. lia. }
  destruct (chunk_text_fixed_count text size overlap Hrange)
    as (k & Hk & Hzero & Hpos & Hfull).
  rewrite Hk in Hrun. injection Hrun as <-.
  apply list_elem_of_In, in_map_iff in Hc as (t & <- & Ht).
  apply in_seq in Ht.
  set (sz := Z.to_nat size) in *. set (step := Z.to_nat (size - overlap)) in *.
  assert (Hsz : 0 < sz) by (subst sz; lia).
  assert (Hstep : step <= sz) by (subst sz step; lia).
  assert (Hstart : t * step < String.length text).
  { destruct (Nat.eq_dec t 0) as [->|Hnz].
    - destruct (Nat.eq_dec (String.length text) 0) as [H0|H0];
        [specialize (Hzero H0); lia|lia].
    - specialize (Hfull (t - 1) ltac:(lia)).
      replace (t * step) with ((t - 1) * step + step) by nia. lia. }
  intros Hnil. apply (f_equal String.length) in Hnil.
  unfold window in Hnil. rewrite length_str_slice in Hnil by lia.
  cbn in Hnil. lia.
Qed.

(** Where the documents the loop collects come from. *)
Lemma collect_elems fs sha256 keys recs new :
  collect_new_chunks fs sha256 keys recs = Ok new ->
  forall d, d ∈ new ->
    exists r raw bodies,
      r ∈ recs
      /\ fs (file_path r) = Some raw
      /\ chunk_text_fixed raw CHUNK_SIZE CHUNK_OVERLAP = Ok bodies
      /\ d ∈ record_chunks r (source_key_of sha256 r raw) bodies.
Proof.
  revert new. induction recs as [|r0 recs IH]; intros new Hc d Hd.
  { injection Hc as <-. inversion Hd. }
  cbn [collect_new_chunks] in Hc. unfold read_text in Hc.
  destruct (fs (file_path r0)) as [raw0|] eqn:Hraw0; step_bind_in Hc;
    [|discriminate].
  assert (Hrest : forall more, collect_new_chunks fs sha256 keys recs = Ok more ->
            d ∈ more ->
            exists r raw bodies,
              r ∈ r0 :: recs /\ fs (file_path r) = Some raw
              /\ chunk_text_fixed raw CHUNK_SIZE CHUNK_OVERLAP = Ok bodies
              /\ d ∈ record_chunks r (source_key_of sha256 r raw) bodies).
  { intros more Hmore Hin.
    destruct (IH more Hmore d Hin) as (r & raw & bodies & Hr & H).
    exists r, raw, bodies. split; [right; exact Hr|exact H]. }
  case_bool_decide as Hold; [eapply Hrest; eassumption|].
  destruct (chunk_text_fixed raw0 CHUNK_SIZE CHUNK_OVERLAP) as [body|] eqn:Hbody;
    step_bind_in Hc; [|discriminate].
  destruct (collect_new_chunks fs sha256 keys recs) as [more|] eqn:Hmore;
    step_bind_in Hc; [|discriminate].
  injection Hc as <-. apply elem_of_app in Hd as [Hd|Hd].
  - exists r0, raw0, body. split; [left|]. tauto.
  - eapply Hrest; [reflexivity|exact Hd].
Qed.

(** Every stored chunk of a reachable state has the shape
    [index_course] gives it, with its position as chunk id. *)
Lemma reachable_indexed (st : Store) :
  reachable st ->
  forall ns i d, ns_docs st ns !! i = Some d -> indexed_doc i d.
Proof.
  induction 1 as [|fs sha256 st recs st' _ IH Hrun|st ns0 _ IH Hnone];
    intros ns i d Hi.
  - unfold ns_docs, empty_store in Hi. cbn in Hi.
    rewrite lookup_empty in Hi. inversion Hi.
  - destruct recs as [|r0 rest]; [injection Hrun as <-; eauto|].
    destruct (index_course_views _ _ _ _ _ _ Hrun)
      as (new & Hc & _ & Hother & Hns).
    destruct (decide (ns = slug (course r0))) as [->|Hne];
      [|destruct (Hother ns Hne) as (Hd & _); rewrite Hd in Hi; eauto].
    cbn zeta in Hns. destruct Hns as (Hd & _). rewrite Hd in Hi.
    apply lookup_app_Some in Hi as [Hi|[Hge Hi]]; [eauto|].
    unfold assign_chunk_ids in Hi. rewrite list_lookup_imap in Hi.
    destruct (new !! (i - length (ns_docs st (slug (course r0)))))
      as [d0|] eqn:Hd0; [|discriminate].
    injection Hi as <-.
    apply list_elem_of_lookup_2 in Hd0.
    destruct (collect_elems _ _ _ _ _ Hc d0 Hd0)
      as (r & raw & bodies & _ & _ & Hbodies & Hin).
    apply record_chunks_elem in Hin as (body & Hbody & ->).
    exists r, (source_key_of sha256 r raw), body.
    split; [eapply chunk_text_fixed_nonempty; eassumption|].
    cbn [page_content metadata]. do 4 f_equal. lia.
  - apply (IH ns i d).
    unfold ns_docs in *. cbn [chroma_db] in Hi.
    destruct (decide (ns = ns0)) as [->|Hne].
    + rewrite lookup_insert_eq in Hi. inversion Hi.
    + rewrite lookup_insert_ne in Hi by congruence. exact Hi.
Qed.

(** Position [i] of the lexical store holds the text and the metadata of
    document [i] of the vector store. *)
Lemma aligned_lookup st ns i :
  aligned st ns ->
  (i < length (ns_chunks st ns))%nat ->
  exists text m,
    ns_chunks st ns !! i = Some text
    /\ ns_metas st ns !! i = Some m
    /\ ns_docs st ns !! i = Some (mk_doc text m).
Proof.
  intros (Hdocs & Hlen & _) Hi.
  destruct (lookup_lt_is_Some_2 (ns_chunks st ns) i Hi) as [text Ht].
  destruct (lookup_lt_is_Some_2 (ns_metas st ns) i ltac:(lia)) as [m Hm].
  exists text, m. split; [exact Ht|]. split; [exact Hm|].
  rewrite Hdocs, lookup_zip_with, Ht. cbn. rewrite Hm. reflexivity.
Qed.

(** ** The search on indexed stores *)

Lemma fused_add_keys f k x key :
  key ∈ (fused_add f k x).*1 -> key ∈ f.*1 \/ key = k.
Proof.
  induction f as [|[k0 v0] f IH]; cbn [fused_add fmap list_fmap fst].
  - intros H. apply list_elem_of_singleton in H. tauto.
  - destruct (decide (k0 = k)) as [->|Hne]; cbn [fmap list_fmap fst].
    + tauto.
    + intros H. apply elem_of_cons in H as [->|H]; [left; left|].
      destruct (IH H) as [H'|H']; [left; right; exact H'|tauto].
Qed.

Lemma fused_add_all_keys cs : forall f key,
  key ∈ (fused_add_all f cs).*1 -> key ∈ f.*1 \/ key ∈ cs.*1.
Proof.
  unfold fused_add_all.
  induction cs as [|[k x] cs IH]; intros f key; cbn [fold_left fst snd].
  - tauto.
  - intros H. destruct (IH _ _ H) as [H'|H'].
    + destruct (fused_add_keys _ _ _ _ H') as [H2| ->]; [tauto|].
      right. left.
    + right. right. exact H'.
Qed.

(** The pool holds every key once. *)
Lemma fused_add_NoDup f k x : NoDup f.*1 -> NoDup (fused_add f k x).*1.
Proof.
  induction f as [|[k0 v0] f IH]; cbn [fused_add fmap list_fmap fst].
  - intros _. apply NoDup_singleton.
  - intros Hnd. apply NoDup_cons in Hnd as [Hk0 Hnd].
    destruct (decide (k0 = k)) as [->|Hne]; cbn [fmap list_fmap fst];
      apply NoDup_cons.
    + split; assumption.
    + split; [|exact (IH Hnd)]. intros Hin.
      apply fused_add_keys in Hin as [Hin|Hin]; [tauto|congruence].
Qed.

Lemma fused_add_all_NoDup cs : forall f,
  NoDup f.*1 -> NoDup (fused_add_all f cs).*1.
Proof.
  unfold fused_add_all.
  induction cs as [|[k x] cs IH]; intros f Hnd; cbn [fold_left fst snd];
    [exact Hnd|].
  apply IH, fused_add_NoDup, Hnd.
Qed.

Lemma search_loop_NoDup
    (bm25_get_scores : list (list string) -> list string -> list Q)
    (similarity_search : list Document -> string -> Z -> result (list (Document * Q)))
    (chroma_unavailable : string -> bool) (st : Store) (query : string)
    (k_bm25 k_embed : Z) (w_bm25 w_emb : Q) (courses : list course_arg) :
  forall acc acc',
    search_loop bm25_get_scores similarity_search chroma_unavailable
      st query k_bm25 k_embed w_bm25 w_emb acc courses = Ok acc' ->
    NoDup (fused acc).*1 -> NoDup (fused acc').*1.
Proof.
  induction courses as [|c courses IH]; intros acc acc'; cbn [search_loop].
  - intros [= <-] Hnd. exact Hnd.
  - unfold search_course.
    destruct (first_item c) as [name|]; step_bind; [|discriminate].
    destruct (search_namespace _ _ _ _ _ _ _ _ _ acc name) as [acc1|] eqn:Hstep;
      step_bind; [|discriminate].
    intros Hrest Hnd. apply (IH acc1 acc' Hrest).
    unfold search_namespace in Hstep.
    assert (Hfirst : NoDup
              (match bm25_db st !! slug name with
               | Some p =>
                   fused_add_all (fused acc)
                     (lexical_hits bm25_get_scores query k_bm25 w_bm25
                        (slug name) p)
               | None => fused acc
               end).*1).
    { destruct (bm25_db st !! slug name);
        [apply fused_add_all_NoDup|]; exact Hnd. }
    destruct (chroma_unavailable (slug name)).
    + step_bind_in Hstep. injection Hstep as <-. exact Hfirst.
    + destruct (similarity_search _ _ _) as [hits|]; step_bind_in Hstep;
        [|discriminate].
      destruct (vector_hits _ _ _) as [entries|]; step_bind_in Hstep;
        [|discriminate].
      injection Hstep as <-. cbn [fused].
      apply fused_add_all_NoDup, Hfirst.
Qed.

Section SearchIndexed.
Variable bm25_get_scores : list (list string) -> list string -> list Q.
Variable similarity_search :
  list Document -> string -> Z -> result (list (Document * Q)).
Variable chroma_unavailable : string -> bool.
Variable st : Store.
Variable query : string.
Variables k_final k_bm25 k_embed : Z.
Variables w_bm25 w_emb : Q.

(** The scorer gives one score per chunk of the corpus. *)
Hypothesis scores_per_chunk : forall corpus tokens,
  length (bm25_get_scores corpus tokens) = length corpus.
(** The vector store answers, with documents it holds. *)
Hypothesis hits_from_store : forall docs q k,
  exists hits,
    similarity_search docs q k = Ok hits
    /\ forall d s, (d, s) ∈ hits -> d ∈ docs.
Hypothesis st_reachable : reachable st.

Lemma lexical_hits_keys cslug p key :
  key ∈ (lexical_hits bm25_get_scores query k_bm25 w_bm25 cslug p).*1 ->
  exists i : nat, key = (cslug, Z.of_nat i) /\ (i < length (pkg_tokens p))%nat.
Proof.
  unfold lexical_hits.
  pose proof (scores_per_chunk (pkg_tokens p) (tokenize query)) as Hlen.
  destruct (bm25_get_scores (pkg_tokens p) (tokenize query)) as [|s0 ss] eqn:Hs;
    [intros H; inversion H|].
  rewrite <- Hs in *. intros H.
  apply list_elem_of_fmap in H as ([k v] & -> & H). cbn [fst].
  apply list_elem_of_In, in_map_iff in H as (i & [= <- _] & Hi).
  apply list_elem_of_In in Hi.
  exists i. split; [reflexivity|].
  destruct (top_of_ranking
              (minmax_norm (bm25_get_scores (pkg_tokens p) (tokenize query)))
              k_bm25) as (_ & Hrange & _).
  specialize (Hrange i Hi). rewrite minmax_norm_length, Hlen in Hrange.
  exact Hrange.
Qed.

Lemma vector_entries_keys cslug (n : nat) pairs :
  (forall d s sc, ((d, s), sc) ∈ pairs ->
     exists i : nat, (i < n)%nat
       /\ metadata d !! "chunk_id" = Some (MInt (Z.of_nat i))) ->
  exists entries,
    vector_entries w_emb cslug pairs = Ok entries
    /\ forall key, key ∈ entries.*1 ->
         exists i : nat, key = (cslug, Z.of_nat i) /\ (i < n)%nat.
Proof.
  induction pairs as [|[[d s] sc] pairs IH]; intros Hall; cbn [vector_entries].
  - exists []. split; [reflexivity|]. intros key H. inversion H.
  - destruct (Hall d s sc) as (i & Hi & Hid); [left|].
    destruct IH as (more & Hmore & Hkeys);
      [intros d' s' sc' H; apply (Hall d' s' sc'); right; exact H|].
    rewrite Hid. cbn [default py_int]. step_bind. rewrite Hmore. step_bind.
    eexists. split; [reflexivity|].
    destruct (Z.leb_spec 0 (Z.of_nat i)); [|lia].
    cbn [fmap list_fmap fst]. intros key Hk.
    apply elem_of_cons in Hk as [->|Hk]; [exists i; tauto|apply Hkeys, Hk].
Qed.

Lemma vector_hits_keys cslug hits :
  (forall d s, (d, s) ∈ hits -> d ∈ ns_docs st cslug) ->
  exists entries,
    vector_hits w_emb cslug hits = Ok entries
    /\ forall key, key ∈ entries.*1 ->
         exists i : nat,
           key = (cslug, Z.of_nat i) /\ (i < length (ns_docs st cslug))%nat.
Proof.
  intros Hin. unfold vector_hits.
  destruct hits as [|h hits'] eqn:Hh;
    [exists []; split; [reflexivity|intros key H; inversion H]|].
  rewrite <- Hh in *. apply vector_entries_keys.
  intros d s sc Hel.
  apply list_elem_of_lookup in Hel as [j Hj].
  apply lookup_zip_with_Some in Hj as (x & y & Hxy & Hx & _).
  injection Hxy as <- _.
  apply list_elem_of_lookup_2 in Hx. apply Hin in Hx.
  apply list_elem_of_lookup in Hx as [i Hi].
  exists i. split; [eapply lookup_lt_Some; exact Hi|].
  destruct (reachable_indexed st st_reachable cslug i d Hi)
    as (r & key & body & _ & ->).
  cbn [metadata]. apply lookup_insert_eq.
Qed.

Lemma ns_docs_length ns :
  length (ns_docs st ns) = length (ns_chunks st ns).
Proof.
  destruct (reachable_aligned st st_reachable ns) as (Hdocs & Hlen & _).
  rewrite Hdocs, length_zip_with. lia.
Qed.

Lemma search_namespace_pool acc name :
  pool_ok st acc ->
  exists acc',
    search_namespace bm25_get_scores similarity_search chroma_unavailable
      st query k_bm25 k_embed w_bm25 w_emb acc name = Ok acc'
    /\ pool_ok st acc'.
Proof.
  intros Hok. unfold search_namespace. set (cslug := slug name).
  destruct (reachable_aligned st st_reachable cslug) as (_ & _ & Htok & _).
  pose proof (ns_docs_length cslug) as Hdl.
  unfold ns_chunks, ns_tokens in Htok, Hdl.
  (* the entries of the two blocks *)
  assert (Hlex : forall p, bm25_db st !! cslug = Some p ->
            forall key,
              key ∈ (lexical_hits bm25_get_scores query k_bm25 w_bm25 cslug p).*1 ->
              exists i : nat,
                key = (cslug, Z.of_nat i) /\ (i < length (pkg_chunks p))%nat).
  { intros p Hp key Hkey. rewrite Hp in Htok.
    destruct (lexical_hits_keys cslug p key Hkey) as (i & -> & Hi).
    exists i. split; [reflexivity|lia]. }
  assert (Hvec : exists fused2,
            (match (if chroma_unavailable cslug then None
                    else Some (ns_docs st cslug)) with
             | Some docs =>
                 hits ← similarity_search docs query k_embed;
                 entries ← vector_hits w_emb cslug hits;
                 Ok (fused_add_all
                       match bm25_db st !! cslug with
                       | Some p =>
                           fused_add_all (fused acc)
                             (lexical_hits bm25_get_scores query k_bm25 w_bm25
                                cslug p)
                       | None => fused acc
                       end entries)
             | None =>
                 Ok match bm25_db st !! cslug with
                    | Some p =>
                        fused_add_all (fused acc)
                          (lexical_hits bm25_get_scores query k_bm25 w_bm25
                             cslug p)
                    | None => fused acc
                    end
             end) = Ok fused2
            /\ forall key, key ∈ fused2.*1 ->
                 key ∈ (fused acc).*1
                 \/ exists p (i : nat),
                      bm25_db st !! cslug = Some p
                      /\ key = (cslug, Z.of_nat i)
                      /\ (i < length (pkg_chunks p))%nat).
  { assert (Hfirst : forall key,
              key ∈ (match bm25_db st !! cslug with
                     | Some p =>
                         fused_add_all (fused acc)
                           (lexical_hits bm25_get_scores query k_bm25 w_bm25
                              cslug p)
                     | None => fused acc
                     end).*1 ->
              key ∈ (fused acc).*1
              \/ exists p (i : nat),
                   bm25_db st !! cslug = Some p
                   /\ key = (cslug, Z.of_nat i)
                   /\ (i < length (pkg_chunks p))%nat).
    { intros key Hkey. destruct (bm25_db st !! cslug) as [p|] eqn:Hp;
        [|left; exact Hkey].
      apply fused_add_all_keys in Hkey as [Hkey|Hkey]; [left; exact Hkey|].
      destruct (Hlex p eq_refl key Hkey) as (i & -> & Hi).
      right. exists p, i. tauto. }
    destruct (chroma_unavailable cslug);
      [eexists; split; [reflexivity|exact Hfirst]|].
    destruct (hits_from_store (ns_docs st cslug) query k_embed)
      as (hits & -> & Hin). step_bind.
    destruct (vector_hits_keys cslug hits Hin) as (entries & -> & Hkeys).
    step_bind. eexists. split; [reflexivity|].
    intros key Hkey.
    apply fused_add_all_keys in Hkey as [Hkey|Hkey]; [apply Hfirst, Hkey|].
    destruct (Hkeys key Hkey) as (i & -> & Hi). right.
    destruct (bm25_db st !! cslug) as [p|] eqn:Hp.
    - exists p, i. split; [reflexivity|]. split; [reflexivity|lia].
    - cbn in Hdl. lia. }
  destruct Hvec as (fused2 & -> & Hkeys). step_bind.
  eexists. split; [reflexivity|].
  intros key Hkey. cbn [fused bm25_pkgs] in *.
  destruct (Hkeys key Hkey) as [Hold|(p & i & Hp & -> & Hi)].
  - destruct (Hok key Hold) as (p & i & Hp & Hpk & Hi & Hlt).
    exists p, i. split; [exact Hp|]. split; [|tauto].
    destruct (decide (key.1 = cslug)) as [Heq|Hne].
    + rewrite Heq in *. rewrite Hp. apply lookup_insert_eq.
    + destruct (bm25_db st !! cslug);
        [rewrite lookup_insert_ne by congruence|]; exact Hpk.
  - exists p, i. cbn [fst snd]. rewrite Hp.
    split; [reflexivity|]. split; [apply lookup_insert_eq|tauto].
Qed.

Lemma search_loop_pool courses : forall acc,
  (forall c, c ∈ courses -> first_item c <> Raise IndexError) ->
  pool_ok st acc ->
  exists acc',
    search_loop bm25_get_scores similarity_search chroma_unavailable
      st query k_bm25 k_embed w_bm25 w_emb acc courses = Ok acc'
    /\ pool_ok st acc'.
Proof.
  induction courses as [|c courses IH]; intros acc Hfirst Hok;
    cbn [search_loop]; [eauto|].
  unfold search_course.
  destruct (first_item c) as [name|e] eqn:Hc.
  - step_bind.
    destruct (search_namespace_pool acc name Hok) as (acc1 & -> & Hok1).
    step_bind. apply IH; [|exact Hok1].
    intros c' Hc'. apply Hfirst. right. exact Hc'.
  - exfalso. apply (Hfirst c); [left|]. rewrite Hc.
    destruct c as [[|ch s]|[|x l]]; cbn in Hc; congruence.
Qed.

Lemma assemble_pool acc best :
  pool_ok st acc ->
  (forall kv, kv ∈ best -> kv.1 ∈ (fused acc).*1) ->
  exists out,
    assemble similarity_search query acc best = Ok out
    /\ Forall2 (result_of_entry st) best out.
Proof.
  intros Hok. induction best as [|[[cslug idx] score] best IH]; intros Hin;
    cbn [assemble].
  - exists []. split; [reflexivity|constructor].
  - destruct IH as (more & Hmore & Hres);
      [intros kv Hkv; apply Hin; right; exact Hkv|].
    destruct (Hok (cslug, idx)) as (p & i & Hp & Hpk & Hi & Hlt);
      [apply (Hin ((cslug, idx), score)); left|].
    cbn [fst snd] in Hp, Hpk, Hi. subst idx.
    destruct (aligned_lookup st cslug i (reachable_aligned st st_reachable cslug))
      as (text & m0 & Ht & Hm & Hd).
    { unfold ns_chunks. rewrite Hp. exact Hlt. }
    destruct (reachable_indexed st st_reachable cslug i _ Hd)
      as (r & key & body & Hbody & Hdoc).
    pose proof (f_equal page_content Hdoc) as Htext.
    pose proof (f_equal metadata Hdoc) as Hmeta.
    cbn [page_content metadata mk_doc] in Htext, Hmeta. clear Hdoc.
    subst text m0.
    assert (Hnth : forall (A : Type) (l : list A) x,
              l !! i = Some x -> py_nth l (Z.of_nat i) = Ok x).
    { intros A l x Hx. unfold py_nth.
      destruct (Z.ltb_spec (Z.of_nat i) 0); [lia|].
      destruct (Z.ltb_spec (Z.of_nat i) 0); [lia|].
      rewrite Nat2Z.id, Hx. reflexivity. }
    unfold resolve. rewrite Hpk.
    unfold ns_chunks in Ht. unfold ns_metas in Hm. rewrite Hp in Ht, Hm.
    rewrite (Hnth _ _ _ Ht), (Hnth _ _ _ Hm). step_bind.
    set (m := <["chunk_id" := MInt (Z.of_nat i)]>
                (<["__header_len" :=
                     MInt (Z.of_nat (String.length (build_header r)))]>
                   (base_meta r key))) in *.
    assert (Hcourse : m !! "course" = Some (MStr (course r))).
    { unfold m, base_meta. rewrite !lookup_insert_ne by discriminate.
      apply lookup_insert_eq. }
    assert (Hkey : m !! "source_key" = Some (MStr key)).
    { unfold m, base_meta. rewrite !lookup_insert_ne by discriminate.
      apply lookup_insert_eq. }
    assert (Hhdr : m !! "__header_len"
                   = Some (MInt (Z.of_nat (String.length (build_header r))))).
    { unfold m. rewrite lookup_insert_ne by discriminate.
      apply lookup_insert_eq. }
    assert (Hset : setdefault "course" (MStr cslug) m = m)
      by (unfold setdefault; rewrite Hcourse; reflexivity).
    cbv zeta. rewrite Hset, Hhdr. cbn [default py_int]. step_bind.
    rewrite Hmore. step_bind. eexists. split; [reflexivity|].
    constructor; [|exact Hres].
    split; [reflexivity|]. exists i, r, key, body.
    cbn [res_text res_meta res_preview fst snd].
    unfold ns_chunks, ns_metas. rewrite Hp.
    split; [reflexivity|].
    split; [exact Ht|]. split; [exact Hm|]. split; [exact Hd|].
    split; [apply lookup_insert_eq|]. split; [exact Hkey|].
    split; [exact Hcourse|]. split; [reflexivity|]. split; [exact Hbody|].
    apply preview_of_header. exact Hbody.
Qed.

Lemma hybrid_search_pool courses :
  (forall c, c ∈ courses -> first_item c <> Raise IndexError) ->
  exists acc out,
    search_loop bm25_get_scores similarity_search chroma_unavailable
      st query k_bm25 k_embed w_bm25 w_emb search_init courses = Ok acc
    /\ hybrid_search bm25_get_scores similarity_search chroma_unavailable
         st query k_final k_bm25 k_embed w_bm25 w_emb courses = Ok out
    /\ NoDup (py_take k_final (sorted_desc (fused acc))).*1
    /\ Forall2 (result_of_entry st)
         (py_take k_final (sorted_desc (fused acc))) out.
Proof.
  intros Hfirst. unfold hybrid_search.
  destruct (search_loop_pool courses search_init Hfirst)
    as (acc & Hloop & Hok).
  { intros key H. inversion H. }
  exists acc. rewrite Hloop. step_bind.
  destruct (assemble_pool acc (py_take k_final (sorted_desc (fused acc))) Hok)
    as (out & Hout & Hres).
  { intros kv Hkv. apply list_elem_of_fmap. exists kv. split; [reflexivity|].
    apply (subseteq_take (py_bound (length (sorted_desc (fused acc))) k_final))
      in Hkv.
    unfold sorted_desc in Hkv. rewrite sort_by_perm in Hkv. exact Hkv. }
  assert (Hnd : NoDup (py_take k_final (sorted_desc (fused acc))).*1).
  { unfold py_take. rewrite fmap_take.
    eapply sublist_NoDup; [|apply sublist_take].
    unfold sorted_desc. rewrite sort_by_perm.
    eapply search_loop_NoDup; [exact Hloop|]. constructor. }
  destruct (fused acc) as [|kv f] eqn:Hf.
  - exists []. split; [reflexivity|]. split; [reflexivity|].
    split; [exact Hnd|].
    unfold sorted_desc, sort_by, py_take. cbn. rewrite take_nil. constructor.
  - exists out. split; [reflexivity|]. split; [exact Hout|]. tauto.
Qed.
End SearchIndexed.

(** X16. On stores the indexer left behind, with a scorer that gives one
    score per chunk and a vector store that answers with documents it
    holds, a search over courses that each have a first element raises
    nothing. The results are, one for one and in order, the first
    [k_final] entries of the ranked pool; these name pairwise distinct
    chunks, and each result is the chunk its entry names: its text and
    metadata sit at the position of its [chunk_id] in both stores of
    the entry's namespace, the text is a record's header followed by a
    non-empty body window, the score is the entry's fused score, and
    the preview is the first 400 characters of that window, the header
    skipped. *)
Theorem hybrid_search_on_indexed_stores
    (bm25_get_scores : list (list string) -> list string -> list Q)
    (similarity_search : list Document -> string -> Z -> result (list (Document * Q)))
    (chroma_unavailable : string -> bool) (st : Store) (query : string)
    (k_final k_bm25 k_embed : Z) (w_bm25 w_emb : Q)
    (courses : list course_arg) :
  (forall corpus tokens,
     length (bm25_get_scores corpus tokens) = length corpus) ->
  (forall docs q k,
     exists hits,
       similarity_search docs q k = Ok hits
       /\ forall d s, (d, s) ∈ hits -> d ∈ docs) ->
  reachable st ->
  (forall c, c ∈ courses -> first_item c <> Raise IndexError) ->
  exists acc out,
    search_loop bm25_get_scores similarity_search chroma_unavailable
      st query k_bm25 k_embed w_bm25 w_emb search_init courses = Ok acc
    /\ hybrid_search bm25_get_scores similarity_search chroma_unavailable
         st query k_final k_bm25 k_embed w_bm25 w_emb courses = Ok out
    /\ NoDup (py_take k_final (sorted_desc (fused acc))).*1
    /\ Forall2
         (fun (kv : fused_key * Q) (res : SearchResult) =>
            res_score res = kv.2
            /\ exists (i : nat) r key body,
                 kv.1.2 = Z.of_nat i
                 /\ ns_chunks st kv.1.1 !! i = Some (res_text res)
                 /\ ns_metas st kv.1.1 !! i = Some (res_meta res)
                 /\ ns_docs st kv.1.1 !! i
                    = Some (mk_doc (res_text res) (res_meta res))
                 /\ res_meta res !! "chunk_id" = Some (MInt (Z.of_nat i))
                 /\ res_meta res !! "source_key" = Some (MStr key)
                 /\ res_meta res !! "course" = Some (MStr (course r))
                 /\ res_text res = build_header r +:+ body
                 /\ body <> ""
                 /\ res_preview res = substring 0 400 body +:+ "...")
         (py_take k_final (sorted_desc (fused acc))) out.
Proof.
  intros Hbm Hsim Hreach Hfirst.
  apply (hybrid_search_pool bm25_get_scores similarity_search chroma_unavailable
           st query k_final k_bm25 k_embed w_bm25 w_emb Hbm Hsim Hreach courses
           Hfirst).
Qed.

(** The sample scorer and the sample vector store meet the two
    conditions, and [store_after_ab] is a state the indexer reaches. *)
Lemma hybrid_search_on_indexed_stores_witness :
  exists out,
    hybrid_search demo_bm25 demo_similarity chroma_ok store_after_ab "hello"
      5 20 12 (3 # 10) (7 # 10) [CList ["Math 101"]] = Ok out.
Proof.
  destruct (hybrid_search_on_indexed_stores demo_bm25 demo_similarity chroma_ok
              store_after_ab "hello" 5 20 12 (3 # 10) (7 # 10)
              [CList ["Math 101"]])
    as (acc & out & _ & Hout & _).
  - intros corpus tokens. unfold demo_bm25. apply length_map.
  - intros docs q k. unfold demo_similarity. eexists. split; [reflexivity|].
    intros d s Hin. apply subseteq_take in Hin.
    apply list_elem_of_lookup in Hin as [i Hi].
    rewrite list_lookup_imap in Hi.
    destruct (docs !! i) as [d'|] eqn:Hd; [|discriminate].
    injection Hi as <- _. eapply list_elem_of_lookup_2. exact Hd.
  - apply (reach_index demo_fs demo_sha256 empty_store [rec_a; rec_b]);
      [apply reach_empty|vm_compute; reflexivity].
  - intros c Hc. apply list_elem_of_singleton in Hc as ->. discriminate.
  - exists out. exact Hout.
Defined.

(** A namespace with nothing stored leaves the search state as it was. *)
Lemma search_namespace_unindexed
    (bm25_get_scores : list (list string) -> list string -> list Q)
    (similarity_search : list Document -> string -> Z -> result (list (Document * Q)))
    (chroma_unavailable : string -> bool) (st : Store) (query : string)
    (k_bm25 k_embed : Z) (w_bm25 w_emb : Q) (acc : SearchState) (name : string) :
  similarity_search [] query k_embed = Ok [] ->
  bm25_db st !! slug name = None ->
  ns_docs st (slug name) = [] ->
  exists acc',
    search_namespace bm25_get_scores similarity_search chroma_unavailable
      st query k_bm25 k_embed w_bm25 w_emb acc name = Ok acc'
    /\ fused acc' = fused acc.
Proof.
  intros Hsim Hpkg Hdocs. unfold search_namespace. rewrite Hpkg, Hdocs.
  destruct (chroma_unavailable (slug name)).
  - step_bind. eexists. split; reflexivity.
  - rewrite Hsim. step_bind. cbn [vector_hits]. step_bind.
    eexists. split; reflexivity.
Qed.

(** X17. Courses that were never indexed give the empty list, not an
    error: when every element of [courses] has a first element whose
    namespace has no lexical store and no stored document, and the empty
    collection answers a query with no hit, [hybrid_search] returns
    [[]]. *)
Theorem hybrid_search_unindexed_courses
    (bm25_get_scores : list (list string) -> list string -> list Q)
    (similarity_search : list Document -> string -> Z -> result (list (Document * Q)))
    (chroma_unavailable : string -> bool) (st : Store) (query : string)
    (k_final k_bm25 k_embed : Z) (w_bm25 w_emb : Q)
    (courses : list course_arg) :
  similarity_search [] query k_embed = Ok [] ->
  (forall c, c ∈ courses ->
     exists name,
       first_item c = Ok name
       /\ bm25_db st !! slug name = None
       /\ ns_docs st (slug name) = []) ->
  hybrid_search bm25_get_scores similarity_search chroma_unavailable
    st query k_final k_bm25 k_embed w_bm25 w_emb courses = Ok [].
Proof.
  intros Hsim Hall. unfold hybrid_search.
  assert (Hloop : forall acc,
            exists acc',
              search_loop bm25_get_scores similarity_search chroma_unavailable
                st query k_bm25 k_embed w_bm25 w_emb acc courses = Ok acc'
              /\ fused acc' = fused acc).
  { induction courses as [|c courses IH]; intros acc; cbn [search_loop];
      [eauto|].
    destruct (Hall c) as (name & Hc & Hpkg & Hdocs); [left|].
    unfold search_course. rewrite Hc. step_bind.
    destruct (search_namespace_unindexed bm25_get_scores similarity_search
                chroma_unavailable st query k_bm25 k_embed w_bm25 w_emb acc name
                Hsim Hpkg Hdocs) as (acc1 & -> & Hf1).
    step_bind.
    destruct (IH ltac:(intros c' Hc'; apply Hall; right; exact Hc') acc1)
      as (acc' & Hrun & Hf).
    exists acc'. split; [exact Hrun|congruence]. }
  destruct (Hloop search_init) as (acc & -> & Hf). step_bind.
  rewrite Hf. reflexivity.
Qed.

Lemma hybrid_search_unindexed_courses_witness :
  hybrid_search demo_bm25 demo_similarity chroma_ok store_after_ab "hello"
    5 20 12 (3 # 10) (7 # 10) [CStr "Math 101"; CList ["History"]] = Ok [].
Proof.
  apply (hybrid_search_unindexed_courses demo_bm25 demo_similarity chroma_ok
           store_after_ab "hello" 5 20 12 (3 # 10) (7 # 10)).
  - reflexivity.
  - intros c Hc. apply elem_of_cons in Hc as [->|Hc].
    + exists "M". split; [reflexivity|]. split; vm_compute; reflexivity.
    + apply list_elem_of_singleton in Hc as ->.
      exists "History". split; [reflexivity|]. split; vm_compute; reflexivity.
Defined.

(** X18. In every state the indexer reaches, the token lists of a
    namespace's lexical store are the tokens of its chunk texts, in
    order: chunk [i] is scored on the lower-cased words of its own text,
    header included. *)
Theorem stored_tokens_of_chunks (st : Store) :
  reachable st ->
  forall ns, ns_tokens st ns = tokenize <$> ns_chunks st ns.
Proof.
  induction 1 as [|fs sha256 st recs st' _ IH Hrun|st ns0 _ IH Hnone];
    intros ns.
  - unfold ns_tokens, ns_chunks, empty_store. cbn.
    rewrite lookup_empty. reflexivity.
  - destruct recs as [|r0 rest]; [injection Hrun as <-; apply IH|].
    destruct (index_course_views _ _ _ _ _ _ Hrun)
      as (new & _ & _ & Hother & Hns).
    destruct (decide (ns = slug (course r0))) as [->|Hne].
    + cbn zeta in Hns. destruct Hns as (_ & Hch & _ & Ht).
      rewrite Ht, Hch, fmap_app, IH. f_equal.
      rewrite <- list_fmap_compose. reflexivity.
    + destruct (Hother ns Hne) as (_ & -> & _ & ->). apply IH.
  - apply IH.
Qed.

Lemma stored_tokens_of_chunks_witness :
  ns_tokens store_after_ab "math_101" = tokenize <$> ns_chunks store_after_ab "math_101".
Proof.
  apply (stored_tokens_of_chunks store_after_ab).
  apply (reach_index demo_fs demo_sha256 empty_store [rec_a; rec_b]);
    [apply reach_empty|vm_compute; reflexivity].
Defined.

(** ** Scores that do not differ *)

(** Equal scores all normalize to 0. *)
Lemma minmax_norm_constant (xs : list Q) :
  (forall x y, x ∈ xs -> y ∈ xs -> (x == y)%Q) ->
  forall v, v ∈ minmax_norm xs -> (v == 0)%Q.
Proof.
  intros Hconst v Hv. unfold minmax_norm in Hv.
  apply list_elem_of_In, in_map_iff in Hv as (s & <- & Hs).
  apply list_elem_of_In in Hs.
  assert (Hne : xs <> []) by (intros ->; inversion Hs).
  destruct (q_min_spec xs Hne) as [Hmin _].
  assert (H0 : (s - q_min xs == 0)%Q) by (rewrite (Hconst s _ Hs Hmin); ring).
  unfold Qdiv. rewrite H0. apply Qmult_0_l.
Qed.

(** The values the vector loop adds are the weighted normalized scores
    of the pairs it is given. *)
Lemma vector_entries_values (w_emb : Q) cslug pairs : forall entries,
  vector_entries w_emb cslug pairs = Ok entries ->
  forall kv, kv ∈ entries ->
    exists p, p ∈ pairs /\ kv.2 = (w_emb * p.2)%Q.
Proof.
  induction pairs as [|[[d s] sc] pairs IH]; intros entries;
    cbn [vector_entries].
  - intros [= <-] kv H. inversion H.
  - destruct (py_int _) as [cid|]; step_bind; [|discriminate].
    destruct (vector_entries w_emb cslug pairs) as [more|]; step_bind;
      [|discriminate].
    intros [= <-] kv Hkv.
    assert (Hmore : kv ∈ more -> exists p, p ∈ (d, s, sc) :: pairs
                                            /\ kv.2 = (w_emb * p.2)%Q).
    { intros H. destruct (IH more eq_refl kv H) as (p & Hp & Hv).
      exists p. split; [right; exact Hp|exact Hv]. }
    destruct (0 <=? cid)%Z; [|exact (Hmore Hkv)].
    apply elem_of_cons in Hkv as [->|Hkv]; [|exact (Hmore Hkv)].
    exists (d, s, sc). split; [left|reflexivity].
Qed.

(** X19. A signal whose scores do not differ adds nothing but zeros to
    the pool: when the scorer gives every chunk of the namespace the
    same score, as it must in a namespace of one chunk, every lexical
    entry is worth 0, and when the hits of the vector store all carry
    the same score, as a single hit does, every vector entry is worth
    0, whatever the weights. *)
Theorem equal_scores_add_zero
    (bm25_get_scores : list (list string) -> list string -> list Q)
    (query : string) (k_bm25 : Z) (w_bm25 w_emb : Q) (cslug : string) :
  (forall pkg,
     (forall x y,
        x ∈ bm25_get_scores (pkg_tokens pkg) (tokenize query) ->
        y ∈ bm25_get_scores (pkg_tokens pkg) (tokenize query) ->
        (x == y)%Q) ->
     forall kv,
       kv ∈ lexical_hits bm25_get_scores query k_bm25 w_bm25 cslug pkg ->
       (kv.2 == 0)%Q)
  /\ (forall hits entries,
        (forall h h', h ∈ hits -> h' ∈ hits -> (h.2 == h'.2)%Q) ->
        vector_hits w_emb cslug hits = Ok entries ->
        forall kv, kv ∈ entries -> (kv.2 == 0)%Q)
  /\ (forall doc s entries,
        vector_hits w_emb cslug [(doc, s)] = Ok entries ->
        forall kv, kv ∈ entries -> (kv.2 == 0)%Q).
Proof.
  assert (Hvec : forall hits entries,
            (forall h h', h ∈ hits -> h' ∈ hits -> (h.2 == h'.2)%Q) ->
            vector_hits w_emb cslug hits = Ok entries ->
            forall kv, kv ∈ entries -> (kv.2 == 0)%Q).
  { intros hits entries Hconst Hrun kv Hkv. unfold vector_hits in Hrun.
    destruct hits as [|h0 hits'] eqn:Hh;
      [injection Hrun as <-; inversion Hkv|].
    rewrite <- Hh in *.
    destruct (vector_entries_values _ _ _ _ Hrun kv Hkv) as ([h sc] & Hp & ->).
    cbn [snd]. apply list_elem_of_lookup in Hp as [j Hj].
    apply lookup_zip_with_Some in Hj as (x & y & Hxy & _ & Hy).
    injection Hxy as _ <-. apply list_elem_of_lookup_2 in Hy.
    assert (Hz : (sc == 0)%Q).
    { apply (minmax_norm_constant (map snd hits)); [|exact Hy].
      intros a b Ha Hb.
      apply list_elem_of_In, in_map_iff in Ha as (ha & <- & Ha).
      apply list_elem_of_In, in_map_iff in Hb as (hb & <- & Hb).
      apply Hconst; apply list_elem_of_In; assumption. }
    rewrite Hz. apply Qmult_0_r. }
  split; [|split; [exact Hvec|]].
  - intros pkg Hconst kv Hkv. unfold lexical_hits in Hkv.
    destruct (bm25_get_scores (pkg_tokens pkg) (tokenize query))
      as [|s0 ss] eqn:Hs; [inversion Hkv|].
    rewrite <- Hs in *.
    apply list_elem_of_In, in_map_iff in Hkv as (i & <- & Hi).
    apply list_elem_of_In in Hi. cbn [snd].
    destruct (top_of_ranking
                (minmax_norm (bm25_get_scores (pkg_tokens pkg) (tokenize query)))
                k_bm25) as (_ & Hrange & _).
    specialize (Hrange i Hi).
    assert (Hz : (nth i (minmax_norm
                           (bm25_get_scores (pkg_tokens pkg) (tokenize query)))
                    0 == 0)%Q).
    { apply (minmax_norm_constant _ Hconst).
      apply list_elem_of_In, nth_In, Hrange. }
    rewrite Hz. apply Qmult_0_r.
  - intros doc s entries Hrun. apply (Hvec [(doc, s)] entries); [|exact Hrun].
    intros h h' Hh Hh'. apply list_elem_of_singleton in Hh, Hh'. subst.
    reflexivity.
Qed.

(** One chunk in the namespace. *)
Lemma equal_scores_add_zero_witness :
  Forall (fun kv : fused_key * Q => (kv.2 == 0)%Q)
    (lexical_hits demo_bm25 "one" 20 (3 # 10) "math_101"
       {| pkg_tokens := [["old"; "one"]]; pkg_chunks := ["old one"];
          pkg_metas := [ {[ "chunk_id" := MInt 0 ]} ] |}).
Proof.
  apply Forall_forall.
  apply (equal_scores_add_zero demo_bm25 "one" 20 (3 # 10) (7 # 10) "math_101").
  intros x y Hx Hy. vm_compute in Hx, Hy.
  apply list_elem_of_singleton in Hx, Hy. subst. reflexivity.
Defined.

(** ** From the indexer to the search *)

(** The pool never shrinks. *)
Lemma fused_add_length f k x : length f <= length (fused_add f k x).
Proof.
  induction f as [|[k0 v0] f IH]; cbn [fused_add length]; [lia|].
  destruct (decide (k0 = k)); cbn [length]; lia.
Qed.

Lemma fused_add_all_length cs : forall f,
  length f <= length (fused_add_all f cs)
  /\ (cs <> [] -> 0 < length (fused_add_all f cs)).
Proof.
  unfold fused_add_all.
  induction cs as [|[k x] cs IH]; intros f; cbn [fold_left fst snd].
  - split; [lia|congruence].
  - destruct (IH (fused_add f k x)) as [Hle _].
    pose proof (fused_add_length f k x) as Hadd.
    assert (0 < length (fused_add f k x)).
    { destruct f as [|[k0 v0] f]; cbn [fused_add length]; [lia|].
      destruct (decide (k0 = k)); cbn [length]; lia. }
    split; [lia|intros _; lia].
Qed.

(** With one score per chunk and [k_bm25 >= 1], a namespace that holds
    chunks has lexical entries. *)
Lemma lexical_hits_nonempty
    (bm25_get_scores : list (list string) -> list string -> list Q)
    (query : string) (k_bm25 : Z) (w_bm25 : Q) (cslug : string) (p : Bm25Pkg) :
  (forall corpus tokens,
     length (bm25_get_scores corpus tokens) = length corpus) ->
  pkg_tokens p <> [] ->
  (1 <= k_bm25)%Z ->
  lexical_hits bm25_get_scores query k_bm25 w_bm25 cslug p <> [].
Proof.
  intros Hlen Htok Hk. unfold lexical_hits.
  specialize (Hlen (pkg_tokens p) (tokenize query)).
  destruct (bm25_get_scores (pkg_tokens p) (tokenize query)) as [|s0 ss] eqn:Hs.
  { destruct (pkg_tokens p); [congruence|discriminate]. }
  rewrite <- Hs in *.
  destruct (top_of_ranking
              (minmax_norm (bm25_get_scores (pkg_tokens p) (tokenize query)))
              k_bm25) as (_ & _ & Htop & _).
  specialize (Htop ltac:(lia)). rewrite minmax_norm_length in Htop.
  intros Hnil. apply (f_equal length) in Hnil.
  rewrite length_map, Htop, Hs in Hnil. cbn [length] in Hnil. lia.
Qed.

(** X20. From the indexer to the search: after a run of [index_course]
    that returned on a batch with at least one non-empty file, a search
    of that course, named by a one-element list, with [k_final >= 1]
    and [k_bm25 >= 1] returns at least one result, whatever the query
    is. The scorer is taken to give one score per chunk and the vector
    store to answer with documents it holds. *)
Theorem indexed_course_is_found
    (bm25_get_scores : list (list string) -> list string -> list Q)
    (similarity_search : list Document -> string -> Z -> result (list (Document * Q)))
    (chroma_unavailable : string -> bool)
    (fs : string -> option string) (sha256 : string -> string)
    (st : Store) (r0 : TxtRecord) (rest : list TxtRecord) (st' : Store)
    (query : string) (k_final k_bm25 k_embed : Z) (w_bm25 w_emb : Q) :
  (forall corpus tokens,
     length (bm25_get_scores corpus tokens) = length corpus) ->
  (forall docs q k,
     exists hits,
       similarity_search docs q k = Ok hits
       /\ forall d s, (d, s) ∈ hits -> d ∈ docs) ->
  reachable st ->
  index_course fs sha256 st (r0 :: rest) = Ok st' ->
  (exists r raw, r ∈ r0 :: rest /\ fs (file_path r) = Some raw /\ raw <> "") ->
  (1 <= k_final)%Z ->
  (1 <= k_bm25)%Z ->
  exists res out,
    hybrid_search bm25_get_scores similarity_search chroma_unavailable
      st' query k_final k_bm25 k_embed w_bm25 w_emb [CList [course r0]]
    = Ok (res :: out)
    /\ ns_chunks st' (slug (course r0)) <> [].
Proof.
  intros Hbm Hsim Hreach Hrun (r & raw & Hr & Hraw & Hne) Hkf Hkb.
  assert (Hreach' : reachable st') by (eapply reach_index; eassumption).
  set (ns := slug (course r0)).
  (* the namespace holds chunks *)
  assert (Hchunks : ns_chunks st' ns <> []).
  { destruct (index_course_covers _ _ _ _ _ _ Hrun r Hr) as (raw' & Hraw' & Hkey).
    rewrite Hraw in Hraw'. injection Hraw' as <-. specialize (Hkey Hne).
    fold ns in Hkey. rewrite stored_keys_docs in Hkey.
    pose proof (ns_docs_length st' Hreach' ns) as Hlen.
    intros Hnil. rewrite Hnil in Hlen. cbn in Hlen.
    destruct (ns_docs st' ns); [|discriminate].
    apply not_elem_of_empty in Hkey. exact Hkey. }
  destruct (reachable_aligned st' Hreach' ns) as (_ & _ & Htok & _).
  unfold ns_chunks, ns_tokens in Hchunks, Htok.
  destruct (bm25_db st' !! ns) as [p|] eqn:Hp; [|congruence].
  assert (Hptok : pkg_tokens p <> []).
  { intros Hnil. rewrite Hnil in Htok. cbn in Htok.
    destruct (pkg_chunks p); [congruence|discriminate]. }
  destruct (hybrid_search_pool bm25_get_scores similarity_search
              chroma_unavailable st' query k_final k_bm25 k_embed w_bm25 w_emb
              Hbm Hsim Hreach' [CList [course r0]])
    as (acc & out & Hloop & Hout & _ & Hres).
  { intros c Hc. apply list_elem_of_singleton in Hc as ->. discriminate. }
  (* the pool is not empty *)
  assert (Hpool : 0 < length (fused acc)).
  { cbn [search_loop] in Hloop. unfold search_course in Hloop.
    cbn [first_item] in Hloop. step_bind_in Hloop.
    destruct (search_namespace _ _ _ _ _ _ _ _ _ search_init (course r0))
      as [acc1|] eqn:Hstep; step_bind_in Hloop; [|discriminate].
    injection Hloop as <-.
    unfold search_namespace in Hstep. fold ns in Hstep. rewrite Hp in Hstep.
    pose proof (lexical_hits_nonempty bm25_get_scores query k_bm25 w_bm25 ns p
                  Hbm Hptok Hkb) as Hlex.
    destruct (fused_add_all_length
                (lexical_hits bm25_get_scores query k_bm25 w_bm25 ns p)
                (fused search_init)) as [_ Hfirst].
    specialize (Hfirst Hlex).
    destruct (chroma_unavailable ns).
    - step_bind_in Hstep. injection Hstep as <-. exact Hfirst.
    - destruct (similarity_search _ _ _) as [hits|]; step_bind_in Hstep;
        [|discriminate].
      destruct (vector_hits _ _ _) as [entries|]; step_bind_in Hstep;
        [|discriminate].
      injection Hstep as <-. cbn [fused].
      destruct (fused_add_all_length entries
                  (fused_add_all (fused search_init)
                     (lexical_hits bm25_get_scores query k_bm25 w_bm25 ns p)))
        as [Hle _].
      eapply Nat.lt_le_trans; [exact Hfirst|exact Hle]. }
  (* so is its top, and nothing is dropped *)
  apply Forall2_length in Hres.
  assert (Hbest : 0 < length (py_take k_final (sorted_desc (fused acc)))).
  { unfold py_take, py_bound. destruct (Z.ltb_spec k_final 0); [lia|].
    rewrite length_take.
    assert (Hsort : length (sorted_desc (fused acc)) = length (fused acc)).
    { unfold sorted_desc. apply Permutation_length, sort_by_perm. }
    lia. }
  destruct out as [|res out]; [cbn in Hres; lia|].
  exists res, out. split; [exact Hout|].
  unfold ns_chunks. fold ns. rewrite Hp. exact Hchunks.
Qed.

Lemma indexed_course_is_found_witness :
  exists res out,
    hybrid_search demo_bm25 demo_similarity chroma_ok store_after_ab
      "no such word" 5 20 12 (3 # 10) (7 # 10) [CList [course rec_a]]
    = Ok (res :: out).
Proof.
  destruct (indexed_course_is_found demo_bm25 demo_similarity chroma_ok
              demo_fs demo_sha256 empty_store rec_a [rec_b] store_after_ab
              "no such word" 5 20 12 (3 # 10) (7 # 10))
    as (res & out & Hout & _).
  - intros corpus tokens. unfold demo_bm25. apply length_map.
  - intros docs q k. unfold demo_similarity. eexists. split; [reflexivity|].
    intros d s Hin. apply subseteq_take in Hin.
    apply list_elem_of_lookup in Hin as [i Hi].
    rewrite list_lookup_imap in Hi.
    destruct (docs !! i) as [d'|] eqn:Hd; [|discriminate].
    injection Hi as <- _. eapply list_elem_of_lookup_2. exact Hd.
  - apply reach_empty.
  - vm_compute. reflexivity.
  - exists rec_a, "hello world". split; [left|]. split; [reflexivity|discriminate].
  - lia.
  - lia.
  - exists res, out. exact Hout.
Defined.

(** ** A namespace without a lexical store *)

(** The vector loop files its entries under the namespace it is given. *)
Lemma vector_entries_namespace (w_emb : Q) cslug pairs : forall entries,
  vector_entries w_emb cslug pairs = Ok entries ->
  forall key, key ∈ entries.*1 -> key.1 = cslug.
Proof.
  induction pairs as [|[[d s] sc] pairs IH]; intros entries;
    cbn [vector_entries].
  - intros [= <-] key H. inversion H.
  - destruct (py_int _) as [cid|]; step_bind; [|discriminate].
    destruct (vector_entries w_emb cslug pairs) as [more|]; step_bind;
      [|discriminate].
    intros [= <-] key Hkey.
    destruct (0 <=? cid)%Z; [|exact (IH more eq_refl key Hkey)].
    cbn [fmap list_fmap fst] in Hkey.
    apply elem_of_cons in Hkey as [->|Hkey]; [reflexivity|].
    exact (IH more eq_refl key Hkey).
Qed.

(** The fallback of the assembly loop does not look at the entry's chunk
    id. *)
Lemma assemble_fallback
    (similarity_search : list Document -> string -> Z -> result (list (Document * Q)))
    (query : string) (acc : SearchState) (cslug : string)
    (docs : list Document) (top : Document) (s : Q) (more : list (Document * Q))
    (best : list (fused_key * Q)) :
  bm25_pkgs acc !! cslug = None ->
  vector_stores acc !! cslug = Some docs ->
  similarity_search docs query 1%Z = Ok ((top, s) :: more) ->
  (forall kv, kv ∈ best -> kv.1.1 = cslug) ->
  forall out,
    assemble similarity_search query acc best = Ok out ->
    res_score <$> out = best.*2
    /\ forall res, res ∈ out ->
         res_text res = page_content top
         /\ res_meta res = setdefault "course" (MStr cslug) (metadata top).
Proof.
  intros Hpkg Hvs Htop. induction best as [|[[c idx] score] best IH];
    intros Hns out; cbn [assemble].
  - intros [= <-]. split; [reflexivity|]. intros res H. inversion H.
  - assert (Hc : c = cslug) by (apply (Hns ((c, idx), score)); left).
    subst c. unfold resolve. rewrite Hpkg, Hvs, Htop. step_bind. cbv zeta.
    destruct (py_int _) as [hdr_len|]; step_bind; [|discriminate].
    destruct (assemble similarity_search query acc best) as [rest|] eqn:Hrest;
      step_bind; [|discriminate].
    intros [= <-].
    destruct (IH ltac:(intros kv Hkv; apply Hns; right; exact Hkv) rest eq_refl)
      as [Hscores Hall].
    split; [cbn; f_equal; exact Hscores|].
    intros res Hres. apply elem_of_cons in Hres as [->|Hres];
      [split; reflexivity|apply Hall, Hres].
Qed.

(** X21. A namespace with a collection but no lexical store: every
    result assembled for it carries the text and the metadata of the
    single best hit the vector store gives for the query, whatever chunk
    the ranked entry names; the results differ in their scores only. *)
Theorem vector_only_results_repeat_top_hit
    (bm25_get_scores : list (list string) -> list string -> list Q)
    (similarity_search : list Document -> string -> Z -> result (list (Document * Q)))
    (chroma_unavailable : string -> bool) (st : Store) (query : string)
    (k_final k_bm25 k_embed : Z) (w_bm25 w_emb : Q)
    (name : string) (top : Document) (s : Q) (more : list (Document * Q))
    (out : list SearchResult) :
  bm25_db st !! slug name = None ->
  chroma_unavailable (slug name) = false ->
  similarity_search (ns_docs st (slug name)) query 1%Z = Ok ((top, s) :: more) ->
  hybrid_search bm25_get_scores similarity_search chroma_unavailable
    st query k_final k_bm25 k_embed w_bm25 w_emb [CList [name]] = Ok out ->
  Forall (fun res =>
            res_text res = page_content top
            /\ res_meta res
               = setdefault "course" (MStr (slug name)) (metadata top))
         out.
Proof.
  intros Hpkg Hvs Htop Hrun. apply Forall_forall.
  unfold hybrid_search in Hrun. cbn [search_loop] in Hrun.
  unfold search_course in Hrun. cbn [first_item] in Hrun. step_bind_in Hrun.
  unfold search_namespace in Hrun. rewrite Hpkg, Hvs in Hrun.
  destruct (similarity_search (ns_docs st (slug name)) query k_embed)
    as [hits|]; step_bind_in Hrun; [|discriminate].
  destruct (vector_hits w_emb (slug name) hits) as [entries|] eqn:Hentries;
    step_bind_in Hrun; [|discriminate].
  cbn [fused search_init] in Hrun.
  set (acc := {| fused := fused_add_all [] entries;
                 bm25_pkgs := bm25_pkgs search_init;
                 vector_stores :=
                   <[slug name := ns_docs st (slug name)]>
                     (vector_stores search_init) |}) in *.
  destruct (fused_add_all [] entries) as [|kv0 f] eqn:Hf;
    [injection Hrun as <-; intros res H; inversion H|].
  rewrite <- Hf in *.
  assert (Hns : forall kv,
            kv ∈ py_take k_final (sorted_desc (fused_add_all [] entries)) ->
            kv.1.1 = slug name).
  { intros kv Hkv.
    apply (subseteq_take
             (py_bound (length (sorted_desc (fused_add_all [] entries))) k_final))
      in Hkv.
    unfold sorted_desc in Hkv. rewrite sort_by_perm in Hkv.
    assert (Hkey : kv.1 ∈ (fused_add_all [] entries).*1)
      by (apply list_elem_of_fmap; exists kv; tauto).
    apply fused_add_all_keys in Hkey as [Hkey|Hkey]; [inversion Hkey|].
    unfold vector_hits in Hentries. destruct hits as [|h hits'];
      [injection Hentries as <-; inversion Hkey|].
    eapply vector_entries_namespace; eassumption. }
  destruct (assemble_fallback similarity_search query acc (slug name)
              (ns_docs st (slug name)) top s more
              (py_take k_final (sorted_desc (fused_add_all [] entries))))
    with (out := out) as [_ Hall].
  - reflexivity.
  - unfold acc. cbn [vector_stores]. apply lookup_insert_eq.
  - exact Htop.
  - exact Hns.
  - exact Hrun.
  - exact Hall.
Qed.

Lemma vector_only_results_repeat_top_hit_witness :
  exists top out,
    hybrid_search demo_bm25 demo_similarity chroma_ok store_vector_only "hello"
      5 20 12 (3 # 10) (7 # 10) [CList ["Math 101"]] = Ok out
    /\ Forall (fun res =>
                 res_text res = page_content top
                 /\ res_meta res
                    = setdefault "course" (MStr (slug "Math 101")) (metadata top))
              out.
Proof.
  destruct (demo_similarity (ns_docs store_vector_only (slug "Math 101")) "hello" 1)
    as [[|[top s] more]|] eqn:Htop; try (vm_compute in Htop; discriminate).
  destruct (hybrid_search demo_bm25 demo_similarity chroma_ok store_vector_only
              "hello" 5 20 12 (3 # 10) (7 # 10) [CList ["Math 101"]])
    as [out|] eqn:Hrun; [|vm_compute in Hrun; discriminate].
  exists top, out. split; [reflexivity|].
  apply (vector_only_results_repeat_top_hit demo_bm25 demo_similarity chroma_ok
           store_vector_only "hello" 5 20 12 (3 # 10) (7 # 10) "Math 101"
           top s more out).
  - reflexivity.
  - reflexivity.
  - exact Htop.
  - exact Hrun.
Defined.

(** ** Courses do not interfere *)

(** A run leaves the stores of the other namespaces as they are. *)
Lemma index_course_other_namespace fs sha256 st r0 rest st' ns :
  index_course fs sha256 st (r0 :: rest) = Ok st' ->
  ns <> slug (course r0) ->
  chroma_db st' !! ns = chroma_db st !! ns
  /\ bm25_db st' !! ns = bm25_db st !! ns.
Proof.
  intros Hrun Hne.
  destruct (index_course_inv _ _ _ _ _ _ Hrun) as (new & _ & Hcase).
  destruct Hcase as [[_ ->]|(_ & -> & ->)]; [tauto|].
  rewrite !lookup_insert_ne by congruence. tauto.
Qed.

(** The search reads the stores of the namespaces it is asked for and
    nothing else. *)
Lemma search_loop_frame
    (bm25_get_scores : list (list string) -> list string -> list Q)
    (similarity_search : list Document -> string -> Z -> result (list (Document * Q)))
    (chroma_unavailable : string -> bool) (st1 st2 : Store) (query : string)
    (k_bm25 k_embed : Z) (w_bm25 w_emb : Q) (courses : list course_arg) :
  (forall c name, c ∈ courses -> first_item c = Ok name ->
     chroma_db st1 !! slug name = chroma_db st2 !! slug name
     /\ bm25_db st1 !! slug name = bm25_db st2 !! slug name) ->
  forall acc,
    search_loop bm25_get_scores similarity_search chroma_unavailable
      st1 query k_bm25 k_embed w_bm25 w_emb acc courses
    = search_loop bm25_get_scores similarity_search chroma_unavailable
        st2 query k_bm25 k_embed w_bm25 w_emb acc courses.
Proof.
  induction courses as [|c courses IH]; intros Hsame acc; cbn [search_loop];
    [reflexivity|].
  assert (Hstep : search_course bm25_get_scores similarity_search
                    chroma_unavailable st1 query k_bm25 k_embed w_bm25 w_emb acc c
                  = search_course bm25_get_scores similarity_search
                      chroma_unavailable st2 query k_bm25 k_embed w_bm25 w_emb
                      acc c).
  { unfold search_course. destruct (first_item c) as [name|e] eqn:Hc;
      step_bind; [|reflexivity].
    destruct (Hsame c name) as [Hch Hbm]; [left|exact Hc|].
    unfold search_namespace, ns_docs. rewrite Hch, Hbm. reflexivity. }
  rewrite Hstep.
  destruct (search_course _ _ _ st2 _ _ _ _ _ acc c) as [acc1|]; step_bind;
    [|reflexivity].
  apply IH. intros c' name Hc'. apply Hsame. right. exact Hc'.
Qed.

(** X22. Indexing one course does not change what a search of other
    courses returns: after a run of [index_course] that returned, a
    search whose courses all lead to namespaces other than that of the
    batch gives the same result, or the same exception, as before the
    run. *)
Theorem search_unaffected_by_other_course
    (bm25_get_scores : list (list string) -> list string -> list Q)
    (similarity_search : list Document -> string -> Z -> result (list (Document * Q)))
    (chroma_unavailable : string -> bool)
    (fs : string -> option string) (sha256 : string -> string)
    (st : Store) (r0 : TxtRecord) (rest : list TxtRecord) (st' : Store)
    (query : string) (k_final k_bm25 k_embed : Z) (w_bm25 w_emb : Q)
    (courses : list course_arg) :
  index_course fs sha256 st (r0 :: rest) = Ok st' ->
  (forall c name, c ∈ courses -> first_item c = Ok name ->
     slug name <> slug (course r0)) ->
  hybrid_search bm25_get_scores similarity_search chroma_unavailable
    st' query k_final k_bm25 k_embed w_bm25 w_emb courses
  = hybrid_search bm25_get_scores similarity_search chroma_unavailable
      st query k_final k_bm25 k_embed w_bm25 w_emb courses.
Proof.
  intros Hrun Hother. unfold hybrid_search.
  rewrite (search_loop_frame bm25_get_scores similarity_search
             chroma_unavailable st' st query k_bm25 k_embed w_bm25 w_emb courses);
    [reflexivity|].
  intros c name Hc Hname.
  eapply index_course_other_namespace; [exact Hrun|].
  eapply Hother; eassumption.
Qed.

(** Indexing ["Math 101"] and searching ["physics"]. *)
Lemma search_unaffected_by_other_course_witness :
  hybrid_search demo_bm25 demo_similarity chroma_ok store_after_a "q"
    5 20 12 (1 # 4) (3 # 4) [CList ["physics"]]
  = hybrid_search demo_bm25 demo_similarity chroma_ok empty_store "q"
      5 20 12 (1 # 4) (3 # 4) [CList ["physics"]].
Proof.
  apply (search_unaffected_by_other_course demo_bm25 demo_similarity chroma_ok
           demo_fs demo_sha256 empty_store rec_a [] store_after_a).
  - vm_compute. reflexivity.
  - intros c name Hc Hname. apply list_elem_of_singleton in Hc as ->.
    injection Hname as <-. vm_compute. discriminate.
Defined.
